(** * mongootils: promisified connection handle for Mongoose connections

    A shallow embedding of [index.js].  A [Mongootils] handle wraps at most
    one connection object of the driver and offers [connect], [disconnect],
    [is], [getConnection] and [getConnectionURI].  The JavaScript heap is
    modelled by explicit stores (connection objects, handles, promises), the
    closures declared inside [connect] and [disconnect] are defunctionalised,
    and Node's [EventEmitter] listener table ([_events]) is modelled as the
    source inspects it: an optional object whose entries are either one
    listener function or an array of them. *)

From Stdlib Require Import ZArith.
From stdpp Require Import base option list gmap strings.

Open Scope string_scope.
Open Scope list_scope.

(** ** References and plain values *)

(** References into the stores below; [opts] is an opaque options object. *)
Abbreviation conn_ref := nat (only parsing).      (* a connection object *)
Abbreviation handle_ref := nat (only parsing).    (* a [Mongootils] instance *)
Abbreviation promise_ref := nat (only parsing).   (* a Bluebird promise *)
Abbreviation opts := nat (only parsing).

(** Values that are thrown or passed to [reject]: an error object of the
    driver, or the [TypeError] raised by the JavaScript runtime. *)
Inductive error :=
  | Err (n : nat)
  | TypeError.

#[global] Instance error_eq_dec : EqDecision error.
Proof. solve_decision. Defined.

(** The result of [is]: [this.connection && ...] yields [undefined] when no
    connection is held. *)
Inductive jsval :=
  | JSUndefined
  | JSBool (b : bool).

Definition truthy (v : jsval) : bool :=
  match v with
  | JSBool b => b
  | JSUndefined => false
  end.

(** ** Function objects

    The six closures created by one call of [connect] or [disconnect]; they
    capture [resolve]/[reject] of the promise [p] of that call. *)
Inductive closure :=
  | onConnectionError (p : promise_ref)
  | onConnectionOpened (p : promise_ref)
  | connect_cleanup (p : promise_ref)
  | onDisconnectionError (p : promise_ref)
  | onConnectionClosed (p : promise_ref)
  | disconnect_cleanup (p : promise_ref).

#[global] Instance closure_eq_dec : EqDecision closure.
Proof. solve_decision. Defined.

(** Function objects that can reach a listener table: a closure of this
    module, the result of [cb.bind(this)], the wrapper [g] that [once]
    installs (with [g.listener] the wrapped function), and listeners of
    other code, of which only the identity and the declared number of
    parameters matter here. *)
Inductive fn :=
  | Src (c : closure)
  | Bind (c : closure) (h : handle_ref)
  | OnceWrapper (ev : string) (f : fn)
  | Foreign (id : nat) (arity : nat).

#[global] Instance fn_eq_dec : EqDecision fn.
Proof. solve_decision. Defined.

(** The [length] property of a function: its number of declared parameters.
    [bind] without extra arguments keeps it; the [once] wrapper declares
    none. *)
Definition closure_length (c : closure) : nat :=
  match c with
  | onConnectionError _ => 1
  | onConnectionOpened _ => 0
  | connect_cleanup _ => 0
  | onDisconnectionError _ => 1
  | onConnectionClosed _ => 0
  | disconnect_cleanup _ => 0
  end.

Definition fn_length (f : fn) : nat :=
  match f with
  | Src c => closure_length c
  | Bind c _ => closure_length c
  | OnceWrapper _ _ => 0
  | Foreign _ a => a
  end.

(** An entry [_events[ev]]: a single listener is stored as the bare
    function, several as an array (the two cases [removeListeners]
    distinguishes with [Array.isArray]). *)
Inductive slot :=
  | SFun (f : fn)
  | SArr (l : list fn).

#[global] Instance slot_eq_dec : EqDecision slot.
Proof. solve_decision. Defined.

(** [listeners[ev].length]: the arity of a function, the size of an array. *)
Definition slot_length (s : slot) : nat :=
  match s with
  | SFun f => fn_length f
  | SArr l => length l
  end.

(** The listeners an entry holds. *)
Definition slot_listeners (s : slot) : list fn :=
  match s with
  | SFun f => [f]
  | SArr l => l
  end.

(** ** Connection objects *)

Module HostPort.
Record t := mk { host : option string; port : option Z }.
End HostPort.

Module Conn.
Record t := mk {
  host : option string;
  port : option Z;
  hosts : option (list HostPort.t);
  user : option string;
  pass : option string;
  name : option string;
  options : option opts;
  readyState : Z;
  _events : option (gmap string slot)
}.

Definition set_readyState (rs : Z) (c : t) : t :=
  mk (host c) (port c) (hosts c) (user c) (pass c) (name c) (options c)
     rs (_events c).

Definition set_events (e : option (gmap string slot)) (c : t) : t :=
  mk (host c) (port c) (hosts c) (user c) (pass c) (name c) (options c)
     (readyState c) e.
End Conn.

(** [mongoose.Connection.STATES], name to code.  The source fixes
    [disconnected] at 0 ("If it is disconnected (readyState = 0)"); the other
    codes are the driver's.  Any other key yields no code: [None] stands for
    a value that no [readyState] is strictly equal to. *)
Definition STATES (state : string) : option Z :=
  if decide (state = "disconnected") then Some 0%Z
  else if decide (state = "connected") then Some 1%Z
  else if decide (state = "connecting") then Some 2%Z
  else if decide (state = "disconnecting") then Some 3%Z
  else if decide (state = "uninitialized") then Some 99%Z
  else None.

(** ** Node's EventEmitter on a connection object *)

Module EventEmitter.

Definition table (c : Conn.t) : gmap string slot :=
  default ∅ (Conn._events c).

(** The listeners registered for [ev]. *)
Definition listeners (ev : string) (c : Conn.t) : list fn :=
  match table c !! ev with
  | Some s => slot_listeners s
  | None => []
  end.

(** [emitter.on(ev, f)]: the first listener is stored bare, the second
    turns the entry into an array, later ones are pushed. *)
Definition on (ev : string) (f : fn) (c : Conn.t) : Conn.t :=
  let s := match table c !! ev with
           | None => SFun f
           | Some (SFun g) => SArr [g; f]
           | Some (SArr l) => SArr (l ++ [f])
           end in
  Conn.set_events (Some (<[ev := s]> (table c))) c.

(** [emitter.once(ev, f)] registers a wrapper [g] with [g.listener = f]. *)
Definition once (ev : string) (f : fn) (c : Conn.t) : Conn.t :=
  on ev (OnceWrapper ev f) c.

(** [registered === target || registered.listener === target] *)
Definition matches (target registered : fn) : bool :=
  bool_decide (registered = target)
  || match registered with
     | OnceWrapper _ f => bool_decide (f = target)
     | _ => false
     end.

(** Removal of the last matching element of an array, [None] when no
    element matches (the scan runs from the end). *)
Fixpoint remove_last (target : fn) (l : list fn) : option (list fn) :=
  match l with
  | [] => None
  | x :: r =>
      match remove_last target r with
      | Some r' => Some (x :: r')
      | None => if matches target x then Some r else None
      end
  end.

(** [emitter.removeListener(ev, target)] removes at most one listener.  A
    bare entry that matches is deleted; an array loses its last matching
    element and stays an array while it has elements, as in the Node
    releases this module was written for. *)
Definition removeListener (ev : string) (target : fn) (c : Conn.t) : Conn.t :=
  match Conn._events c with
  | None => c
  | Some evs =>
      match evs !! ev with
      | None => c
      | Some (SFun g) =>
          if matches target g
          then Conn.set_events (Some (delete ev evs)) c
          else c
      | Some (SArr l) =>
          match remove_last target l with
          | None => c
          | Some l' =>
              if (length l =? 1)%nat
              then Conn.set_events (Some (delete ev evs)) c
              else Conn.set_events (Some (<[ev := SArr l']> evs)) c
          end
      end
  end.

End EventEmitter.

(** ** Handles, promises and the world *)

Module Handle.
Record t := mk {
  uri : option string;
  options : option opts;
  connection : option conn_ref
}.

Definition set_connection (c : option conn_ref) (h : t) : t :=
  mk (uri h) (options h) c.
End Handle.

(** What a promise settles with: [connect] resolves with [this.connection],
    [disconnect] with [this.uri]. *)
Inductive value :=
  | VConnection (c : option conn_ref)
  | VUri (u : option string).

Inductive pstate :=
  | Pending
  | Resolved (v : value)
  | Rejected (e : option error).

(** Requests made to the driver.  [CallClose c h p] carries the completion
    callback that [disconnect] passes to [close]: the one of handle [h] for
    promise [p]. *)
Inductive call :=
  | CallConnect (uri : option string) (o : option opts)
  | CallCreateConnection (uri : option string) (o : option opts)
  | CallClose (c : conn_ref) (h : handle_ref) (p : promise_ref).

Record world := mkWorld {
  heap : list Conn.t;            (* connection objects, by reference *)
  connections : list conn_ref;   (* [mongoose.connections] *)
  handles : list Handle.t;       (* [Mongootils] instances, by reference *)
  promises : list pstate;
  calls : list call              (* requests issued so far, oldest first *)
}.

Definition set_heap (hp : list Conn.t) (w : world) : world :=
  mkWorld hp (connections w) (handles w) (promises w) (calls w).

Definition set_handles (hs : list Handle.t) (w : world) : world :=
  mkWorld (heap w) (connections w) hs (promises w) (calls w).

Definition set_promises (ps : list pstate) (w : world) : world :=
  mkWorld (heap w) (connections w) (handles w) ps (calls w).

Definition log (c : call) (w : world) : world :=
  mkWorld (heap w) (connections w) (handles w) (promises w) (calls w ++ [c]).

(** In-place update of the connection object [c]. *)
Definition update_conn (c : conn_ref) (f : Conn.t → Conn.t) (w : world) : world :=
  set_heap (alter f c (heap w)) w.

(** [this.connection], [this.uri], [this.options] of handle [h]. *)
Definition handle_connection (w : world) (h : handle_ref) : option conn_ref :=
  hd ← handles w !! h; Handle.connection hd.

Definition handle_uri (w : world) (h : handle_ref) : option string :=
  hd ← handles w !! h; Handle.uri hd.

Definition handle_options (w : world) (h : handle_ref) : option opts :=
  hd ← handles w !! h; Handle.options hd.

(** [this.connection = c] *)
Definition assign_connection (h : handle_ref) (c : option conn_ref) (w : world) : world :=
  set_handles (alter (Handle.set_connection c) h (handles w)) w.

(** The listeners registered for [ev] on the connection object [c]. *)
Definition listeners_of (w : world) (c : conn_ref) (ev : string) : list fn :=
  match heap w !! c with
  | Some co => EventEmitter.listeners ev co
  | None => []
  end.

(** *** Promises *)

(** [new BB(executor)] allocates a pending promise before the executor runs. *)
Definition new_promise (w : world) : world * promise_ref :=
  (set_promises (promises w ++ [Pending]) w, length (promises w)).

(** A promise settles once; later calls of [resolve]/[reject] are ignored. *)
Definition settle (p : promise_ref) (s : pstate) (w : world) : world :=
  match promises w !! p with
  | Some Pending => set_promises (<[p := s]> (promises w)) w
  | _ => w
  end.

Definition resolve (p : promise_ref) (v : value) : world → world :=
  settle p (Resolved v).

Definition reject (p : promise_ref) (e : option error) : world → world :=
  settle p (Rejected e).

(** *** Computations that may throw

    The state reached, and the exception if one was thrown; effects made
    before the throw stay. *)
Definition outcome := (world * option error)%type.

Definition ret (w : world) : outcome := (w, None).
Definition throw (e : error) (w : world) : outcome := (w, Some e).

Definition and_then (o : outcome) (k : world → outcome) : outcome :=
  match o with
  | (w, None) => k w
  | (w, Some e) => (w, Some e)
  end.

Notation "o >>> k" := (and_then o k) (at level 61, left associativity).

(** ** [Mongootils.prototype.is]  ([is] is reserved, hence [is_]) *)

(** [connection.readyState === mongoose.Connection.STATES[state]] *)
Definition reports (w : world) (c : conn_ref) (state : string) : bool :=
  match heap w !! c, STATES state with
  | Some co, Some code => bool_decide (Conn.readyState co = code)
  | _, _ => false
  end.

Definition is_ (w : world) (h : handle_ref) (state : string) : jsval :=
  if decide (state = "disconnected" ∨ state = "uninitialized")
  then match handle_connection w h with
       | None => JSBool true
       | Some c => JSBool (reports w c state)
       end
  else match handle_connection w h with
       | None => JSUndefined
       | Some c => JSBool (reports w c state)
       end.

(** ** [Mongootils.prototype.getConnection] *)

Definition getConnection (w : world) (h : handle_ref) : option conn_ref :=
  handle_connection w h.

(** ** [Mongootils.prototype.addConnectionListener] *)

(** [!listeners || !listeners[ev] || listeners[ev].length === 0] *)
Definition may_attach (ev : string) (co : Conn.t) : bool :=
  match Conn._events co with
  | None => true
  | Some evs =>
      match evs !! ev with
      | None => true
      | Some s => (slot_length s =? 0)%nat
      end
  end.

Definition addConnectionListener (h : handle_ref) (ev : string) (cb : closure)
    (w : world) : outcome :=
  match handle_connection w h with
  | None => throw TypeError w
  | Some c =>
      match heap w !! c with
      | None => throw TypeError w
      | Some co =>
          if may_attach ev co
          then if decide (ev = "error")
               then ret (update_conn c (EventEmitter.on ev (Bind cb h)) w)
               else ret (update_conn c (EventEmitter.once ev (Bind cb h)) w)
          else ret w
      end
  end.

(** ** [Mongootils.prototype.removeListeners] *)

(** [listeners.forEach(function(l){ this.connection.removeListener(ev, cb); })]:
    the file is in strict mode and [forEach] gets no [thisArg], so [this] is
    [undefined] in the callback and its first call raises [TypeError]; an
    empty array never calls it. *)
Definition forEach_removeListener (l : list fn) (w : world) : outcome :=
  match l with
  | [] => ret w
  | _ :: _ => throw TypeError w
  end.

Definition removeListeners (h : handle_ref) (ev : string) (cb : fn)
    (w : world) : outcome :=
  match handle_connection w h with
  | None => ret w
  | Some c =>
      match heap w !! c with
      | None => ret w
      | Some co =>
          match Conn._events co with
          | None => ret w
          | Some evs =>
              match evs !! ev with
              | None => ret w
              | Some (SArr l) => forEach_removeListener l w
              | Some (SFun _) =>
                  ret (update_conn c (EventEmitter.removeListener ev cb) w)
              end
          end
      end
  end.

(** ** The closures of [connect] and [disconnect] *)

(** The receiver of a call: the handle a closure was bound to, or the
    emitting connection when a function is called unbound. *)
Inductive this_val :=
  | ThisHandle (h : handle_ref)
  | ThisConn (c : conn_ref).

(** [this.connection]; a connection object has no such property. *)
Definition this_connection (w : world) (t : this_val) : option conn_ref :=
  match t with
  | ThisHandle h => handle_connection w h
  | ThisConn _ => None
  end.

(** [this.removeListeners(ev, cb)]; a connection object has no such method. *)
Definition this_removeListeners (t : this_val) (ev : string) (cb : fn)
    (w : world) : outcome :=
  match t with
  | ThisHandle h => removeListeners h ev cb w
  | ThisConn _ => throw TypeError w
  end.

(** The body of each closure, called with receiver [t] and first argument
    [arg] ([None] for [undefined]).  The calls of [d(...)] only log. *)
Definition run_closure (c : closure) (t : this_val) (arg : option error)
    (w : world) : outcome :=
  match c with
  | onConnectionError p => ret (reject p arg w)
  | onConnectionOpened p => ret (resolve p (VConnection (this_connection w t)) w)
  | connect_cleanup p =>
      this_removeListeners t "error" (Src (onConnectionError p)) w
      >>> this_removeListeners t "open" (Src (onConnectionOpened p))
      >>> this_removeListeners t "close" (Src (connect_cleanup p))
  | onDisconnectionError p => ret (reject p arg w)
  | onConnectionClosed p => ret w
  | disconnect_cleanup p =>
      this_removeListeners t "error" (Src (onDisconnectionError p)) w
      >>> this_removeListeners t "disconnected" (Src (onConnectionClosed p))
      >>> this_removeListeners t "close" (Src (disconnect_cleanup p))
  end.

(** Calling a registered function as a listener of connection [c].  The
    [once] wrapper first removes itself, then calls the wrapped function
    (its [fired] flag only matters when an emit is re-entered and is left
    out).  Listeners of other code are taken to leave this world alone. *)
Fixpoint invoke (f : fn) (c : conn_ref) (arg : option error) (w : world) : outcome :=
  match f with
  | Src cl => run_closure cl (ThisConn c) arg w
  | Bind cl h => run_closure cl (ThisHandle h) arg w
  | OnceWrapper ev g =>
      invoke g c arg (update_conn c (EventEmitter.removeListener ev f) w)
  | Foreign _ _ => ret w
  end.

(** Calling the listeners of a snapshot in order; a throw stops the round. *)
Fixpoint invoke_all (l : list fn) (c : conn_ref) (arg : option error)
    (w : world) : outcome :=
  match l with
  | [] => ret w
  | f :: r => invoke f c arg w >>> invoke_all r c arg
  end.

(** [connection.emit(ev, arg)].  An ['error'] event without listener is
    thrown. *)
Definition emit (c : conn_ref) (ev : string) (arg : option error)
    (w : world) : outcome :=
  match listeners_of w c ev with
  | [] => if decide (ev = "error")
          then throw (default TypeError arg) w
          else ret w
  | l => invoke_all l c arg w
  end.

(** ** The driver, as far as the handle relies on it *)

(** A connection object as [createConnection] returns it: opening, without
    listeners.  Its descriptive fields are the driver's business. *)
Definition new_connection (o : option opts) : Conn.t :=
  Conn.mk None None None None None None o 2 (Some ∅).

(** [mongoose.connect(uri, options)] opens the default connection
    [mongoose.connections[0]]. *)
Definition mongoose_connect (uri : option string) (o : option opts)
    (w : world) : world :=
  match connections w with
  | c0 :: _ => update_conn c0 (Conn.set_readyState 2) (log (CallConnect uri o) w)
  | [] => log (CallConnect uri o) w
  end.

(** [mongoose.createConnection(uri, options)] returns a new connection object
    and appends it to [mongoose.connections]. *)
Definition createConnection (uri : option string) (o : option opts)
    (w : world) : world * conn_ref :=
  let c := length (heap w) in
  (mkWorld (heap w ++ [new_connection o]) (connections w ++ [c]) (handles w)
           (promises w) (calls w ++ [CallCreateConnection uri o]),
   c).

(** [connection.close(callback)], as the driver receives it: the request is
    recorded with its callback and an open connection enters the state
    disconnecting.  What follows (the connection closed, ['disconnected'] and
    ['close'] emitted, the callback called) is [driver_closed] below; a driver
    may do it before [close()] returns or afterwards, see [close_now] and
    [close_later]. *)
Definition Connection_close (c : conn_ref) (h : handle_ref) (p : promise_ref)
    (w : world) : world :=
  update_conn c (λ co, if decide (Conn.readyState co = 1%Z)
                       then Conn.set_readyState 3 co else co)
              (log (CallClose c h p) w).

(** ** [Mongootils.prototype.connect] *)

(** [mongoose.connections.length === 1 && mongoose.connections[0].readyState === 0] *)
Definition default_slot_idle (w : world) : bool :=
  match connections w with
  | [c0] =>
      match heap w !! c0 with
      | Some co => bool_decide (Conn.readyState co = 0%Z)
      | None => false
      end
  | _ => false
  end.

(** The [else] branch of the executor: obtain a connection, from the default
    slot or a new one, ... *)
Definition obtain_connection (h : handle_ref) (w : world) : world :=
  if default_slot_idle w
  then let w' := mongoose_connect (handle_uri w h) (handle_options w h) w in
       assign_connection h (head (connections w')) w'
  else let '(w', c) := createConnection (handle_uri w h) (handle_options w h) w in
       assign_connection h (Some c) w'.

(** ... then attach the three listeners. *)
Definition connect_initiate (h : handle_ref) (p : promise_ref) (w : world) : outcome :=
  addConnectionListener h "error" (onConnectionError p) (obtain_connection h w)
  >>> addConnectionListener h "open" (onConnectionOpened p)
  >>> addConnectionListener h "close" (connect_cleanup p).

Definition connect_executor (h : handle_ref) (p : promise_ref) (w : world) : outcome :=
  if truthy (is_ w h "connected")
  then ret (resolve p (VConnection (handle_connection w h)) w)
  else if truthy (is_ w h "connecting")
  then ret w
  else connect_initiate h p w.

(** [new BB(executor)]: an exception thrown by the executor rejects the
    promise. *)
Definition run_executor (ex : promise_ref → world → outcome) (w : world)
    : world * promise_ref :=
  let '(w0, p) := new_promise w in
  match ex p w0 with
  | (w1, None) => (w1, p)
  | (w1, Some e) => (reject p (Some e) w1, p)
  end.

Definition connect (w : world) (h : handle_ref) : world * promise_ref :=
  run_executor (connect_executor h) w.

(** ** [Mongootils.prototype.disconnect] *)

(** The completion callback passed to [close]. *)
Definition close_callback (h : handle_ref) (p : promise_ref) (w : world) : outcome :=
  run_closure (disconnect_cleanup p) (ThisHandle h) None w
  >>> (λ w1, let w2 := assign_connection h None w1 in
             ret (resolve p (VUri (handle_uri w2 h)) w2)).

Definition disconnect_initiate (h : handle_ref) (p : promise_ref) (w : world) : outcome :=
  addConnectionListener h "error" (onDisconnectionError p) w
  >>> addConnectionListener h "disconnected" (onConnectionClosed p)
  >>> addConnectionListener h "close" (disconnect_cleanup p)
  >>> (λ w1, match handle_connection w1 h with
             | Some c => ret (Connection_close c h p w1)
             | None => throw TypeError w1
             end).

Definition disconnect_executor (h : handle_ref) (p : promise_ref) (w : world) : outcome :=
  if truthy (is_ w h "disconnected") || truthy (is_ w h "uninitialized")
  then let w1 := assign_connection h None w in
       ret (resolve p (VUri (handle_uri w1 h)) w1)
  else if truthy (is_ w h "disconnecting")
  then ret w
  else disconnect_initiate h p w.

(** [disconnect] returns once the driver has the close request; the
    driver's later steps are steps of their own.  For a driver that closes
    and calls back before [close()] returns see [disconnect_with]. *)
Definition disconnect (w : world) (h : handle_ref) : world * promise_ref :=
  run_executor (disconnect_executor h) w.

(** ** [Mongootils.prototype.getConnectionURI] and the constructor *)

Module UriObject.
Record t := mk {
  username : option string;
  password : option string;
  database : option string;
  hosts : list HostPort.t
}.
End UriObject.

(** The [mongodb-uri] module. *)
Class UriCodec := {
  format : UriObject.t → string;
  formatMongoose : string → string
}.

Section WithCodec.
Context `{UriCodec}.

Definition uriObject_of (co : Conn.t) : UriObject.t :=
  UriObject.mk (Conn.user co) (Conn.pass co) (Conn.name co)
    match Conn.hosts co with
    | None => [HostPort.mk (Conn.host co) (Conn.port co)]
    | Some l => l
    end.

(** Reads the held connection object; [None] is [undefined]. *)
Definition getConnectionURI (w : world) (h : handle_ref) : option string :=
  match handle_connection w h with
  | None => None
  | Some c =>
      match heap w !! c with
      | None => None
      | Some co => Some (formatMongoose (format (uriObject_of co)))
      end
  end.

(** The first constructor argument: a [NativeConnection] object, or anything
    else (the URI). *)
Inductive ctor_arg :=
  | ArgConnection (c : conn_ref)
  | ArgUri (u : option string).

Definition Mongootils (a0 : ctor_arg) (a1 : option opts) (w : world)
    : world * handle_ref :=
  let h := length (handles w) in
  match a0 with
  | ArgConnection c =>
      let w1 := set_handles (handles w ++ [Handle.mk None None (Some c)]) w in
      let u := getConnectionURI w1 h in
      let o := co ← heap w1 !! c; Conn.options co in
      (set_handles (handles w ++ [Handle.mk u o (Some c)]) w, h)
  | ArgUri u =>
      (set_handles (handles w ++ [Handle.mk u a1 None]) w, h)
  end.

End WithCodec.

(** ** The driver's notifications

    How the driver drives the handle's listeners and callback: it sets
    [readyState] and emits the event; a completed [close] also calls the
    callback it was given. *)

Definition driver_opened (c : conn_ref) (w : world) : outcome :=
  emit c "open" None (update_conn c (Conn.set_readyState 1) w).

Definition driver_failed (c : conn_ref) (e : error) (w : world) : outcome :=
  emit c "error" (Some e) (update_conn c (Conn.set_readyState 0) w).

Definition driver_closed (c : conn_ref) (h : handle_ref) (p : promise_ref)
    (w : world) : outcome :=
  emit c "disconnected" None (update_conn c (Conn.set_readyState 0) w)
  >>> emit c "close" None
  >>> close_callback h p.

(** ** Sample worlds *)

(** A rendering that is enough to tell URIs apart. *)
Definition sample_codec : UriCodec :=
  {| format := λ o, "mongodb://" +:+ default "" (UriObject.database o);
     formatMongoose := λ s, s |}.

(** A connection object in state [rs] without listeners. *)
Definition blank_connection (rs : Z) : Conn.t :=
  Conn.mk (Some "localhost") (Some 27017%Z) None None None (Some "db") None rs (Some ∅).

(** A process in which the driver holds its default connection only, in
    state [rs], and one handle was built from a URI. *)
Definition default_only (rs : Z) : world :=
  fst (Mongootils (H := sample_codec) (ArgUri (Some "mongodb://localhost/db")) None
         (mkWorld [blank_connection rs] [0] [] [] [])).

(** A process start: the default connection is disconnected. *)
Definition one_handle : world := default_only 0.

(** [one_handle] after [connect]. *)
Definition connecting_world : world := fst (connect one_handle 0).

(** ... and after the driver reported the connection open. *)
Definition connected_world : world := fst (driver_opened 0 connecting_world).

(** A process whose default connection is already open, wrapped by a handle
    built from the connection object. *)
Definition wrapped_open : world :=
  fst (Mongootils (H := sample_codec) (ArgConnection 0) None
         (mkWorld [blank_connection 1] [0] [] [] [])).

(** ... after [disconnect] and after the driver, having closed the
    connection, emitted ['disconnected'] and ['close']; the close callback
    is still to be called. *)
Definition closed_notified : world :=
  (emit 0 "disconnected" None
     (update_conn 0 (Conn.set_readyState 0) (disconnect wrapped_open 0).1)
   >>> emit 0 "close" None).1.

(** A process in which the default connection is in use by other code, and
    one handle was built from a URI. *)
Definition busy_default : world := default_only 1.

(** ** Auxiliary notions for the statements below *)

(** Handle [h] holds the connection object [co], at reference [c]. *)
Definition holds (w : world) (h : handle_ref) (c : conn_ref) (co : Conn.t) : Prop :=
  handle_connection w h = Some c ∧ heap w !! c = Some co.

(** The subscription [addConnectionListener] chooses: persistent for
    ['error'], one-shot otherwise. *)
Definition attach (ev : string) (f : fn) : Conn.t → Conn.t :=
  if decide (ev = "error") then EventEmitter.on ev f else EventEmitter.once ev f.

(** The three events [connect] listens to. *)
Definition connect_events : list string := ["error"; "open"; "close"].

(** If [connect] is going to reuse the default connection, that connection
    has no listener yet for the events [connect] listens to.  (A connection
    made by [createConnection] never has.) *)
Definition quiet_default (w : world) : Prop :=
  default_slot_idle w = true →
  ∀ c0 ev, head (connections w) = Some c0 → ev ∈ connect_events →
           listeners_of w c0 ev = [].

(** [w'] differs from [w] by listener tables and settled promises only:
    same handles, same connection list, same requests made, same number of
    promises and connection objects, same [readyState] everywhere. *)
Definition listener_frame (w w' : world) : Prop :=
  handles w' = handles w ∧
  connections w' = connections w ∧
  calls w' = calls w ∧
  length (promises w') = length (promises w) ∧
  length (heap w') = length (heap w) ∧
  ∀ c, Conn.readyState <$> heap w' !! c = Conn.readyState <$> heap w !! c.

(** The [uri] and [options] of every handle of [w] are the same in [w']. *)
Definition static_fields (w w' : world) : Prop :=
  ∀ h, h < length (handles w) →
       h < length (handles w') ∧
       handle_uri w' h = handle_uri w h ∧
       handle_options w' h = handle_options w h.

(** ** Histories

    Everything that can happen to a world: calls of the handle's methods,
    construction of further handles, and the driver emitting an event,
    changing a [readyState] or completing a [close].  The three queries
    return a value and no new world. *)
Inductive action :=
  | DoConnect (h : handle_ref)
  | DoDisconnect (h : handle_ref)
  | DoIs (h : handle_ref) (state : string)
  | DoGetConnection (h : handle_ref)
  | DoGetConnectionURI (h : handle_ref)
  | DoNew (a0 : ctor_arg) (a1 : option opts)
  | DriverEmits (c : conn_ref) (ev : string) (arg : option error)
  | DriverSets (c : conn_ref) (rs : Z)
  | DriverCloseDone (h : handle_ref) (p : promise_ref).

Definition perform `{UriCodec} (a : action) (w : world) : world :=
  match a with
  | DoConnect h => (connect w h).1
  | DoDisconnect h => (disconnect w h).1
  | DoIs _ _ | DoGetConnection _ | DoGetConnectionURI _ => w
  | DoNew a0 a1 => (Mongootils a0 a1 w).1
  | DriverEmits c ev arg => (emit c ev arg w).1
  | DriverSets c rs => update_conn c (Conn.set_readyState rs) w
  | DriverCloseDone h p => (close_callback h p w).1
  end.

Fixpoint run `{UriCodec} (acts : list action) (w : world) : world :=
  match acts with
  | [] => w
  | a :: rest => run rest (perform a w)
  end.

(** ** Further notions for the statements on the rest of the code *)

(** The three events [disconnect] listens to. *)
Definition disconnect_events : list string := ["error"; "disconnected"; "close"].

(** The connection object has no entry at all for the events [evs]. *)
Definition silent (evs : list string) (co : Conn.t) : Prop :=
  ∀ ev, ev ∈ evs → EventEmitter.table co !! ev = None.

(** A process whose only connection object is in state [rs]; no handle. *)
Definition lone_connection (rs : Z) : world :=
  mkWorld [blank_connection rs] [0] [] [] [].

(** The entry for [ev] is an array with at least one listener. *)
Definition array_entry (ev : string) (co : Conn.t) : Prop :=
  ∃ f l, EventEmitter.table co !! ev = Some (SArr (f :: l)).

(** [connected_world] after [disconnect]: the close request is under way. *)
Definition closing_after_connect : world := (disconnect connected_world 0).1.

(** [wrapped_open] after [disconnect]. *)
Definition closing_wrapped : world := (disconnect wrapped_open 0).1.

(** The promise whose [resolve]/[reject] a closure captured. *)
Definition closure_promise (cl : closure) : promise_ref :=
  match cl with
  | onConnectionError p | onConnectionOpened p | connect_cleanup p
  | onDisconnectionError p | onConnectionClosed p | disconnect_cleanup p => p
  end.

(** The function object [f] is, binds or wraps a closure of promise [p]. *)
Fixpoint mentions (p : promise_ref) (f : fn) : Prop :=
  match f with
  | Src cl | Bind cl _ => closure_promise cl = p
  | OnceWrapper _ g => mentions p g
  | Foreign _ _ => False
  end.

(** [connecting_world] after the driver failed to open the connection. *)
Definition failed_world : world := (driver_failed 0 (Err 1) connecting_world).1.

(** Promise [p] is referred to by a registered listener or by a close
    callback handed to the driver. *)
Definition mentioned (p : promise_ref) (w : world) : Prop :=
  (∃ c ev f, f ∈ listeners_of w c ev ∧ mentions p f) ∨
  (∃ c h, CallClose c h p ∈ calls w).

(** Listeners and callbacks refer to allocated promises only. *)
Definition well_scoped (w : world) : Prop :=
  ∀ q, mentioned q w → q < length (promises w).

(** The driver only calls back a callback it was given. *)
Definition enabled (a : action) (w : world) : Prop :=
  match a with
  | DriverCloseDone h p => ∃ c, CallClose c h p ∈ calls w
  | _ => True
  end.

Fixpoint history_ok `{UriCodec} (acts : list action) (w : world) : Prop :=
  match acts with
  | [] => True
  | a :: rest => enabled a w ∧ history_ok rest (perform a w)
  end.

(** From [w] to [w']: every listener of [w'] was in [w] or is a handler this
    module bound for a promise in [P] (bare, or wrapped by [once]); no bound
    handler of [w] is gone; every close callback of [w'] was in [w] or is for
    a promise in [P]. *)
Definition grows (P : promise_ref → Prop) (w w' : world) : Prop :=
  (∀ c ev f, f ∈ listeners_of w' c ev →
             f ∈ listeners_of w c ev ∨
             ∃ cl h, P (closure_promise cl) ∧
                     (f = Bind cl h ∨ f = OnceWrapper ev (Bind cl h))) ∧
  (∀ c ev cl h, Bind cl h ∈ listeners_of w c ev →
                Bind cl h ∈ listeners_of w' c ev) ∧
  (∀ c h p, CallClose c h p ∈ calls w' → CallClose c h p ∈ calls w ∨ P p).

(** A listener that [removeListener] can never be asked to remove by this
    module's cleanup: not an unbound closure, nor the wrapper of one. *)
Definition bound_only (f : fn) : Prop :=
  match f with
  | Src _ => False
  | OnceWrapper _ (Src _) => False
  | _ => True
  end.

Definition tables_bound (w : world) : Prop :=
  ∀ c ev f, f ∈ listeners_of w c ev → bound_only f.

(** ** When the driver calls back

    [disconnect] above returns once the request is with the driver: it is
    [disconnect_with close_later].  A driver that closes an open connection
    and calls back before [close()] returns makes the callback run inside
    the executor, where an exception rejects the promise:
    [disconnect_with close_now]. *)

Definition close_later (c : conn_ref) (h : handle_ref) (p : promise_ref)
    (w : world) : outcome :=
  ret (Connection_close c h p w).

Definition close_now (c : conn_ref) (h : handle_ref) (p : promise_ref)
    (w : world) : outcome :=
  driver_closed c h p (Connection_close c h p w).

Definition disconnect_initiate_with
    (close : conn_ref → handle_ref → promise_ref → world → outcome)
    (h : handle_ref) (p : promise_ref) (w : world) : outcome :=
  addConnectionListener h "error" (onDisconnectionError p) w
  >>> addConnectionListener h "disconnected" (onConnectionClosed p)
  >>> addConnectionListener h "close" (disconnect_cleanup p)
  >>> (λ w1, match handle_connection w1 h with
             | Some c => close c h p w1
             | None => throw TypeError w1
             end).

Definition disconnect_executor_with
    (close : conn_ref → handle_ref → promise_ref → world → outcome)
    (h : handle_ref) (p : promise_ref) (w : world) : outcome :=
  if truthy (is_ w h "disconnected") || truthy (is_ w h "uninitialized")
  then let w1 := assign_connection h None w in
       ret (resolve p (VUri (handle_uri w1 h)) w1)
  else if truthy (is_ w h "disconnecting")
  then ret w
  else disconnect_initiate_with close h p w.

Definition disconnect_with
    (close : conn_ref → handle_ref → promise_ref → world → outcome)
    (w : world) (h : handle_ref) : world * promise_ref :=
  run_executor (disconnect_executor_with close h) w.

(** ** What a listener can make of a promise

    The state a listener of this module can give a pending promise: a
    rejection, or a resolution with what [this.connection] is when it runs,
    the connection some handle holds or [undefined]; never a URI. *)
Definition by_listener (w : world) (s : pstate) : Prop :=
  match s with
  | Resolved (VConnection (Some c)) => ∃ h, handle_connection w h = Some c
  | Resolved (VConnection None) => True
  | Rejected _ => True
  | _ => False
  end.

(** From [w] to [w'] the handles are the same and each promise is as it was
    or was pending and has been settled as a listener can. *)
Definition listeners_settle (w w' : world) : Prop :=
  handles w' = handles w ∧
  ∀ p, promises w' !! p = promises w !! p ∨
       (promises w !! p = Some Pending ∧
        ∃ s, promises w' !! p = Some s ∧ by_listener w s).

(** A process start in which other code listens to ['close'] on the default
    connection with a function that declares a parameter. *)
Definition guarded_default : world :=
  update_conn 0 (EventEmitter.on "close" (Foreign 0 1)) one_handle.

(** [connect], then [disconnect] before the connection is open; the driver
    calls the close callback, and reports the connection open after that. *)
Definition late_open : list action :=
  [DoConnect 0; DoDisconnect 0; DriverCloseDone 0 1; DriverSets 0 1;
   DriverEmits 0 "open" None].

(** * Properties *)

(** ** Stores: what each primitive leaves alone *)

Lemma handle_connection_set_promises ps w h :
  handle_connection (set_promises ps w) h = handle_connection w h.
Proof. reflexivity. Qed.

Lemma handle_connection_settle p s w h :
  handle_connection (settle p s w) h = handle_connection w h.
Proof. unfold settle. by repeat case_match. Qed.

Lemma heap_settle p s w : heap (settle p s w) = heap w.
Proof. unfold settle. by repeat case_match. Qed.

Lemma handles_settle p s w : handles (settle p s w) = handles w.
Proof. unfold settle. by repeat case_match. Qed.

(** Settling a pending promise records the state; it never unsettles. *)
Lemma settle_pending p s w :
  promises w !! p = Some Pending → promises (settle p s w) !! p = Some s.
Proof.
  intros Hp. unfold settle. rewrite Hp. simpl.
  apply list_lookup_insert_eq. by eapply lookup_lt_Some.
Qed.

(** The promise allocated by [new BB] is pending. *)
Lemma new_promise_pending w :
  promises (new_promise w).1 !! (new_promise w).2 = Some Pending.
Proof.
  simpl. rewrite lookup_app_r; [|lia]. by rewrite Nat.sub_diag.
Qed.

(** [is] reads the handle and its connection object only. *)
Lemma is_ext w w' h state :
  handles w' = handles w → heap w' = heap w → is_ w' h state = is_ w h state.
Proof.
  intros Hh Hp. unfold is_, handle_connection, reports. by rewrite Hh, Hp.
Qed.

(** ** [is] *)

Lemma reports_connected_not_disconnected w c :
  reports w c "connected" = true → reports w c "disconnected" = false.
Proof.
  unfold reports. destruct (heap w !! c) as [co|]; [|done].
  simpl. intros H1%bool_decide_eq_true. apply bool_decide_eq_false. lia.
Qed.

Lemma is_connected_inv w h :
  truthy (is_ w h "connected") = true →
  ∃ c, handle_connection w h = Some c ∧ reports w c "connected" = true.
Proof.
  unfold is_. simpl. destruct (handle_connection w h) as [c|]; [|done].
  simpl. eauto.
Qed.

Lemma is_connected_intro w h c :
  handle_connection w h = Some c → reports w c "connected" = true →
  is_ w h "connected" = JSBool true ∧ is_ w h "disconnected" = JSBool false.
Proof.
  intros Hc Hr. unfold is_. simpl. rewrite Hc, Hr.
  by rewrite (reports_connected_not_disconnected _ _ Hr).
Qed.

Lemma is_disconnected_no_connection w h :
  handle_connection w h = None → is_ w h "disconnected" = JSBool true.
Proof. intros Hc. unfold is_. simpl. by rewrite Hc. Qed.

(** C7 (amended): [is(state)] is a function of the world alone, so it has no
    effect and cannot fail.  For ['disconnected'] and ['uninitialized'] it
    returns a boolean, [true] exactly when no connection is held or the held
    connection reports that state.  For any other state name it returns
    [true] exactly when a connection is held and reports that state; without
    a connection the result is [undefined], not a boolean, and with a
    connection it is the boolean of the comparison. *)
Theorem is_spec (w : world) (h : handle_ref) (state : string) :
  (state = "disconnected" ∨ state = "uninitialized" →
     (∃ b, is_ w h state = JSBool b) ∧
     (is_ w h state = JSBool true ↔
        handle_connection w h = None ∨
        ∃ c, handle_connection w h = Some c ∧ reports w c state = true)) ∧
  (¬ (state = "disconnected" ∨ state = "uninitialized") →
     (is_ w h state = JSBool true ↔
        ∃ c, handle_connection w h = Some c ∧ reports w c state = true) ∧
     (is_ w h state = JSUndefined ↔ handle_connection w h = None) ∧
     (∀ c, handle_connection w h = Some c →
           is_ w h state = JSBool (reports w c state))).
Proof.
  unfold is_. split; intros Hs; case_decide; try done.
  - destruct (handle_connection w h) as [c|]; split; eauto.
    + split.
      * intros [= Hr]. right. eauto.
      * intros [|(c' & [= <-] & ->)]; done.
    + split; [by left | done].
  - destruct (handle_connection w h) as [c|].
    + repeat split; try done.
      * intros [= Hr]. eauto.
      * intros (c' & [= <-] & ->). done.
      * by intros c' [= <-].
    + repeat split; try done. by intros (c' & ? & _).
Qed.

Lemma is_spec_witness :
  (∃ b, is_ one_handle 0 "disconnected" = JSBool b) ∧
  is_ one_handle 0 "connecting" = JSUndefined.
Proof.
  split.
  - apply (proj1 (is_spec one_handle 0 "disconnected")). by left.
  - apply (proj2 (is_spec one_handle 0 "connecting")).
    + intros [|]; discriminate.
    + reflexivity.
Defined.

(** C7 as stated fails: on a handle that holds no connection,
    [is('connected')] is [undefined], not a boolean. *)
Lemma is_not_always_boolean :
  handle_connection one_handle 0 = None ∧
  ¬ ∃ b, is_ one_handle 0 "connected" = JSBool b.
Proof. split; [reflexivity|]. intros [b Hb]. vm_compute in Hb. discriminate. Qed.

(** ** [getConnectionURI] *)

(** C8: without a connection [getConnectionURI] returns [undefined];
    otherwise it renders, through [format] followed by [formatMongoose], a
    URI object whose username, password and database are the connection's
    [user], [pass] and [name], and whose hosts are the single pair of the
    connection's [host] and [port] when the connection has no [hosts], or
    the connection's [hosts] list itself when it has one. *)
Theorem getConnectionURI_spec `{UriCodec} (w : world) (h : handle_ref) :
  (handle_connection w h = None → getConnectionURI w h = None) ∧
  (∀ c co, handle_connection w h = Some c → heap w !! c = Some co →
     ∃ o, getConnectionURI w h = Some (formatMongoose (format o)) ∧
          UriObject.username o = Conn.user co ∧
          UriObject.password o = Conn.pass co ∧
          UriObject.database o = Conn.name co ∧
          (Conn.hosts co = None →
             UriObject.hosts o = [HostPort.mk (Conn.host co) (Conn.port co)]) ∧
          (∀ l, Conn.hosts co = Some l → UriObject.hosts o = l)).
Proof.
  unfold getConnectionURI. split.
  - by intros ->.
  - intros c co -> ->. exists (uriObject_of co). repeat split.
    + simpl. by intros ->.
    + simpl. by intros l ->.
Qed.

Lemma getConnectionURI_spec_witness :
  getConnectionURI (H := sample_codec) one_handle 0 = None ∧
  ∃ o, getConnectionURI (H := sample_codec) connecting_world 0
       = Some (@formatMongoose sample_codec (@format sample_codec o)) ∧
       UriObject.hosts o = [HostPort.mk (Some "localhost") (Some 27017%Z)].
Proof.
  split.
  - apply (proj1 (getConnectionURI_spec (H := sample_codec) one_handle 0)).
    reflexivity.
  - edestruct (proj2 (getConnectionURI_spec (H := sample_codec) connecting_world 0))
      as (o & Ho & _ & _ & _ & Hh & _);
      [reflexivity | vm_compute; reflexivity |].
    exists o. split; [exact Ho | by apply Hh].
Defined.

(** ** [assign_connection] *)

Lemma handle_connection_assign h c w h' :
  handle_connection (assign_connection h c w) h'
  = if decide (h = h')
    then handles w !! h ≫= (λ _, c)
    else handle_connection w h'.
Proof.
  unfold handle_connection, assign_connection. simpl.
  destruct (decide (h = h')) as [->|Hne].
  - rewrite list_lookup_alter_eq. by destruct (handles w !! h').
  - by rewrite list_lookup_alter_ne.
Qed.

Lemma handle_connection_assign_None h w :
  handle_connection (assign_connection h None w) h = None.
Proof.
  rewrite handle_connection_assign. rewrite decide_True by done.
  by destruct (handles w !! h).
Qed.

Lemma handle_uri_assign h c w h' :
  handle_uri (assign_connection h c w) h' = handle_uri w h'.
Proof.
  unfold handle_uri, assign_connection. simpl.
  destruct (decide (h = h')) as [->|Hne].
  - rewrite list_lookup_alter_eq. by destruct (handles w !! h').
  - by rewrite list_lookup_alter_ne.
Qed.

Lemma handle_options_assign h c w h' :
  handle_options (assign_connection h c w) h' = handle_options w h'.
Proof.
  unfold handle_options, assign_connection. simpl.
  destruct (decide (h = h')) as [->|Hne].
  - rewrite list_lookup_alter_eq. by destruct (handles w !! h').
  - by rewrite list_lookup_alter_ne.
Qed.

(** ** Promises allocated by [new BB] *)

Lemma lookup_snoc_length {A} (l : list A) (x : A) :
  (l ++ [x]) !! length l = Some x.
Proof. rewrite lookup_app_r; [|lia]. by rewrite Nat.sub_diag. Qed.

Lemma resolve_new_promise w v :
  resolve (length (promises w)) v (new_promise w).1
  = set_promises (promises w ++ [Resolved v]) w.
Proof.
  unfold resolve, settle. simpl. rewrite lookup_snoc_length.
  unfold set_promises. simpl. f_equal.
  rewrite <-(Nat.add_0_r (length (promises w))).
  by rewrite insert_app_r.
Qed.

(** ** [disconnect] on a handle that is already disconnected *)

Lemma disconnect_noop_path w h :
  truthy (is_ w h "disconnected") || truthy (is_ w h "uninitialized") = true →
  disconnect w h
  = (set_promises (promises w ++ [Resolved (VUri (handle_uri w h))])
       (assign_connection h None w),
     length (promises w)).
Proof.
  intros Hst. unfold disconnect, run_executor, disconnect_executor.
  cbn [new_promise].
  rewrite !(is_ext w (set_promises _ w)) by done. rewrite Hst.
  unfold ret. f_equal.
  change (assign_connection h None (set_promises (promises w ++ [Pending]) w))
    with (new_promise (assign_connection h None w)).1.
  change (length (promises w))
    with (length (promises (assign_connection h None w))) at 1.
  rewrite resolve_new_promise.
  change (handle_uri (new_promise (assign_connection h None w)).1 h)
    with (handle_uri (assign_connection h None w) h).
  by rewrite handle_uri_assign.
Qed.

(** C6: when the handle reports ['disconnected'] or ['uninitialized'] (in
    particular when it holds no connection), [disconnect] clears the
    connection reference and resolves at once with the stored URI; the
    executor does not throw, no request is made to the driver and no
    connection object is touched. *)
Theorem disconnect_when_disconnected (w : world) (h : handle_ref) :
  truthy (is_ w h "disconnected") = true
  ∨ truthy (is_ w h "uninitialized") = true
  ∨ handle_connection w h = None →
  let w' := (disconnect w h).1 in
  let p := (disconnect w h).2 in
  handle_connection w' h = None ∧
  promises w' !! p = Some (Resolved (VUri (handle_uri w h))) ∧
  (disconnect_executor h (new_promise w).2 (new_promise w).1).2 = None ∧
  calls w' = calls w ∧
  heap w' = heap w ∧
  connections w' = connections w.
Proof.
  intros Hst.
  assert (truthy (is_ w h "disconnected") || truthy (is_ w h "uninitialized")
          = true) as Hor.
  { destruct Hst as [->| [->|Hn]]; [done | by rewrite orb_true_r |].
    by rewrite (is_disconnected_no_connection _ _ Hn). }
  cbv zeta. rewrite (disconnect_noop_path _ _ Hor). simpl.
  split_and!; try done.
  - apply (handle_connection_assign_None h w).
  - apply lookup_snoc_length.
  - unfold disconnect_executor.
    rewrite !(is_ext w (set_promises _ w)) by done. by rewrite Hor.
Qed.

Lemma disconnect_when_disconnected_witness :
  handle_connection (disconnect one_handle 0).1 0 = None ∧
  promises (disconnect one_handle 0).1 !! (disconnect one_handle 0).2
  = Some (Resolved (VUri (Some "mongodb://localhost/db"))).
Proof.
  pose proof (disconnect_when_disconnected one_handle 0) as Hd.
  destruct Hd as (H1 & H2 & _).
  - right; right. reflexivity.
  - split; [exact H1 | exact H2].
Defined.

(** ** [connect] on a handle that is already connected *)

Lemma connect_connected_path w h :
  truthy (is_ w h "connected") = true →
  connect w h
  = (set_promises
       (promises w ++ [Resolved (VConnection (handle_connection w h))]) w,
     length (promises w)).
Proof.
  intros Hst. unfold connect, run_executor, connect_executor.
  cbn [new_promise].
  rewrite (is_ext w (set_promises _ w)) by done. rewrite Hst.
  unfold ret. f_equal.
  change (set_promises (promises w ++ [Pending]) w) with (new_promise w).1.
  by rewrite resolve_new_promise.
Qed.

(** C1: when the held connection reports the connected state, [connect]
    resolves at once with the very connection reference the handle holds
    and changes nothing but the promise store: no request to the driver, no
    connection object created or touched (hence no listener added), the
    handle unchanged.  Two calls in a row both resolve with that same
    reference. *)
Theorem connect_when_connected (w : world) (h : handle_ref) :
  truthy (is_ w h "connected") = true →
  ∃ c, handle_connection w h = Some c ∧
    let r1 := connect w h in
    let r2 := connect r1.1 h in
    r1.1 = set_promises (promises w ++ [Resolved (VConnection (Some c))]) w ∧
    promises r2.1 !! r1.2 = Some (Resolved (VConnection (Some c))) ∧
    promises r2.1 !! r2.2 = Some (Resolved (VConnection (Some c))) ∧
    r1.2 ≠ r2.2 ∧
    heap r2.1 = heap w ∧ connections r2.1 = connections w ∧
    handles r2.1 = handles w ∧ calls r2.1 = calls w.
Proof.
  intros Hst. destruct (is_connected_inv _ _ Hst) as (c & Hc & _).
  exists c. split; [done|]. cbv zeta.
  rewrite (connect_connected_path _ _ Hst), Hc. cbn [fst snd].
  rewrite connect_connected_path
    by (by rewrite (is_ext w (set_promises _ w))).
  cbn [fst snd]. rewrite handle_connection_set_promises, Hc. simpl.
  rewrite length_app. simpl. split_and!; try done.
  - rewrite lookup_app_l by (rewrite length_app; simpl; lia).
    apply lookup_snoc_length.
  - replace (length (promises w) + 1)
      with (length (promises w ++ [Resolved (VConnection (Some c))]))
      by (rewrite length_app; simpl; lia).
    apply lookup_snoc_length.
  - lia.
Qed.

Lemma connect_when_connected_witness :
  ∃ c, handle_connection connected_world 0 = Some c ∧
       promises (connect (connect connected_world 0).1 0).1 !! 1
       = Some (Resolved (VConnection (Some c))) ∧
       promises (connect (connect connected_world 0).1 0).1 !! 2
       = Some (Resolved (VConnection (Some c))).
Proof.
  destruct (connect_when_connected connected_world 0) as (c & Hc & H).
  - reflexivity.
  - exists c. split; [exact Hc|].
    destruct H as (_ & H1 & H2 & _). split; [exact H1 | exact H2].
Defined.

(** ** The listener table *)

Section EventEmitterFacts.
Import EventEmitter.

Lemma listeners_set_readyState ev rs co :
  listeners ev (Conn.set_readyState rs co) = listeners ev co.
Proof. reflexivity. Qed.

Lemma readyState_removeListener ev f co :
  Conn.readyState (removeListener ev f co) = Conn.readyState co.
Proof. unfold removeListener. by repeat case_match. Qed.

(** [on] appends to the listeners of its event and leaves other events. *)
Lemma listeners_on ev f co : listeners ev (on ev f co) = listeners ev co ++ [f].
Proof.
  unfold listeners, on, table at 1. simpl. rewrite lookup_insert_eq.
  destruct (table co !! ev) as [[g|l]|]; done.
Qed.

Lemma listeners_on_ne ev ev' f co :
  ev ≠ ev' → listeners ev (on ev' f co) = listeners ev co.
Proof.
  intros Hne. unfold listeners, on, table at 1. simpl.
  by rewrite lookup_insert_ne.
Qed.

Lemma remove_last_singleton target g :
  remove_last target [g] = if matches target g then Some [] else None.
Proof. reflexivity. Qed.

Lemma remove_last_length target l l' :
  remove_last target l = Some l' → length l = S (length l').
Proof.
  revert l'. induction l as [|x r IH]; intros l'; simpl; [done|].
  destruct (remove_last target r) as [r'|] eqn:Hr.
  - intros [= <-]. simpl. by rewrite (IH r').
  - destruct (matches target x); [|done]. by intros [= <-].
Qed.

(** [removeListener] drops the last matching listener of its event, if any,
    and leaves other events. *)
Lemma listeners_removeListener ev target co :
  listeners ev (removeListener ev target co)
  = default (listeners ev co) (remove_last target (listeners ev co)).
Proof.
  unfold listeners, removeListener, table.
  destruct (Conn._events co) as [evs|] eqn:He; simpl; [|by rewrite He].
  destruct (evs !! ev) as [[g|l]|] eqn:Hs; simpl.
  - destruct (matches target g); simpl.
    + by rewrite lookup_delete_eq.
    + by rewrite He; simpl; rewrite Hs.
  - destruct (remove_last target l) as [l'|] eqn:Hr; simpl.
    + pose proof (remove_last_length _ _ _ Hr) as Hlen.
      destruct (length l =? 1)%nat eqn:H1; simpl.
      * rewrite lookup_delete_eq. apply Nat.eqb_eq in H1.
        destruct l'; [done | simpl in Hlen; lia].
      * by rewrite lookup_insert_eq.
    + by rewrite He; simpl; rewrite Hs.
  - by rewrite He; simpl; rewrite Hs.
Qed.

Lemma listeners_removeListener_ne ev ev' target co :
  ev ≠ ev' → listeners ev (removeListener ev' target co) = listeners ev co.
Proof.
  intros Hne. unfold listeners, removeListener, table.
  destruct (Conn._events co) as [evs|] eqn:He; simpl; [|by rewrite He].
  destruct (evs !! ev') as [[g|l]|] eqn:Hs; simpl.
  - destruct (matches target g); simpl; [|by rewrite He].
    by rewrite lookup_delete_ne.
  - destruct (remove_last target l) as [l'|]; simpl; [|by rewrite He].
    destruct (length l =? 1)%nat; simpl.
    + by rewrite lookup_delete_ne.
    + by rewrite lookup_insert_ne.
  - by rewrite He.
Qed.

(** A closure of this module that was never registered unbound matches
    nothing that [bind] or [once] produced. *)
Lemma matches_Src_Bind c c' h : matches (Src c) (Bind c' h) = false.
Proof. reflexivity. Qed.

Lemma matches_Src_Once_Bind c ev c' h :
  matches (Src c) (OnceWrapper ev (Bind c' h)) = false.
Proof. reflexivity. Qed.

(** The test of [addConnectionListener], by what is registered. *)
Lemma may_attach_no_listener ev co : listeners ev co = [] → may_attach ev co = true.
Proof.
  unfold listeners, table, may_attach.
  destruct (Conn._events co) as [evs|]; simpl; [|done].
  destruct (evs !! ev) as [[g|l]|]; simpl; [done| by intros -> |done].
Qed.

End EventEmitterFacts.

(** ** What running listeners cannot change

    Listeners and the helpers around them only edit listener tables and
    settle promises: the handles, the driver's connection list, the requests
    made and every [readyState] stay as they are. *)

Lemma listener_frame_refl w : listener_frame w w.
Proof. by repeat split. Qed.

Lemma listener_frame_trans w1 w2 w3 :
  listener_frame w1 w2 → listener_frame w2 w3 → listener_frame w1 w3.
Proof.
  intros (?&?&?&?&?&Hr) (?&?&?&?&?&Hr'). repeat split; congruence.
Qed.

Lemma listener_frame_settle p s w : listener_frame w (settle p s w).
Proof.
  unfold settle. repeat case_match; try apply listener_frame_refl.
  repeat split. simpl. by rewrite length_insert.
Qed.

Lemma listener_frame_update_conn c f w :
  (∀ co, Conn.readyState (f co) = Conn.readyState co) →
  listener_frame w (update_conn c f w).
Proof.
  intros Hf. repeat split; [apply length_alter|]. intros c'. simpl.
  destruct (decide (c = c')) as [->|Hne].
  - rewrite list_lookup_alter_eq. destruct (heap w !! c'); simpl; [|done].
    by rewrite Hf.
  - by rewrite list_lookup_alter_ne.
Qed.

Lemma listener_frame_and_then w o k :
  listener_frame w o.1 →
  (∀ w1, listener_frame w w1 → listener_frame w (k w1).1) →
  listener_frame w (o >>> k).1.
Proof. destruct o as [w1 [e|]]; simpl; eauto. Qed.

Lemma listener_frame_is w w' h state :
  listener_frame w w' → is_ w' h state = is_ w h state.
Proof.
  intros (Hh & _ & _ & _ & _ & Hr). unfold is_, handle_connection, reports.
  rewrite Hh. destruct (handles w !! h ≫= _) as [c|]; [|done].
  specialize (Hr c).
  destruct (heap w' !! c), (heap w !! c); simpl in *; try done.
  by injection Hr as ->.
Qed.

Lemma listener_frame_handle_connection w w' h :
  listener_frame w w' → handle_connection w' h = handle_connection w h.
Proof. intros (Hh & _). unfold handle_connection. by rewrite Hh. Qed.

Lemma listener_frame_addConnectionListener h ev cb w :
  listener_frame w (addConnectionListener h ev cb w).1.
Proof.
  unfold addConnectionListener. repeat case_match; simpl;
    try apply listener_frame_refl;
    by apply listener_frame_update_conn.
Qed.

Lemma listener_frame_removeListeners h ev cb w :
  listener_frame w (removeListeners h ev cb w).1.
Proof.
  unfold removeListeners, forEach_removeListener.
  repeat case_match; simpl; try apply listener_frame_refl.
  apply listener_frame_update_conn. intros co.
  apply readyState_removeListener.
Qed.

Lemma listener_frame_this_removeListeners t ev cb w w0 :
  listener_frame w0 w → listener_frame w0 (this_removeListeners t ev cb w).1.
Proof.
  intros Hf. eapply listener_frame_trans; [exact Hf|].
  destruct t; simpl; [apply listener_frame_removeListeners|].
  apply listener_frame_refl.
Qed.

Lemma listener_frame_run_closure cl t arg w :
  listener_frame w (run_closure cl t arg w).1.
Proof.
  destruct cl; simpl; try apply listener_frame_settle;
    try apply listener_frame_refl;
    repeat (apply listener_frame_and_then;
            [|intros w1 Hw1; by apply listener_frame_this_removeListeners]);
    apply listener_frame_this_removeListeners, listener_frame_refl.
Qed.

Lemma listener_frame_invoke f c arg w : listener_frame w (invoke f c arg w).1.
Proof.
  revert w. induction f as [cl|cl h|ev g IH|id a]; intros w; simpl;
    try apply listener_frame_run_closure; try apply listener_frame_refl.
  eapply listener_frame_trans; [|apply IH].
  apply listener_frame_update_conn. intros co.
  apply readyState_removeListener.
Qed.

Lemma listener_frame_invoke_all l c arg w :
  listener_frame w (invoke_all l c arg w).1.
Proof.
  revert w. induction l as [|f r IH]; intros w; simpl.
  - apply listener_frame_refl.
  - apply listener_frame_and_then; [apply listener_frame_invoke|].
    intros w1 Hw1. eapply listener_frame_trans; [exact Hw1 | apply IH].
Qed.

Lemma listener_frame_emit c ev arg w : listener_frame w (emit c ev arg w).1.
Proof.
  unfold emit. destruct (listeners_of w c ev) as [|f r] eqn:Hl.
  - case_decide; apply listener_frame_refl.
  - apply listener_frame_invoke_all.
Qed.

(** ** [connect] when a connection has to be obtained *)

(** The world after a promise is settled or rejected by [new BB] differs
    from the executor's by promises only. *)
Lemma run_executor_frame ex w w0 :
  listener_frame w0 (ex (new_promise w).2 (new_promise w).1).1 →
  listener_frame w0 (run_executor ex w).1.
Proof.
  unfold run_executor. cbn [new_promise fst snd].
  destruct (ex _ _) as [w1 [e|]]; simpl; [|done].
  intros Hf. eapply listener_frame_trans; [exact Hf|].
  apply listener_frame_settle.
Qed.

Lemma connect_executor_initiates h p w :
  truthy (is_ w h "connected") = false →
  truthy (is_ w h "connecting") = false →
  connect_executor h p w = connect_initiate h p w.
Proof. intros H1 H2. unfold connect_executor. by rewrite H1, H2. Qed.

Lemma connect_initiate_frame h p w :
  listener_frame (obtain_connection h w) (connect_initiate h p w).1.
Proof.
  unfold connect_initiate.
  repeat (apply listener_frame_and_then;
          [|intros w1 Hw1; eapply listener_frame_trans; [exact Hw1|];
            apply listener_frame_addConnectionListener]).
  apply listener_frame_addConnectionListener.
Qed.

(** After [connect] obtained a connection, the world is the one of
    [obtain_connection] up to listener tables and promises. *)
Lemma connect_frame w h :
  truthy (is_ w h "connected") = false →
  truthy (is_ w h "connecting") = false →
  listener_frame (obtain_connection h (new_promise w).1) (connect w h).1.
Proof.
  intros H1 H2. unfold connect. apply run_executor_frame.
  rewrite connect_executor_initiates
    by (by rewrite (is_ext w (new_promise w).1)).
  apply connect_initiate_frame.
Qed.

Lemma default_slot_idle_iff w :
  default_slot_idle w = true ↔
  ∃ c0, connections w = [c0] ∧ reports w c0 "disconnected" = true.
Proof.
  unfold default_slot_idle, reports. simpl. split.
  - destruct (connections w) as [|c0 [|]]; try done.
    intros Hc. exists c0. split; [done|].
    by destruct (heap w !! c0).
  - intros (c0 & -> & Hr). by destruct (heap w !! c0).
Qed.

(** C5 (amended): when [connect] has to obtain a connection (the handle is
    neither connected nor connecting), it opens the driver's default
    connection through [mongoose.connect] and holds that object exactly when
    [mongoose.connections] has length one and its single connection has
    [readyState] 0, the code of the disconnected state; in every other case
    it calls [mongoose.createConnection] and holds the new, separate
    object. *)
Theorem connect_obtains_connection (w : world) (h : handle_ref) :
  h < length (handles w) →
  truthy (is_ w h "connected") = false →
  truthy (is_ w h "connecting") = false →
  let w' := (connect w h).1 in
  (default_slot_idle w = true ↔
     ∃ c0, connections w = [c0] ∧ reports w c0 "disconnected" = true) ∧
  (default_slot_idle w = true →
     calls w' = calls w ++ [CallConnect (handle_uri w h) (handle_options w h)] ∧
     handle_connection w' h = head (connections w) ∧
     connections w' = connections w ∧
     length (heap w') = length (heap w)) ∧
  (default_slot_idle w = false →
     calls w' = calls w
                ++ [CallCreateConnection (handle_uri w h) (handle_options w h)] ∧
     handle_connection w' h = Some (length (heap w)) ∧
     connections w' = connections w ++ [length (heap w)] ∧
     length (heap w') = S (length (heap w))).
Proof.
  intros Hh H1 H2. cbv zeta.
  destruct (connect_frame w h H1 H2) as (Fh & Fc & Fl & _ & Fp & _).
  pose proof (listener_frame_handle_connection _ _ h
                (connect_frame w h H1 H2)) as Fhc.
  destruct (lookup_lt_is_Some_2 _ _ Hh) as [hd Hhd].
  split; [apply default_slot_idle_iff|].
  rewrite Fl, Fhc, Fc, Fp. clear Fh Fc Fl Fp Fhc.
  unfold obtain_connection.
  change (default_slot_idle (new_promise w).1) with (default_slot_idle w).
  split; intros Hd; rewrite Hd.
  - rewrite handle_connection_assign, decide_True by done.
    unfold mongoose_connect. cbn [new_promise fst connections].
    apply default_slot_idle_iff in Hd as (c0 & Hc & _).
    simpl. rewrite !Hc. simpl. rewrite Hhd. simpl.
    split_and!; try done; try (by rewrite Hc).
    apply length_alter.
  - unfold createConnection.
    rewrite handle_connection_assign, decide_True by done. simpl.
    rewrite Hhd. simpl. split_and!; try done.
    rewrite length_app. simpl. lia.
Qed.

Lemma connect_obtains_connection_witness :
  calls (connect one_handle 0).1
  = [CallConnect (Some "mongodb://localhost/db") None] ∧
  handle_connection (connect one_handle 0).1 0 = Some 0 ∧
  calls (connect busy_default 0).1
  = [CallCreateConnection (Some "mongodb://localhost/db") None] ∧
  handle_connection (connect busy_default 0).1 0 = Some 1.
Proof.
  destruct (connect_obtains_connection one_handle 0) as (_ & Hd & _);
    [simpl; lia | reflexivity | reflexivity |].
  destruct (connect_obtains_connection busy_default 0) as (_ & _ & Hn);
    [simpl; lia | reflexivity | reflexivity |].
  destruct Hd as (Hd1 & Hd2 & _); [reflexivity|].
  destruct Hn as (Hn1 & Hn2 & _); [reflexivity|].
  split_and!; [exact Hd1 | exact Hd2 | exact Hn1 | exact Hn2].
Defined.

(** C5 as stated fails in both directions.  A lone default connection in the
    uninitialized state (code 99) is not reused: a new connection is
    created.  A lone default connection in the disconnected state (code 0),
    which is not the uninitialized state, is reused. *)
Lemma default_slot_not_keyed_on_uninitialized :
  (connections (default_only 99) = [0] ∧
   reports (default_only 99) 0 "uninitialized" = true ∧
   truthy (is_ (default_only 99) 0 "connected") = false ∧
   truthy (is_ (default_only 99) 0 "connecting") = false ∧
   calls (connect (default_only 99) 0).1
   = [CallCreateConnection (Some "mongodb://localhost/db") None] ∧
   handle_connection (connect (default_only 99) 0).1 0 = Some 1) ∧
  (connections (default_only 0) = [0] ∧
   reports (default_only 0) 0 "uninitialized" = false ∧
   calls (connect (default_only 0) 0).1
   = [CallConnect (Some "mongodb://localhost/db") None] ∧
   handle_connection (connect (default_only 0) 0).1 0 = Some 0).
Proof. by vm_compute. Qed.

(** ** A handle holding a connection object *)

Lemma holds_update_conn w h c co f :
  holds w h c co → holds (update_conn c f w) h c (f co).
Proof.
  intros [Hc Ho]. split; [done|]. simpl.
  by rewrite list_lookup_alter_eq, Ho.
Qed.

Lemma holds_settle w h c co p s :
  holds w h c co → holds (settle p s w) h c co.
Proof.
  intros [Hc Ho]. split.
  - by rewrite handle_connection_settle.
  - by rewrite heap_settle.
Qed.

Lemma holds_listeners_of w h c co ev :
  holds w h c co → listeners_of w c ev = EventEmitter.listeners ev co.
Proof. intros [_ Ho]. unfold listeners_of. by rewrite Ho. Qed.

(** Updating an object with a function that leaves it as it is changes
    nothing. *)
Lemma update_conn_id w c co f :
  heap w !! c = Some co → f co = co → update_conn c f w = w.
Proof.
  intros Ho Hf. unfold update_conn, set_heap. destruct w as [hp cs hs ps cl].
  simpl in *. f_equal. apply list_eq. intros i.
  destruct (decide (c = i)) as [<-|Hne].
  - rewrite list_lookup_alter_eq, Ho. simpl. by rewrite Hf.
  - by rewrite list_lookup_alter_ne.
Qed.

(** ** [addConnectionListener], by cases *)

Lemma addConnectionListener_held w h c co ev cb :
  holds w h c co →
  addConnectionListener h ev cb w
  = ret (if may_attach ev co
         then update_conn c (attach ev (Bind cb h)) w
         else w).
Proof.
  intros [Hc Ho]. unfold addConnectionListener, attach. rewrite Hc, Ho.
  destruct (may_attach ev co); [|done]. by case_decide.
Qed.

Lemma listeners_attach ev f co :
  EventEmitter.listeners ev (attach ev f co)
  = EventEmitter.listeners ev co
    ++ [if decide (ev = "error") then f else OnceWrapper ev f].
Proof.
  unfold attach, EventEmitter.once. case_decide; apply listeners_on.
Qed.

Lemma listeners_attach_ne ev ev' f co :
  ev ≠ ev' →
  EventEmitter.listeners ev (attach ev' f co) = EventEmitter.listeners ev co.
Proof.
  intros Hne. unfold attach, EventEmitter.once.
  case_decide; by apply listeners_on_ne.
Qed.

(** ** [removeListeners], by cases *)

Lemma removeListeners_no_connection w h ev cb :
  handle_connection w h = None → removeListeners h ev cb w = ret w.
Proof. intros Hc. unfold removeListeners. by rewrite Hc. Qed.

Lemma removeListeners_no_entry w h c co ev cb :
  holds w h c co → EventEmitter.table co !! ev = None →
  removeListeners h ev cb w = ret w.
Proof.
  intros [Hc Ho] Ht. unfold removeListeners. rewrite Hc, Ho.
  unfold EventEmitter.table in Ht.
  destruct (Conn._events co) as [evs|]; simpl in Ht; [|done].
  by rewrite Ht.
Qed.

Lemma removeListeners_single w h c co ev cb g :
  holds w h c co → EventEmitter.table co !! ev = Some (SFun g) →
  removeListeners h ev cb w
  = ret (update_conn c (EventEmitter.removeListener ev cb) w).
Proof.
  intros [Hc Ho] Ht. unfold removeListeners. rewrite Hc, Ho.
  unfold EventEmitter.table in Ht.
  destruct (Conn._events co) as [evs|]; simpl in Ht; [|done].
  by rewrite Ht.
Qed.

Lemma removeListener_no_match ev cb co g :
  EventEmitter.table co !! ev = Some (SFun g) →
  EventEmitter.matches cb g = false →
  EventEmitter.removeListener ev cb co = co.
Proof.
  unfold EventEmitter.table, EventEmitter.removeListener. intros Ht Hm.
  destruct (Conn._events co) as [evs|]; simpl in Ht; [|done].
  by rewrite Ht, Hm.
Qed.




(** ** [connect] attaches its three listeners *)

Lemma and_then_ret o : o >>> ret = o.
Proof. by destruct o as [w [e|]]. Qed.

Lemma matches_refl f : EventEmitter.matches f f = true.
Proof. unfold EventEmitter.matches. by rewrite bool_decide_eq_true_2. Qed.

Lemma obtain_connection_holds w h :
  h < length (handles w) → quiet_default w →
  ∃ c co, holds (obtain_connection h w) h c co ∧
          promises (obtain_connection h w) = promises w ∧
          ∀ ev, ev ∈ connect_events → EventEmitter.listeners ev co = [].
Proof.
  intros Hh Hq. destruct (lookup_lt_is_Some_2 _ _ Hh) as [hd Hhd].
  unfold obtain_connection. destruct (default_slot_idle w) eqn:Hd.
  - specialize (Hq Hd). unfold default_slot_idle in Hd.
    destruct (connections w) as [|c0 [|]] eqn:Hc; try done.
    destruct (heap w !! c0) as [co|] eqn:Ho; [|done].
    exists c0, (Conn.set_readyState 2 co). split_and!.
    + split.
      * rewrite handle_connection_assign, decide_True by done.
        unfold mongoose_connect. rewrite Hc. simpl. by rewrite Hhd, Hc.
      * unfold mongoose_connect. rewrite Hc. simpl.
        by rewrite list_lookup_alter_eq, Ho.
    + unfold mongoose_connect. by rewrite Hc.
    + intros ev Hev. rewrite listeners_set_readyState.
      specialize (Hq c0 ev eq_refl Hev). unfold listeners_of in Hq.
      by rewrite Ho in Hq.
  - exists (length (heap w)), (new_connection (handle_options w h)).
    unfold createConnection. split_and!; [split| |]; try done.
    + rewrite handle_connection_assign, decide_True by done. simpl.
      by rewrite Hhd.
    + simpl. apply lookup_snoc_length.
Qed.

Lemma connect_attaches w h :
  h < length (handles w) →
  truthy (is_ w h "connected") = false →
  truthy (is_ w h "connecting") = false →
  quiet_default w →
  let p := length (promises w) in
  ∃ w1 c co,
    connect w h = (w1, p) ∧ holds w1 h c co ∧
    promises w1 = promises w ++ [Pending] ∧
    EventEmitter.listeners "error" co = [Bind (onConnectionError p) h] ∧
    EventEmitter.listeners "open" co
    = [OnceWrapper "open" (Bind (onConnectionOpened p) h)] ∧
    EventEmitter.listeners "close" co
    = [OnceWrapper "close" (Bind (connect_cleanup p) h)].
Proof.
  intros Hh H1 H2 Hq p.
  destruct (obtain_connection_holds (new_promise w).1 h Hh Hq)
    as (c & co & Hho & Hps & Hqu).
  pose proof (Hqu "error" ltac:(set_solver)) as Qe.
  pose proof (Hqu "open" ltac:(set_solver)) as Qo.
  pose proof (Hqu "close" ltac:(set_solver)) as Qc.
  unfold connect, run_executor. cbn [new_promise]. fold p.
  rewrite connect_executor_initiates
    by (by rewrite (is_ext w (set_promises _ w))).
  unfold connect_initiate.
  change (set_promises (promises w ++ [Pending]) w) with (new_promise w).1.
  rewrite (addConnectionListener_held _ _ _ _ "error" _ Hho).
  rewrite (may_attach_no_listener _ _ Qe). cbn [ret and_then].
  eapply (holds_update_conn _ _ _ _ (attach "error" _)) in Hho.
  rewrite (addConnectionListener_held _ _ _ _ "open" _ Hho).
  rewrite may_attach_no_listener
    by (rewrite listeners_attach_ne by done; exact Qo). cbn [ret and_then].
  eapply (holds_update_conn _ _ _ _ (attach "open" _)) in Hho.
  rewrite (addConnectionListener_held _ _ _ _ "close" _ Hho).
  rewrite may_attach_no_listener
    by (rewrite !listeners_attach_ne by done; exact Qc). cbn [ret and_then].
  eapply (holds_update_conn _ _ _ _ (attach "close" _)) in Hho.
  do 3 eexists. split_and!; [reflexivity | exact Hho | exact Hps | | |].
  - rewrite !listeners_attach_ne by done. by rewrite listeners_attach, Qe.
  - rewrite listeners_attach_ne by done. rewrite listeners_attach.
    rewrite listeners_attach_ne by done. by rewrite Qo.
  - rewrite listeners_attach. rewrite !listeners_attach_ne by done.
    by rewrite Qc.
Qed.

(** ** Listeners firing *)

Lemma emit_single w c ev arg f :
  listeners_of w c ev = [f] → emit c ev arg w = invoke f c arg w.
Proof. intros Hl. unfold emit. rewrite Hl. simpl. apply and_then_ret. Qed.

(** The one-shot open listener: it detaches itself and resolves with the
    connection the handle holds. *)
Lemma open_fires w h c co p arg :
  holds w h c co →
  EventEmitter.listeners "open" co
  = [OnceWrapper "open" (Bind (onConnectionOpened p) h)] →
  emit c "open" arg w
  = ret (resolve p (VConnection (Some c))
           (update_conn c
              (EventEmitter.removeListener "open"
                 (OnceWrapper "open" (Bind (onConnectionOpened p) h))) w)).
Proof.
  intros Hh Hl. rewrite (emit_single _ _ _ _ _
    (eq_trans (holds_listeners_of _ _ _ _ _ Hh) Hl)).
  simpl. unfold ret. do 3 f_equal. apply Hh.
Qed.

(** The persistent error listener rejects with the emitted value. *)
Lemma error_fires w h c co (cl : promise_ref → closure) p arg :
  cl = onConnectionError ∨ cl = onDisconnectionError →
  holds w h c co →
  EventEmitter.listeners "error" co = [Bind (cl p) h] →
  emit c "error" arg w = ret (reject p arg w).
Proof.
  intros Hcl Hh Hl. rewrite (emit_single _ _ _ _ _
    (eq_trans (holds_listeners_of _ _ _ _ _ Hh) Hl)).
  by destruct Hcl as [-> | ->].
Qed.

(** C2 (amended): for a [connect] attempt that obtains a connection without
    earlier listeners for its events, the attempt registers one error, one
    open and one close listener.  When open fires, the promise resolves with
    the connection the handle holds and only the one-shot open listener is
    gone, having detached itself.  When error fires, the promise rejects
    with the very value emitted and no listener is detached.  Neither
    handler tears anything down: the error and close listeners of the
    attempt stay attached after the promise has settled. *)
Theorem connect_settles_without_teardown
    (w : world) (h : handle_ref) (e : option error) :
  h < length (handles w) →
  truthy (is_ w h "connected") = false →
  truthy (is_ w h "connecting") = false →
  quiet_default w →
  let w1 := (connect w h).1 in
  let p := (connect w h).2 in
  ∃ c, handle_connection w1 h = Some c ∧
       promises w1 !! p = Some Pending ∧
       listeners_of w1 c "error" = [Bind (onConnectionError p) h] ∧
       listeners_of w1 c "open"
       = [OnceWrapper "open" (Bind (onConnectionOpened p) h)] ∧
       listeners_of w1 c "close"
       = [OnceWrapper "close" (Bind (connect_cleanup p) h)] ∧
       (let o := emit c "open" None w1 in
        o.2 = None ∧
        promises o.1 !! p = Some (Resolved (VConnection (Some c))) ∧
        listeners_of o.1 c "open" = [] ∧
        listeners_of o.1 c "error" = listeners_of w1 c "error" ∧
        listeners_of o.1 c "close" = listeners_of w1 c "close") ∧
       (let o := emit c "error" e w1 in
        o.2 = None ∧
        promises o.1 !! p = Some (Rejected e) ∧
        ∀ ev, listeners_of o.1 c ev = listeners_of w1 c ev).
Proof.
  intros Hh H1 H2 Hq.
  destruct (connect_attaches w h Hh H1 H2 Hq)
    as (w1 & c & co & -> & Hho & Hps & Le & Lo & Lc).
  cbv zeta. cbn [fst snd].
  assert (promises w1 !! length (promises w) = Some Pending) as Hp
    by (rewrite Hps; apply lookup_snoc_length).
  exists c. rewrite !(holds_listeners_of _ _ _ _ _ Hho).
  split_and!; try done; try apply Hho.
  - by rewrite (open_fires _ _ _ _ _ _ Hho Lo).
  - rewrite (open_fires _ _ _ _ _ _ Hho Lo). simpl.
    by apply settle_pending.
  - rewrite (open_fires _ _ _ _ _ _ Hho Lo). simpl.
    erewrite holds_listeners_of
      by (apply holds_settle, holds_update_conn, Hho).
    by rewrite listeners_removeListener, Lo, remove_last_singleton, matches_refl.
  - rewrite (open_fires _ _ _ _ _ _ Hho Lo). simpl.
    erewrite holds_listeners_of
      by (apply holds_settle, holds_update_conn, Hho).
    by rewrite listeners_removeListener_ne.
  - rewrite (open_fires _ _ _ _ _ _ Hho Lo). simpl.
    erewrite holds_listeners_of
      by (apply holds_settle, holds_update_conn, Hho).
    by rewrite listeners_removeListener_ne.
  - by rewrite (error_fires _ _ _ _ onConnectionError _ _ (or_introl eq_refl) Hho Le).
  - rewrite (error_fires _ _ _ _ onConnectionError _ _ (or_introl eq_refl) Hho Le).
    simpl. by apply settle_pending.
  - intros ev.
    rewrite (error_fires _ _ _ _ onConnectionError _ _ (or_introl eq_refl) Hho Le).
    simpl. unfold listeners_of, reject. by rewrite heap_settle.
Qed.

Lemma quiet_default_one_handle : quiet_default one_handle.
Proof.
  intros _ c0 ev [= <-] _.
  change (listeners_of one_handle 0 ev)
    with (EventEmitter.listeners ev (blank_connection 0)).
  unfold EventEmitter.listeners.
  change (EventEmitter.table (blank_connection 0)) with (∅ : gmap string slot).
  by rewrite lookup_empty.
Qed.

Lemma connect_settles_without_teardown_witness :
  ∃ c, handle_connection (connect one_handle 0).1 0 = Some c ∧
       promises (emit c "open" None (connect one_handle 0).1).1 !! 0
       = Some (Resolved (VConnection (Some c))) ∧
       promises (emit c "error" (Some (Err 5)) (connect one_handle 0).1).1 !! 0
       = Some (Rejected (Some (Err 5))).
Proof.
  destruct (connect_settles_without_teardown one_handle 0 (Some (Err 5)))
    as (c & Hc & _ & _ & _ & _ & (_ & Ho & _) & (_ & He & _)).
  - simpl. lia.
  - reflexivity.
  - reflexivity.
  - exact quiet_default_one_handle.
  - exists c. split_and!; [exact Hc | exact Ho | exact He].
Defined.

(** C2 as stated fails: after the open event settled the promise of the
    first [connect] of a process, the error and close listeners of that
    attempt are still attached; after an error event all three are. *)
Lemma connect_listeners_remain :
  (promises (emit 0 "open" None connecting_world).1 !! 0
   = Some (Resolved (VConnection (Some 0))) ∧
   listeners_of (emit 0 "open" None connecting_world).1 0 "error"
   = [Bind (onConnectionError 0) 0] ∧
   listeners_of (emit 0 "open" None connecting_world).1 0 "close"
   = [OnceWrapper "close" (Bind (connect_cleanup 0) 0)]) ∧
  (promises (emit 0 "error" (Some (Err 5)) connecting_world).1 !! 0
   = Some (Rejected (Some (Err 5))) ∧
   listeners_of (emit 0 "error" (Some (Err 5)) connecting_world).1 0 "error"
   = [Bind (onConnectionError 0) 0] ∧
   listeners_of (emit 0 "error" (Some (Err 5)) connecting_world).1 0 "open"
   = [OnceWrapper "open" (Bind (onConnectionOpened 0) 0)] ∧
   listeners_of (emit 0 "error" (Some (Err 5)) connecting_world).1 0 "close"
   = [OnceWrapper "close" (Bind (connect_cleanup 0) 0)]).
Proof. by vm_compute. Qed.

(** ** [addConnectionListener] and an existing listener *)

Lemma may_attach_single ev co f :
  EventEmitter.table co !! ev = Some (SFun f) →
  may_attach ev co = (fn_length f =? 0)%nat.
Proof.
  unfold EventEmitter.table, may_attach.
  destruct (Conn._events co) as [evs|]; simpl; [by intros ->|].
  by rewrite lookup_empty.
Qed.

(** C3, where the code departs from it: when the event already has exactly
    one listener and that listener declares no parameter (as every wrapper
    installed by [once] does), the test [listeners[ev].length === 0] reads
    the function's arity, succeeds, and a second listener is attached.  So
    [disconnect], called while the [connect] of the same handle is in flight
    or after it has resolved, leaves two close listeners. *)
Theorem addConnectionListener_duplicates
    (w : world) (h : handle_ref) (c : conn_ref) (co : Conn.t)
    (ev : string) (cb : closure) (f : fn) :
  holds w h c co →
  EventEmitter.table co !! ev = Some (SFun f) →
  fn_length f = 0 →
  listeners_of w c ev = [f] ∧
  listeners_of (addConnectionListener h ev cb w).1 c ev
  = [f; if decide (ev = "error") then Bind cb h
        else OnceWrapper ev (Bind cb h)].
Proof.
  intros Hho Ht Hlen.
  assert (EventEmitter.listeners ev co = [f]) as Hl
    by (unfold EventEmitter.listeners; by rewrite Ht).
  split; [by rewrite (holds_listeners_of _ _ _ _ _ Hho)|].
  rewrite (addConnectionListener_held _ _ _ _ _ _ Hho).
  rewrite (may_attach_single _ _ _ Ht), Hlen. simpl.
  erewrite holds_listeners_of by (apply holds_update_conn, Hho).
  by rewrite listeners_attach, Hl.
Qed.

Lemma addConnectionListener_duplicates_witness :
  listeners_of connected_world 0 "close"
  = [OnceWrapper "close" (Bind (connect_cleanup 0) 0)] ∧
  listeners_of
    (addConnectionListener 0 "close" (disconnect_cleanup 1) connected_world).1
    0 "close"
  = [OnceWrapper "close" (Bind (connect_cleanup 0) 0);
     OnceWrapper "close" (Bind (disconnect_cleanup 1) 0)] ∧
  listeners_of (disconnect connected_world 0).1 0 "close"
  = [OnceWrapper "close" (Bind (connect_cleanup 0) 0);
     OnceWrapper "close" (Bind (disconnect_cleanup 1) 0)] ∧
  listeners_of (disconnect connecting_world 0).1 0 "close"
  = [OnceWrapper "close" (Bind (connect_cleanup 0) 0);
     OnceWrapper "close" (Bind (disconnect_cleanup 1) 0)].
Proof.
  pose proof (λ co, addConnectionListener_duplicates connected_world 0 0 co
                      "close" (disconnect_cleanup 1)) as Hd.
  edestruct Hd as [H1 H2].
  - split; [reflexivity | vm_compute; reflexivity].
  - vm_compute. reflexivity.
  - reflexivity.
  - split_and!; [exact H1 | exact H2 | by vm_compute | by vm_compute].
Defined.

(** ** Who settles a promise *)

Lemma promises_addConnectionListener h ev cb w :
  promises (addConnectionListener h ev cb w).1 = promises w.
Proof. unfold addConnectionListener. by repeat case_match. Qed.

Lemma promises_removeListeners h ev cb w :
  promises (removeListeners h ev cb w).1 = promises w.
Proof.
  unfold removeListeners, forEach_removeListener. by repeat case_match.
Qed.

Lemma promises_this_removeListeners t ev cb w :
  promises (this_removeListeners t ev cb w).1 = promises w.
Proof. destruct t; [apply promises_removeListeners | done]. Qed.

Lemma promises_and_then o k ps :
  promises o.1 = ps → (∀ w, promises w = ps → promises (k w).1 = ps) →
  promises (o >>> k).1 = ps.
Proof. destruct o as [w [e|]]; simpl; eauto. Qed.

(** The cleanup closures settle nothing. *)
Lemma promises_cleanup cl t arg w :
  (∃ p, cl = connect_cleanup p ∨ cl = disconnect_cleanup p) →
  promises (run_closure cl t arg w).1 = promises w.
Proof.
  intros [p [-> | ->]]; simpl;
    repeat (apply promises_and_then;
            [|intros w1 <-; apply promises_this_removeListeners]);
    apply promises_this_removeListeners.
Qed.

Lemma promises_obtain_connection h w :
  promises (obtain_connection h w) = promises w.
Proof.
  unfold obtain_connection, mongoose_connect, createConnection.
  by repeat case_match.
Qed.

Lemma promises_connect_initiate h p w :
  promises (connect_initiate h p w).1 = promises w.
Proof.
  unfold connect_initiate.
  repeat (apply promises_and_then;
          [|intros w1 <-; apply promises_addConnectionListener]).
  rewrite promises_addConnectionListener. apply promises_obtain_connection.
Qed.

Lemma promises_disconnect_initiate h p w :
  promises (disconnect_initiate h p w).1 = promises w.
Proof.
  unfold disconnect_initiate.
  apply promises_and_then;
    [|intros w1 <-; unfold Connection_close; by case_match].
  repeat (apply promises_and_then;
          [|intros w1 <-; apply promises_addConnectionListener]).
  apply promises_addConnectionListener.
Qed.

(** An executor that settles nothing leaves the new promise pending, or
    rejected if it threw: never resolved. *)
Lemma run_executor_unresolved ex w v :
  promises (ex (new_promise w).2 (new_promise w).1).1
  = promises (new_promise w).1 →
  promises (run_executor ex w).1 !! (run_executor ex w).2
  ≠ Some (Resolved v).
Proof.
  unfold run_executor. cbn [new_promise fst snd].
  destruct (ex _ _) as [w1 [e|]]; cbn [fst snd]; intros Hps; simpl in Hps.
  - unfold reject. rewrite settle_pending; [done|].
    rewrite Hps. apply lookup_snoc_length.
  - rewrite Hps, lookup_snoc_length. done.
Qed.

(** [connect] resolves its own promise only on the already-connected path. *)
Lemma connect_resolved_inv w h v :
  promises (connect w h).1 !! (connect w h).2 = Some (Resolved v) →
  truthy (is_ w h "connected") = true.
Proof.
  destruct (truthy (is_ w h "connected")) eqn:H1; [done|].
  intros Hp. exfalso. revert Hp. apply run_executor_unresolved.
  unfold connect_executor.
  rewrite !(is_ext w (new_promise w).1) by done. rewrite H1.
  destruct (truthy (is_ w h "connecting")); [done|].
  apply promises_connect_initiate.
Qed.

(** [disconnect] resolves its own promise only on the already-disconnected
    path; the other path hands the promise to the close callback. *)
Lemma disconnect_resolved_inv w h v :
  promises (disconnect w h).1 !! (disconnect w h).2 = Some (Resolved v) →
  truthy (is_ w h "disconnected") || truthy (is_ w h "uninitialized") = true.
Proof.
  destruct (_ || _) eqn:H1; [done|].
  intros Hp. exfalso. revert Hp. apply run_executor_unresolved.
  unfold disconnect_executor.
  rewrite !(is_ext w (new_promise w).1) by done. rewrite H1.
  destruct (truthy (is_ w h "disconnecting")); [done|].
  apply promises_disconnect_initiate.
Qed.

(** The close callback resolves only if its cleanup did not throw, and then
    with the stored URI, after clearing the connection reference. *)
Lemma close_callback_resolved w h p v :
  promises w !! p = Some Pending →
  promises (close_callback h p w).1 !! p = Some (Resolved v) →
  (close_callback h p w).2 = None ∧
  v = VUri (handle_uri w h) ∧
  handle_connection (close_callback h p w).1 h = None.
Proof.
  intros Hp. unfold close_callback.
  pose proof (promises_cleanup (disconnect_cleanup p) (ThisHandle h) None w
                (ex_intro _ p (or_intror eq_refl))) as Hps.
  pose proof (listener_frame_run_closure (disconnect_cleanup p)
                (ThisHandle h) None w) as Hf.
  destruct (run_closure _ _ _ w) as [w1 [e|]]; cbn [and_then fst snd] in *.
  - rewrite Hps, Hp. done.
  - unfold ret, resolve. cbn [fst snd].
    rewrite settle_pending by (simpl; by rewrite Hps).
    rewrite handle_connection_settle, handle_connection_assign_None.
    rewrite handle_uri_assign. intros [= <-]. split_and!; try done.
    unfold handle_uri. by destruct Hf as (-> & _).
Qed.

(** ** The state a handle reports once a promise has resolved *)

Lemma driver_opened_state w h c co :
  holds w h c co →
  is_ (driver_opened c w).1 h "connected" = JSBool true ∧
  is_ (driver_opened c w).1 h "disconnected" = JSBool false.
Proof.
  intros Hho. unfold driver_opened.
  rewrite !(listener_frame_is _ _ _ _ (listener_frame_emit _ _ _ _)).
  apply (holds_update_conn _ _ _ _ (Conn.set_readyState 1)) in Hho.
  destruct Hho as [Hc Ho]. apply (is_connected_intro _ _ c Hc).
  unfold reports. by rewrite Ho.
Qed.

Lemma connect_then_opened w h :
  h < length (handles w) →
  truthy (is_ w h "connected") = false →
  truthy (is_ w h "connecting") = false →
  quiet_default w →
  ∃ c co, holds (connect w h).1 h c co ∧
          (driver_opened c (connect w h).1).2 = None ∧
          promises (driver_opened c (connect w h).1).1 !! (connect w h).2
          = Some (Resolved (VConnection (Some c))).
Proof.
  intros Hh H1 H2 Hq.
  destruct (connect_attaches w h Hh H1 H2 Hq)
    as (w1 & c & co & -> & Hho & Hps & _ & Lo & _).
  cbn [fst snd]. exists c, co. split; [done|].
  unfold driver_opened.
  pose proof (holds_update_conn _ _ _ _ (Conn.set_readyState 1) Hho) as Hho'.
  rewrite (open_fires _ _ _ _ _ _ Hho' Lo). split; [done|]. simpl.
  apply settle_pending. simpl. rewrite Hps. apply lookup_snoc_length.
Qed.

(** ** [uri] and [options] are written by the constructor only *)

Lemma static_fields_refl w : static_fields w w.
Proof. by intros h Hh. Qed.

Lemma static_fields_trans w1 w2 w3 :
  static_fields w1 w2 → static_fields w2 w3 → static_fields w1 w3.
Proof.
  intros H12 H23 h Hh. destruct (H12 h Hh) as (Hh2 & Hu & Ho).
  destruct (H23 h Hh2) as (Hh3 & Hu' & Ho'). repeat split; congruence.
Qed.

Lemma static_fields_handles w w' :
  handles w' = handles w → static_fields w w'.
Proof.
  intros He h Hh. unfold handle_uri, handle_options. by rewrite He.
Qed.

Lemma static_fields_listener_frame w w' :
  listener_frame w w' → static_fields w w'.
Proof. intros (He & _). by apply static_fields_handles. Qed.

Lemma static_fields_assign h c w : static_fields w (assign_connection h c w).
Proof.
  intros h' Hh'. rewrite handle_uri_assign, handle_options_assign.
  split; [|done]. simpl. by rewrite length_alter.
Qed.

Lemma static_fields_and_then w o k :
  static_fields w o.1 →
  (∀ w1, static_fields w1 (k w1).1) →
  static_fields w (o >>> k).1.
Proof.
  destruct o as [w1 [e|]]; simpl; [done|].
  intros H1 Hk. eapply static_fields_trans; eauto.
Qed.

Lemma static_fields_obtain_connection h w :
  static_fields w (obtain_connection h w).
Proof.
  unfold obtain_connection. case_match.
  - eapply static_fields_trans; [|apply static_fields_assign].
    apply static_fields_handles. unfold mongoose_connect. by case_match.
  - eapply static_fields_trans; [|apply static_fields_assign].
    by apply static_fields_handles.
Qed.

Lemma static_fields_run_executor ex w :
  (∀ p w0, static_fields w0 (ex p w0).1) →
  static_fields w (run_executor ex w).1.
Proof.
  intros Hex. unfold run_executor. cbn [new_promise].
  specialize (Hex (length (promises w)) (set_promises (promises w ++ [Pending]) w)).
  destruct (ex _ _) as [w1 [e|]]; cbn [fst] in *.
  - eapply static_fields_trans; [exact Hex|].
    apply static_fields_handles, handles_settle.
  - exact Hex.
Qed.

Lemma static_fields_connect w h : static_fields w (connect w h).1.
Proof.
  apply static_fields_run_executor. intros p w0. unfold connect_executor.
  repeat case_match; simpl.
  - apply static_fields_handles, handles_settle.
  - apply static_fields_refl.
  - eapply static_fields_trans; [apply (static_fields_obtain_connection h)|].
    apply static_fields_listener_frame, connect_initiate_frame.
Qed.

Lemma static_fields_disconnect w h : static_fields w (disconnect w h).1.
Proof.
  apply static_fields_run_executor. intros p w0. unfold disconnect_executor.
  repeat case_match; simpl.
  - eapply static_fields_trans; [apply (static_fields_assign h None)|].
    apply static_fields_handles, handles_settle.
  - apply static_fields_refl.
  - unfold disconnect_initiate.
    apply static_fields_and_then;
      [|intros w1; case_match; by apply static_fields_handles].
    apply static_fields_listener_frame.
    repeat (apply listener_frame_and_then;
            [|intros w1 Hw1; eapply listener_frame_trans; [exact Hw1|];
              apply listener_frame_addConnectionListener]).
    apply listener_frame_addConnectionListener.
Qed.

Lemma static_fields_close_callback h p w :
  static_fields w (close_callback h p w).1.
Proof.
  unfold close_callback. apply static_fields_and_then.
  - apply static_fields_listener_frame, listener_frame_run_closure.
  - intros w1. simpl.
    eapply static_fields_trans; [apply (static_fields_assign h None)|].
    apply static_fields_handles, handles_settle.
Qed.

Lemma static_fields_Mongootils `{UriCodec} a0 a1 w :
  static_fields w (Mongootils a0 a1 w).1.
Proof.
  intros h Hh. unfold handle_uri, handle_options.
  destruct a0; simpl; rewrite length_app, lookup_app_l by done;
    (split; [lia | done]).
Qed.

Lemma static_fields_perform `{UriCodec} a w : static_fields w (perform a w).
Proof.
  destruct a; simpl; try apply static_fields_refl.
  - apply static_fields_connect.
  - apply static_fields_disconnect.
  - apply static_fields_Mongootils.
  - apply static_fields_listener_frame, listener_frame_emit.
  - by apply static_fields_handles.
  - apply static_fields_close_callback.
Qed.

Lemma static_fields_run `{UriCodec} acts w : static_fields w (run acts w).
Proof.
  revert w. induction acts as [|a rest IH]; intros w; simpl.
  - apply static_fields_refl.
  - eapply static_fields_trans; [apply static_fields_perform | apply IH].
Qed.

(** What the constructor stores. *)
Lemma Mongootils_stores `{UriCodec} a0 a1 w :
  let w0 := (Mongootils a0 a1 w).1 in
  let h := (Mongootils a0 a1 w).2 in
  h < length (handles w0) ∧
  match a0 with
  | ArgUri u => handle_uri w0 h = u ∧ handle_options w0 h = a1 ∧
                handle_connection w0 h = None
  | ArgConnection c =>
      handle_uri w0 h = getConnectionURI w0 h ∧
      handle_options w0 h = (co ← heap w !! c; Conn.options co) ∧
      handle_connection w0 h = Some c
  end.
Proof.
  unfold handle_uri, handle_options, handle_connection, getConnectionURI,
    handle_connection.
  destruct a0; simpl; rewrite length_app, !lookup_snoc_length; simpl;
    (split; [lia |]); [|done].
  unfold getConnectionURI, handle_connection. simpl.
  by rewrite lookup_snoc_length.
Qed.

(** C10: the constructor stores [uri] and [options]; after that, whatever
    happens (calls of [connect], [disconnect], [is], [getConnection] and
    [getConnectionURI] on any handle, further handles being built, the
    driver emitting events, changing states or completing a close), the
    handle's [uri] and [options] are the stored ones, and whenever
    [disconnect] resolves, at once or through its close callback, it
    resolves with exactly that [uri]. *)
Theorem uri_and_options_written_once `{UriCodec}
    (a0 : ctor_arg) (a1 : option opts) (w : world) (acts : list action) :
  let w0 := (Mongootils a0 a1 w).1 in
  let h := (Mongootils a0 a1 w).2 in
  let w1 := run acts w0 in
  (∀ u, a0 = ArgUri u → handle_uri w0 h = u ∧ handle_options w0 h = a1) ∧
  handle_uri w1 h = handle_uri w0 h ∧
  handle_options w1 h = handle_options w0 h ∧
  (∀ v, promises (disconnect w1 h).1 !! (disconnect w1 h).2 = Some (Resolved v) →
        v = VUri (handle_uri w0 h)) ∧
  (∀ p v, promises w1 !! p = Some Pending →
          promises (close_callback h p w1).1 !! p = Some (Resolved v) →
          v = VUri (handle_uri w0 h)).
Proof.
  cbv zeta.
  destruct (Mongootils_stores a0 a1 w) as [Hh Hst].
  destruct (static_fields_run acts _ _ Hh) as (_ & Hu & Ho).
  split_and!; try done.
  - intros u ->. by destruct Hst as (? & ? & _).
  - intros v Hv. pose proof (disconnect_resolved_inv _ _ _ Hv) as Hd.
    rewrite (disconnect_noop_path _ _ Hd) in Hv. cbn [fst snd] in Hv.
    change (length (promises (run acts (Mongootils a0 a1 w).1)))
      with (length (promises (assign_connection (Mongootils a0 a1 w).2 None
                                (run acts (Mongootils a0 a1 w).1)))) in Hv.
    simpl in Hv. rewrite lookup_snoc_length in Hv.
    injection Hv as <-. by rewrite Hu.
  - intros p v Hp Hv.
    destruct (close_callback_resolved _ _ _ _ Hp Hv) as (_ & -> & _).
    by rewrite Hu.
Qed.

Lemma uri_and_options_written_once_witness :
  handle_uri
    (run (H := sample_codec)
       [DoConnect 0; DriverSets 0 1; DriverEmits 0 "open" None;
        DoIs 0 "connected"; DoGetConnectionURI 0; DoDisconnect 0;
        DriverSets 0 0; DriverEmits 0 "close" None; DoDisconnect 0]
       one_handle) 0
  = Some "mongodb://localhost/db".
Proof.
  pose proof (uri_and_options_written_once (H := sample_codec)
                (ArgUri (Some "mongodb://localhost/db")) None
                (mkWorld [blank_connection 0] [0] [] [] [])
                [DoConnect 0; DriverSets 0 1; DriverEmits 0 "open" None;
                 DoIs 0 "connected"; DoGetConnectionURI 0; DoDisconnect 0;
                 DriverSets 0 0; DriverEmits 0 "close" None; DoDisconnect 0])
    as (Hs & Hu & _).
  destruct (Hs _ eq_refl) as [Hs1 _].
  exact (eq_trans Hu Hs1).
Defined.


(** * The rest of the module *)

(** ** The constructor and what a new handle reports *)

Lemma Mongootils_frame `{UriCodec} a0 a1 w :
  heap (Mongootils a0 a1 w).1 = heap w ∧
  connections (Mongootils a0 a1 w).1 = connections w ∧
  promises (Mongootils a0 a1 w).1 = promises w ∧
  calls (Mongootils a0 a1 w).1 = calls w ∧
  (Mongootils a0 a1 w).2 = length (handles w) ∧
  ∀ h', h' < length (handles w) →
        handles (Mongootils a0 a1 w).1 !! h' = handles w !! h'.
Proof.
  destruct a0; simpl; split_and!; try done;
    intros h' Hh'; by rewrite lookup_app_l.
Qed.

(** X1: a handle built from a URI holds no connection: [getConnection] and
    [getConnectionURI] are [undefined], [is] is [true] for ['disconnected']
    and ['uninitialized'] and [undefined] for every other state name, and
    [disconnect] resolves at once with the very URI given, without a request
    to the driver.  Building the handle touches nothing else. *)
Theorem handle_from_uri `{UriCodec}
    (u : option string) (o : option opts) (w : world) :
  let w0 := (Mongootils (ArgUri u) o w).1 in
  let h := (Mongootils (ArgUri u) o w).2 in
  getConnection w0 h = None ∧
  getConnectionURI w0 h = None ∧
  (∀ state, is_ w0 h state
            = if decide (state = "disconnected" ∨ state = "uninitialized")
              then JSBool true else JSUndefined) ∧
  promises (disconnect w0 h).1 !! (disconnect w0 h).2
  = Some (Resolved (VUri u)) ∧
  calls (disconnect w0 h).1 = calls w ∧
  heap w0 = heap w ∧ connections w0 = connections w ∧
  promises w0 = promises w ∧ calls w0 = calls w ∧
  (∀ h', h' < length (handles w) → handles w0 !! h' = handles w !! h').
Proof.
  cbv zeta.
  destruct (Mongootils_stores (ArgUri u) o w) as (_ & Hu & _ & Hc).
  destruct (Mongootils_frame (ArgUri u) o w) as (Fh & Fc & Fp & Fl & _ & Fo).
  assert (∀ state, is_ (Mongootils (ArgUri u) o w).1 (Mongootils (ArgUri u) o w).2
                     state
                   = if decide (state = "disconnected" ∨ state = "uninitialized")
                     then JSBool true else JSUndefined) as His.
  { intros state. unfold is_. by rewrite Hc. }
  split_and!; try done.
  - unfold getConnectionURI. by rewrite Hc.
  - rewrite disconnect_noop_path by (by rewrite (His "disconnected")).
    cbn [fst snd]. change (promises ?x) with (promises x).
    rewrite Hu. apply lookup_snoc_length.
  - rewrite disconnect_noop_path by (by rewrite (His "disconnected")).
    exact Fl.
Qed.

(** X2: a handle built from a connection object holds that object; its
    [uri] is the rendering of the object's fields, so [getConnectionURI]
    returns the stored [uri]; its [options] are the object's, whatever
    second argument was passed; and [is(state)] is, for every state name,
    the boolean "the object reports that state".  Building the handle
    touches nothing else. *)
Theorem handle_from_connection `{UriCodec}
    (c : conn_ref) (a1 : option opts) (w : world) (co : Conn.t) :
  heap w !! c = Some co →
  let w0 := (Mongootils (ArgConnection c) a1 w).1 in
  let h := (Mongootils (ArgConnection c) a1 w).2 in
  getConnection w0 h = Some c ∧
  handle_uri w0 h = Some (formatMongoose (format (uriObject_of co))) ∧
  getConnectionURI w0 h = handle_uri w0 h ∧
  handle_options w0 h = Conn.options co ∧
  (∀ state, is_ w0 h state = JSBool (reports w c state)) ∧
  heap w0 = heap w ∧ connections w0 = connections w ∧
  promises w0 = promises w ∧ calls w0 = calls w ∧
  (∀ h', h' < length (handles w) → handles w0 !! h' = handles w !! h').
Proof.
  intros Ho. cbv zeta.
  destruct (Mongootils_stores (ArgConnection c) a1 w) as (_ & Hu & Hop & Hc).
  destruct (Mongootils_frame (ArgConnection c) a1 w)
    as (Fh & Fc & Fp & Fl & _ & Fo).
  assert (getConnectionURI (Mongootils (ArgConnection c) a1 w).1
            (Mongootils (ArgConnection c) a1 w).2
          = Some (formatMongoose (format (uriObject_of co)))) as Hg.
  { unfold getConnectionURI. by rewrite Hc, Fh, Ho. }
  split_and!; try done; try (by rewrite ?Hu, ?Hg).
  - by rewrite Hop, Ho.
  - intros state. unfold is_. rewrite Hc. unfold reports. rewrite Fh.
    by case_decide.
Qed.

Lemma handle_from_connection_witness :
  getConnection wrapped_open 0 = Some 0 ∧
  handle_uri wrapped_open 0 = Some "mongodb://db" ∧
  is_ wrapped_open 0 "connected" = JSBool true ∧
  is_ wrapped_open 0 "disconnected" = JSBool false.
Proof.
  destruct (handle_from_connection (H := sample_codec) 0 None
              (lone_connection 1) (blank_connection 1) eq_refl)
    as (Hg & Hu & _ & _ & His & _).
  split_and!; [exact Hg | exact Hu | exact (His "connected")
              | exact (His "disconnected")].
Defined.

(** X3: wrapping a connection object that is already connected and calling
    [connect] resolves at once with that object: the world changes by the
    new handle and the resolved promise only (no request, no listener). *)
Theorem wrap_connected_then_connect `{UriCodec}
    (c : conn_ref) (a1 : option opts) (w : world) (co : Conn.t) :
  heap w !! c = Some co →
  Conn.readyState co = 1%Z →
  let w0 := (Mongootils (ArgConnection c) a1 w).1 in
  let h := (Mongootils (ArgConnection c) a1 w).2 in
  connect w0 h
  = (set_promises (promises w ++ [Resolved (VConnection (Some c))]) w0,
     length (promises w)).
Proof.
  intros Ho Hrs. cbv zeta.
  destruct (Mongootils_stores (ArgConnection c) a1 w) as (_ & _ & _ & Hc).
  destruct (Mongootils_frame (ArgConnection c) a1 w) as (Fh & _ & Fp & _).
  rewrite connect_connected_path.
  - by rewrite Hc, Fp.
  - unfold is_. rewrite Hc. simpl. unfold reports. simpl. rewrite Ho.
    by rewrite bool_decide_eq_true_2.
Qed.

Lemma wrap_connected_then_connect_witness :
  connect wrapped_open 0
  = (set_promises [Resolved (VConnection (Some 0))] wrapped_open, 0).
Proof.
  exact (wrap_connected_then_connect (H := sample_codec) 0 None
           (lone_connection 1) (blank_connection 1) eq_refl eq_refl).
Defined.

(** X4: wrapping a connection object that is disconnected (or
    uninitialized) and calling [disconnect] resolves at once with the URI
    rendered from the object when the handle was built; no close request is
    made and no connection object is touched.  Afterwards the handle holds no
    connection, so [getConnectionURI] is [undefined], while the stored [uri]
    is still there. *)
Theorem wrap_closed_then_disconnect `{UriCodec}
    (c : conn_ref) (a1 : option opts) (w : world) (co : Conn.t) :
  heap w !! c = Some co →
  Conn.readyState co = 0%Z ∨ Conn.readyState co = 99%Z →
  let w0 := (Mongootils (ArgConnection c) a1 w).1 in
  let h := (Mongootils (ArgConnection c) a1 w).2 in
  let w1 := (disconnect w0 h).1 in
  promises w1 !! (disconnect w0 h).2
  = Some (Resolved (VUri (Some (formatMongoose (format (uriObject_of co)))))) ∧
  calls w1 = calls w ∧ heap w1 = heap w ∧
  getConnection w1 h = None ∧
  getConnectionURI w1 h = None ∧
  handle_uri w1 h = Some (formatMongoose (format (uriObject_of co))).
Proof.
  intros Ho Hrs. cbv zeta.
  destruct (Mongootils_stores (ArgConnection c) a1 w) as (_ & Hu & _ & Hc).
  destruct (Mongootils_frame (ArgConnection c) a1 w) as (Fh & _ & Fp & Fl & _).
  assert (getConnectionURI (Mongootils (ArgConnection c) a1 w).1
            (Mongootils (ArgConnection c) a1 w).2
          = Some (formatMongoose (format (uriObject_of co)))) as Hg.
  { unfold getConnectionURI. by rewrite Hc, Fh, Ho. }
  rewrite Hg in Hu.
  rewrite disconnect_noop_path.
  - cbn [fst snd]. unfold getConnection, getConnectionURI.
    rewrite handle_connection_set_promises, handle_connection_assign_None.
    split_and!; try done.
    + change (promises ?x) with (promises x). rewrite Hu.
      apply lookup_snoc_length.
    + change (handle_uri (set_promises ?ps ?x) ?y) with (handle_uri x y).
      by rewrite handle_uri_assign.
  - unfold is_. rewrite Hc. simpl. unfold reports. simpl. rewrite Ho.
    destruct Hrs as [-> | ->]; [done | by rewrite orb_true_r].
Qed.

Lemma wrap_closed_then_disconnect_witness :
  promises
    (disconnect (Mongootils (H := sample_codec) (ArgConnection 0) None
                   (lone_connection 0)).1 0).1 !! 0
  = Some (Resolved (VUri (Some "mongodb://db"))).
Proof.
  exact (proj1 (wrap_closed_then_disconnect (H := sample_codec) 0 None
                  (lone_connection 0) (blank_connection 0) eq_refl
                  (or_introl eq_refl))).
Defined.

(** ** Entries of the listener table *)

Section TableFacts.
Import EventEmitter.

Lemma table_on ev f co :
  table (on ev f co) !! ev
  = Some match table co !! ev with
         | None => SFun f
         | Some (SFun g) => SArr [g; f]
         | Some (SArr l) => SArr (l ++ [f])
         end.
Proof. unfold on, table at 1. simpl. by rewrite lookup_insert_eq. Qed.

Lemma table_on_ne ev ev' f co :
  ev ≠ ev' → table (on ev' f co) !! ev = table co !! ev.
Proof.
  intros Hne. unfold on, table at 1. simpl. by rewrite lookup_insert_ne.
Qed.

Lemma table_attach_None ev f co :
  table co !! ev = None →
  table (attach ev f co) !! ev
  = Some (SFun (if decide (ev = "error") then f else OnceWrapper ev f)).
Proof.
  intros Hn. unfold attach, once. case_decide; by rewrite table_on, Hn.
Qed.

Lemma table_attach_ne ev ev' f co :
  ev ≠ ev' → table (attach ev' f co) !! ev = table co !! ev.
Proof.
  intros Hne. unfold attach, once. case_decide; by apply table_on_ne.
Qed.

Lemma table_removeListener_ne ev ev' target co :
  ev ≠ ev' → table (removeListener ev' target co) !! ev = table co !! ev.
Proof.
  intros Hne. unfold removeListener, table.
  destruct (Conn._events co) as [evs|] eqn:He; simpl; [|by rewrite He].
  destruct (evs !! ev') as [[g|l]|] eqn:Hs; simpl.
  - destruct (matches target g); simpl; [|by rewrite He].
    by rewrite lookup_delete_ne.
  - destruct (remove_last target l) as [l'|]; simpl; [|by rewrite He].
    destruct (length l =? 1)%nat; simpl.
    + by rewrite lookup_delete_ne.
    + by rewrite lookup_insert_ne.
  - by rewrite He.
Qed.

Lemma table_removeListener_single ev target co g :
  table co !! ev = Some (SFun g) →
  table (removeListener ev target co) !! ev
  = if matches target g then None else Some (SFun g).
Proof.
  unfold removeListener, table. intros Ht.
  destruct (Conn._events co) as [evs|] eqn:He; simpl in *; [|done].
  rewrite Ht. destruct (matches target g); simpl.
  - by rewrite lookup_delete_eq.
  - by rewrite He.
Qed.

Lemma listeners_of_table ev co s :
  table co !! ev = Some s → listeners ev co = slot_listeners s.
Proof. intros Ht. unfold listeners. by rewrite Ht. Qed.

Lemma listeners_of_table_None ev co :
  table co !! ev = None → listeners ev co = [].
Proof. intros Ht. unfold listeners. by rewrite Ht. Qed.

(** The test of [addConnectionListener], entry by entry. *)
Lemma may_attach_iff ev co :
  may_attach ev co = true ↔
  table co !! ev = None ∨ table co !! ev = Some (SArr []) ∨
  ∃ f, table co !! ev = Some (SFun f) ∧ fn_length f = 0.
Proof.
  unfold may_attach, table.
  destruct (Conn._events co) as [evs|]; simpl.
  - destruct (evs !! ev) as [[f|l]|]; simpl.
    + rewrite Nat.eqb_eq. split; [intros Hl; right; right; eauto|].
      intros [|[|(f' & [= <-] & Hl)]]; done.
    + rewrite Nat.eqb_eq. split.
      * intros Hl. right; left. by destruct l.
      * by intros [|[[= ->]|(f' & ? & _)]].
    + split; [by left | done].
  - rewrite lookup_empty. split; [by left | done].
Qed.

End TableFacts.

(** ** [addConnectionListener]: what one call can do *)

Lemma heap_update_conn_ne c c' f w :
  c' ≠ c → heap (update_conn c f w) !! c' = heap w !! c'.
Proof. intros Hne. simpl. by rewrite list_lookup_alter_ne. Qed.

(** X5: [addConnectionListener] on a handle without connection throws
    [TypeError] and changes nothing.  On a handle holding a connection it
    never throws and adds at most one listener: the event gets the bound
    handler at the end of its listeners exactly when the entry is missing,
    an empty array, or a single function declaring no parameter; otherwise
    nothing changes.  Listeners of other events and of other connection
    objects, handles, promises, requests and every [readyState] stay as they
    are. *)
Theorem addConnectionListener_effect
    (w : world) (h : handle_ref) (ev : string) (cb : closure) :
  (handle_connection w h = None →
   addConnectionListener h ev cb w = throw TypeError w) ∧
  (∀ c co, holds w h c co →
     let w' := (addConnectionListener h ev cb w).1 in
     (addConnectionListener h ev cb w).2 = None ∧
     (may_attach ev co = true ↔
        EventEmitter.table co !! ev = None ∨
        EventEmitter.table co !! ev = Some (SArr []) ∨
        ∃ f, EventEmitter.table co !! ev = Some (SFun f) ∧ fn_length f = 0) ∧
     listeners_of w' c ev
     = listeners_of w c ev
       ++ (if may_attach ev co
           then [if decide (ev = "error") then Bind cb h
                 else OnceWrapper ev (Bind cb h)]
           else []) ∧
     (may_attach ev co = false → w' = w) ∧
     (∀ ev', ev' ≠ ev → listeners_of w' c ev' = listeners_of w c ev') ∧
     (∀ c', c' ≠ c → heap w' !! c' = heap w !! c') ∧
     handles w' = handles w ∧ connections w' = connections w ∧
     promises w' = promises w ∧ calls w' = calls w ∧
     (∀ c', Conn.readyState <$> heap w' !! c'
            = Conn.readyState <$> heap w !! c') ∧
     listener_frame w w').
Proof.
  split.
  - intros Hn. unfold addConnectionListener. by rewrite Hn.
  - intros c co Hho. cbv zeta.
    pose proof (listener_frame_addConnectionListener h ev cb w) as Hf.
    pose proof (promises_addConnectionListener h ev cb w) as Hps.
    pose proof Hf as (Fh & Fc & Fl & _ & _ & Fr).
    rewrite (addConnectionListener_held _ _ _ _ _ _ Hho)
      in Hf, Hps, Fh, Fc, Fl, Fr |- *.
    cbn [ret fst snd] in Hf, Hps, Fh, Fc, Fl, Fr |- *.
    split_and!; try done.
    + apply may_attach_iff.
    + destruct (may_attach ev co).
      * erewrite holds_listeners_of by (apply holds_update_conn, Hho).
        by rewrite listeners_attach, (holds_listeners_of _ _ _ _ _ Hho).
      * by rewrite app_nil_r.
    + by intros ->.
    + intros ev' Hne. destruct (may_attach ev co); [|done].
      erewrite holds_listeners_of by (apply holds_update_conn, Hho).
      by rewrite listeners_attach_ne, (holds_listeners_of _ _ _ _ _ Hho).
    + intros c' Hne. destruct (may_attach ev co); [|done].
      by apply heap_update_conn_ne.
Qed.

Lemma addConnectionListener_effect_witness :
  addConnectionListener 0 "open" (onConnectionOpened 0) one_handle
  = throw TypeError one_handle ∧
  listeners_of
    (addConnectionListener 0 "error" (onDisconnectionError 1) connected_world).1
    0 "error"
  = [Bind (onConnectionError 0) 0].
Proof.
  split.
  - apply (proj1 (addConnectionListener_effect one_handle 0 "open" _)).
    reflexivity.
  - edestruct (proj2 (addConnectionListener_effect connected_world 0 "error"
                        (onDisconnectionError 1)) 0)
      as (_ & _ & Hl & _).
    + split; [reflexivity | vm_compute; reflexivity].
    + rewrite Hl. vm_compute. reflexivity.
Defined.

(** ** When cleanup throws *)

Lemma array_entry_dec_cases ev co :
  array_entry ev co ∨
  (¬ array_entry ev co ∧
   (EventEmitter.table co !! ev = None ∨
    EventEmitter.table co !! ev = Some (SArr []) ∨
    ∃ g, EventEmitter.table co !! ev = Some (SFun g))).
Proof.
  unfold array_entry.
  destruct (EventEmitter.table co !! ev) as [[g|[|f l]]|]; eauto;
    right; (split; [by intros (?&?&?) | eauto]).
Qed.

Lemma removeListeners_cases w h c co ev cb :
  holds w h c co →
  (array_entry ev co ∧ removeListeners h ev cb w = throw TypeError w) ∨
  (¬ array_entry ev co ∧
   ∃ w' co', removeListeners h ev cb w = ret w' ∧ holds w' h c co' ∧
             ∀ ev', ev' ≠ ev →
                    EventEmitter.table co' !! ev' = EventEmitter.table co !! ev').
Proof.
  intros Hho. pose proof Hho as [Hc Ho].
  destruct (array_entry_dec_cases ev co) as [Ha | [Hna Hcases]].
  - left. split; [done|]. destruct Ha as (f & l & Ht).
    unfold removeListeners. rewrite Hc, Ho.
    unfold EventEmitter.table in Ht.
    destruct (Conn._events co) as [evs|]; simpl in Ht; [|done].
    by rewrite Ht.
  - right. split; [done|]. destruct Hcases as [Hn | [He | [g Hg]]].
    + exists w, co. by rewrite (removeListeners_no_entry _ _ _ _ _ _ Hho Hn).
    + exists w, co. split_and!; try done.
      unfold removeListeners. rewrite Hc, Ho.
      unfold EventEmitter.table in He.
      destruct (Conn._events co) as [evs|]; simpl in He; [|done].
      by rewrite He.
    + eexists _, _. split_and!.
      * by apply (removeListeners_single _ _ c co _ _ g).
      * by apply holds_update_conn.
      * intros ev' Hne. by apply table_removeListener_ne.
Qed.

Lemma array_entry_ext ev co co' :
  EventEmitter.table co' !! ev = EventEmitter.table co !! ev →
  array_entry ev co' ↔ array_entry ev co.
Proof. intros He. unfold array_entry. by rewrite He. Qed.

(** Three removals in a row, as both [cleanup] closures make them. *)
Lemma three_removals w h c co e1 e2 e3 cb1 cb2 cb3 :
  holds w h c co → e1 ≠ e2 → e1 ≠ e3 → e2 ≠ e3 →
  let o := removeListeners h e1 cb1 w
           >>> removeListeners h e2 cb2
           >>> removeListeners h e3 cb3 in
  (o.2 = Some TypeError ∧
   (array_entry e1 co ∨ array_entry e2 co ∨ array_entry e3 co)) ∨
  (o.2 = None ∧
   ¬ (array_entry e1 co ∨ array_entry e2 co ∨ array_entry e3 co)).
Proof.
  intros Hho H12 H13 H23. cbv zeta.
  destruct (removeListeners_cases w h c co e1 cb1 Hho)
    as [[Ha ->] | (Hna & w1 & co1 & -> & Hho1 & Ht1)]; [left; eauto|].
  cbn [ret and_then].
  pose proof (array_entry_ext e2 co co1 (Ht1 e2 (not_eq_sym H12))) as A2.
  pose proof (array_entry_ext e3 co co1 (Ht1 e3 (not_eq_sym H13))) as A3.
  destruct (removeListeners_cases w1 h c co1 e2 cb2 Hho1)
    as [[Ha ->] | (Hna2 & w2 & co2 & -> & Hho2 & Ht2)];
    [left; split; [done | right; left; by apply A2]|].
  cbn [ret and_then].
  pose proof (array_entry_ext e3 co1 co2 (Ht2 e3 (not_eq_sym H23))) as A3'.
  destruct (removeListeners_cases w2 h c co2 e3 cb3 Hho2)
    as [[Ha ->] | (Hna3 & w3 & co3 & -> & Hho3 & Ht3)].
  - left. split; [done|]. right; right. by apply A3, A3'.
  - right. split; [done|]. intros [?|[?|?]]; [done | |].
    + by apply Hna2, A2.
    + by apply Hna3, A3', A3.
Qed.

(** X6: the cleanup of [connect] and the completion callback of
    [disconnect] throw [TypeError] exactly when, for one of their three
    events, the connection's entry is an array with at least one listener.
    When the callback throws, no promise is settled and the handle keeps its
    connection, so the promise of [disconnect] stays pending; when it does
    not, the connection reference is cleared and a pending promise is
    resolved with the stored URI. *)
Theorem cleanup_throws_iff_array
    (w : world) (h : handle_ref) (c : conn_ref) (co : Conn.t)
    (p : promise_ref) (arg : option error) :
  holds w h c co →
  let oc := run_closure (connect_cleanup p) (ThisHandle h) arg w in
  let od := close_callback h p w in
  (oc.2 = Some TypeError ↔ ∃ ev, ev ∈ connect_events ∧ array_entry ev co) ∧
  (oc.2 = None ↔ ¬ ∃ ev, ev ∈ connect_events ∧ array_entry ev co) ∧
  (od.2 = Some TypeError ↔ ∃ ev, ev ∈ disconnect_events ∧ array_entry ev co) ∧
  (od.2 = None ↔ ¬ ∃ ev, ev ∈ disconnect_events ∧ array_entry ev co) ∧
  (od.2 = Some TypeError →
   promises od.1 = promises w ∧ handle_connection od.1 h = Some c) ∧
  (od.2 = None →
   handle_connection od.1 h = None ∧
   (promises w !! p = Some Pending →
    promises od.1 !! p = Some (Resolved (VUri (handle_uri w h))))).
Proof.
  intros Hho. cbv zeta.
  assert (∀ e1 e2 e3 : string,
            (∃ ev, ev ∈ [e1; e2; e3] ∧ array_entry ev co) ↔
            array_entry e1 co ∨ array_entry e2 co ∨ array_entry e3 co) as Hex.
  { intros e1 e2 e3. split.
    - intros (ev & Hin & Ha).
      apply elem_of_cons in Hin as [-> | Hin]; [by left|].
      apply elem_of_cons in Hin as [-> | Hin]; [by right; left|].
      apply elem_of_cons in Hin as [-> | Hin]; [by right; right|].
      by apply elem_of_nil in Hin.
    - intros [Ha | [Ha | Ha]]; eexists; (split; [|exact Ha]); set_solver. }
  unfold connect_events, disconnect_events. rewrite !Hex. clear Hex.
  pose proof (three_removals w h c co "error" "open" "close"
                (Src (onConnectionError p)) (Src (onConnectionOpened p))
                (Src (connect_cleanup p)) Hho
                ltac:(done) ltac:(done) ltac:(done)) as Hc3.
  pose proof (three_removals w h c co "error" "disconnected" "close"
                (Src (onDisconnectionError p)) (Src (onConnectionClosed p))
                (Src (disconnect_cleanup p)) Hho
                ltac:(done) ltac:(done) ltac:(done)) as Hd3.
  pose proof (promises_cleanup (disconnect_cleanup p) (ThisHandle h) None w
                (ex_intro _ p (or_intror eq_refl))) as Hps.
  pose proof (listener_frame_run_closure (disconnect_cleanup p)
                (ThisHandle h) None w) as Hf.
  unfold close_callback.
  change (run_closure (connect_cleanup p) (ThisHandle h) arg w)
    with (removeListeners h "error" (Src (onConnectionError p)) w
          >>> removeListeners h "open" (Src (onConnectionOpened p))
          >>> removeListeners h "close" (Src (connect_cleanup p))).
  change (run_closure (disconnect_cleanup p) (ThisHandle h) None w)
    with (removeListeners h "error" (Src (onDisconnectionError p)) w
          >>> removeListeners h "disconnected" (Src (onConnectionClosed p))
          >>> removeListeners h "close" (Src (disconnect_cleanup p)))
    in Hps, Hf |- *.
  cbv zeta in Hc3, Hd3.
  destruct (removeListeners h "error" (Src (onConnectionError p)) w
            >>> removeListeners h "open" _ >>> removeListeners h "close" _)
    as [wc ec].
  destruct (removeListeners h "error" (Src (onDisconnectionError p)) w
            >>> removeListeners h "disconnected" _
            >>> removeListeners h "close" _) as [wd ed].
  cbn [fst snd] in *.
  refine (conj _ (conj _ (conj _ (conj _ (conj _ _))))).
  - destruct Hc3 as [[-> ?] | [-> ?]]; by split.
  - destruct Hc3 as [[-> ?] | [-> ?]]; by split.
  - destruct Hd3 as [[-> ?] | [-> ?]]; cbn [and_then ret snd]; by split.
  - destruct Hd3 as [[-> ?] | [-> ?]]; cbn [and_then ret snd]; by split.
  - destruct Hd3 as [[-> ?] | [-> ?]]; cbn [and_then ret fst snd]; [|done].
    intros _. split; [done|].
    rewrite (listener_frame_handle_connection _ _ _ Hf). apply Hho.
  - destruct Hd3 as [[-> ?] | [-> ?]]; cbn [and_then ret fst snd]; [done|].
    intros _. unfold resolve. split.
    + by rewrite handle_connection_settle, handle_connection_assign_None.
    + intros Hp. rewrite handle_uri_assign.
      rewrite settle_pending by (simpl; by rewrite Hps).
      do 3 f_equal. unfold handle_uri. by destruct Hf as (-> & _).
Qed.

Lemma cleanup_throws_iff_array_witness :
  (close_callback 0 1 closing_after_connect).2 = Some TypeError ∧
  (close_callback 0 0 closed_notified).2 = None.
Proof.
  pose proof (λ co, cleanup_throws_iff_array closing_after_connect 0 0 co 1 None)
    as Ha.
  pose proof (λ co, cleanup_throws_iff_array closed_notified 0 0 co 0 None)
    as Hb.
  edestruct Ha as (_ & _ & [_ Ht] & _);
    [split; vm_compute; reflexivity |].
  edestruct Hb as (_ & _ & _ & [_ Hn] & _);
    [split; vm_compute; reflexivity |].
  split.
  - apply Ht. exists "close". split; [clear; set_solver|].
    eexists _, _. vm_compute. reflexivity.
  - apply Hn. clear. intros (ev & Hin & f & l & Hf).
    unfold disconnect_events in Hin.
    repeat (apply elem_of_cons in Hin as [-> | Hin];
            [vm_compute in Hf; discriminate|]).
    by apply elem_of_nil in Hin.
Defined.

(** ** [disconnect] when the connection has to be closed *)

Lemma holds_log w h c co cl : holds w h c co → holds (log cl w) h c co.
Proof. by intros [? ?]. Qed.

Lemma holds_new_promise w h c co :
  holds w h c co → holds (new_promise w).1 h c co.
Proof. by intros [? ?]. Qed.

Lemma addConnectionListener_silent w h c co ev cb :
  holds w h c co → EventEmitter.table co !! ev = None →
  addConnectionListener h ev cb w
  = ret (update_conn c (attach ev (Bind cb h)) w).
Proof.
  intros Hho Hn. rewrite (addConnectionListener_held _ _ _ _ _ _ Hho).
  by rewrite (proj2 (may_attach_iff ev co) (or_introl Hn)).
Qed.

Lemma removeListeners_single_no_match w h c co ev cb g :
  holds w h c co → EventEmitter.table co !! ev = Some (SFun g) →
  EventEmitter.matches cb g = false →
  removeListeners h ev cb w = ret w.
Proof.
  intros Hho Hg Hm. rewrite (removeListeners_single _ _ _ _ _ _ _ Hho Hg).
  f_equal. eapply update_conn_id; [apply Hho|].
  by eapply removeListener_no_match.
Qed.

Lemma disconnect_executor_initiates h p w :
  truthy (is_ w h "disconnected") || truthy (is_ w h "uninitialized") = false →
  truthy (is_ w h "disconnecting") = false →
  disconnect_executor h p w = disconnect_initiate h p w.
Proof. intros H1 H2. unfold disconnect_executor. by rewrite H1, H2. Qed.

(** A one-shot listener alone on its event: the wrapper detaches itself,
    then the bound closure runs. *)
Lemma emit_once w h c co ev cl h' arg :
  holds w h c co →
  EventEmitter.table co !! ev = Some (SFun (OnceWrapper ev (Bind cl h'))) →
  emit c ev arg w
  = run_closure cl (ThisHandle h') arg
      (update_conn c
         (EventEmitter.removeListener ev (OnceWrapper ev (Bind cl h'))) w).
Proof.
  intros Hho Ht.
  rewrite (emit_single _ _ _ _ (OnceWrapper ev (Bind cl h'))); [done|].
  rewrite (holds_listeners_of _ _ _ _ _ Hho).
  by rewrite (listeners_of_table _ _ _ Ht).
Qed.

Lemma table_close_state co :
  EventEmitter.table
    (if decide (Conn.readyState co = 1%Z) then Conn.set_readyState 3 co else co)
  = EventEmitter.table co.
Proof. by case_decide. Qed.

Lemma readyState_attach ev f co :
  Conn.readyState (attach ev f co) = Conn.readyState co.
Proof. unfold attach. by case_decide. Qed.

Lemma disconnect_attaches w h c co :
  holds w h c co →
  truthy (is_ w h "disconnected") || truthy (is_ w h "uninitialized") = false →
  truthy (is_ w h "disconnecting") = false →
  silent disconnect_events co →
  let p := length (promises w) in
  ∃ w1 co1,
    disconnect w h = (w1, p) ∧ holds w1 h c co1 ∧
    promises w1 = promises w ++ [Pending] ∧
    calls w1 = calls w ++ [CallClose c h p] ∧
    handles w1 = handles w ∧ connections w1 = connections w ∧
    EventEmitter.table co1 !! "error"
    = Some (SFun (Bind (onDisconnectionError p) h)) ∧
    EventEmitter.table co1 !! "disconnected"
    = Some (SFun (OnceWrapper "disconnected" (Bind (onConnectionClosed p) h))) ∧
    EventEmitter.table co1 !! "close"
    = Some (SFun (OnceWrapper "close" (Bind (disconnect_cleanup p) h))) ∧
    (∀ ev, ev ∉ disconnect_events →
           EventEmitter.table co1 !! ev = EventEmitter.table co !! ev) ∧
    Conn.readyState co1
    = (if decide (Conn.readyState co = 1%Z) then 3%Z else Conn.readyState co).
Proof.
  intros Hho H1 H2 Hs p.
  pose proof (Hs "error" ltac:(set_solver)) as Se.
  pose proof (Hs "disconnected" ltac:(set_solver)) as Sd.
  pose proof (Hs "close" ltac:(set_solver)) as Sc.
  unfold disconnect, run_executor. cbn [new_promise]. fold p.
  rewrite disconnect_executor_initiates
    by (by rewrite !(is_ext w (set_promises _ w))).
  unfold disconnect_initiate.
  apply holds_new_promise in Hho. cbn [new_promise fst] in Hho.
  rewrite (addConnectionListener_silent _ _ _ _ "error" _ Hho Se).
  cbn [ret and_then].
  eapply (holds_update_conn _ _ _ _ (attach "error" _)) in Hho.
  rewrite (addConnectionListener_silent _ _ _ _ "disconnected" _ Hho)
    by (by rewrite table_attach_ne).
  cbn [ret and_then].
  eapply (holds_update_conn _ _ _ _ (attach "disconnected" _)) in Hho.
  rewrite (addConnectionListener_silent _ _ _ _ "close" _ Hho)
    by (by rewrite !table_attach_ne).
  cbn [ret and_then].
  eapply (holds_update_conn _ _ _ _ (attach "close" _)) in Hho.
  rewrite (proj1 Hho). cbn [ret].
  eapply (holds_log _ _ _ _ (CallClose c h p)) in Hho.
  eapply (holds_update_conn _ _ _ _
            (λ co, if decide (Conn.readyState co = 1%Z)
                   then Conn.set_readyState 3 co else co)) in Hho.
  do 2 eexists.
  split; [reflexivity|]. split; [exact Hho|].
  rewrite !table_close_state.
  split_and!; try done.
  - rewrite !table_attach_ne by done. by rewrite table_attach_None.
  - rewrite !table_attach_ne by done.
    by rewrite table_attach_None by (by rewrite table_attach_ne).
  - by rewrite table_attach_None by (by rewrite !table_attach_ne).
  - intros ev Hev. unfold disconnect_events in Hev.
    assert (ev ≠ "error" ∧ ev ≠ "disconnected" ∧ ev ≠ "close")
      as (? & ? & ?) by (clear -Hev; set_solver).
    by rewrite ?table_close_state, !table_attach_ne.
  - rewrite !readyState_attach.
    destruct (decide (Conn.readyState co = 1%Z)); [done|].
    by rewrite ?readyState_attach.
Qed.

Lemma disconnect_cleanup_idle w h c co p g arg :
  holds w h c co →
  EventEmitter.table co !! "error" = Some (SFun g) →
  EventEmitter.matches (Src (onDisconnectionError p)) g = false →
  EventEmitter.table co !! "disconnected" = None →
  EventEmitter.table co !! "close" = None →
  run_closure (disconnect_cleanup p) (ThisHandle h) arg w = ret w.
Proof.
  intros Hho He Hm Hd Hc. cbn [run_closure this_removeListeners].
  rewrite (removeListeners_single_no_match _ _ _ _ _ _ _ Hho He Hm).
  cbn [ret and_then this_removeListeners].
  rewrite (removeListeners_no_entry _ _ _ _ _ _ Hho Hd).
  cbn [ret and_then this_removeListeners].
  by rewrite (removeListeners_no_entry _ _ _ _ _ _ Hho Hc).
Qed.

Lemma closed_after_attach w h c co p :
  holds w h c co →
  EventEmitter.table co !! "error"
  = Some (SFun (Bind (onDisconnectionError p) h)) →
  EventEmitter.table co !! "disconnected"
  = Some (SFun (OnceWrapper "disconnected" (Bind (onConnectionClosed p) h))) →
  EventEmitter.table co !! "close"
  = Some (SFun (OnceWrapper "close" (Bind (disconnect_cleanup p) h))) →
  promises w !! p = Some Pending →
  ∃ w2 co2,
    driver_closed c h p w = (w2, None) ∧
    promises w2 !! p = Some (Resolved (VUri (handle_uri w h))) ∧
    handle_connection w2 h = None ∧ heap w2 !! c = Some co2 ∧
    calls w2 = calls w ∧
    EventEmitter.table co2 !! "error"
    = Some (SFun (Bind (onDisconnectionError p) h)) ∧
    EventEmitter.table co2 !! "disconnected" = None ∧
    EventEmitter.table co2 !! "close" = None ∧
    Conn.readyState co2 = 0%Z.
Proof.
  intros Hho He Hd Hc Hp. unfold driver_closed.
  pose proof (holds_update_conn _ _ _ _ (Conn.set_readyState 0) Hho) as HhA.
  rewrite (emit_once _ _ _ _ "disconnected" _ _ _ HhA Hd).
  cbn [run_closure ret and_then].
  eapply (holds_update_conn _ _ _ _ (EventEmitter.removeListener "disconnected" _))
    in HhA.
  rewrite (emit_once _ _ _ _ "close" (disconnect_cleanup p) h _ HhA)
    by (by rewrite table_removeListener_ne).
  eapply (holds_update_conn _ _ _ _ (EventEmitter.removeListener "close" _))
    in HhA.
  assert (EventEmitter.table
            (EventEmitter.removeListener "close"
               (OnceWrapper "close" (Bind (disconnect_cleanup p) h))
               (EventEmitter.removeListener "disconnected"
                  (OnceWrapper "disconnected" (Bind (onConnectionClosed p) h))
                  (Conn.set_readyState 0 co))) !! "error"
          = Some (SFun (Bind (onDisconnectionError p) h))) as Te
    by (by rewrite !table_removeListener_ne).
  assert (EventEmitter.table
            (EventEmitter.removeListener "close"
               (OnceWrapper "close" (Bind (disconnect_cleanup p) h))
               (EventEmitter.removeListener "disconnected"
                  (OnceWrapper "disconnected" (Bind (onConnectionClosed p) h))
                  (Conn.set_readyState 0 co))) !! "disconnected"
          = None) as Td.
  { rewrite table_removeListener_ne by done.
    rewrite (table_removeListener_single "disconnected" _
               (Conn.set_readyState 0 co) _ Hd).
    by rewrite matches_refl. }
  assert (EventEmitter.table
            (EventEmitter.removeListener "close"
               (OnceWrapper "close" (Bind (disconnect_cleanup p) h))
               (EventEmitter.removeListener "disconnected"
                  (OnceWrapper "disconnected" (Bind (onConnectionClosed p) h))
                  (Conn.set_readyState 0 co))) !! "close"
          = None) as Tc.
  { erewrite table_removeListener_single
      by (rewrite table_removeListener_ne by done; exact Hc).
    by rewrite matches_refl. }
  rewrite (disconnect_cleanup_idle _ _ _ _ _ _ _ HhA Te eq_refl Td Tc).
  cbn [ret and_then]. unfold close_callback.
  rewrite (disconnect_cleanup_idle _ _ _ _ _ _ _ HhA Te eq_refl Td Tc).
  cbn [ret and_then]. do 2 eexists. split; [reflexivity|].
  unfold resolve. rewrite handle_connection_settle, handle_connection_assign_None.
  rewrite heap_settle. rewrite handle_uri_assign.
  split_and!; try done.
  - by apply settle_pending.
  - apply HhA.
  - unfold settle. by repeat case_match.
  - by rewrite readyState_removeListener, readyState_removeListener.
Qed.

Lemma silent_blank rs evs : silent evs (blank_connection rs).
Proof.
  intros ev _.
  change (EventEmitter.table (blank_connection rs)) with (∅ : gmap string slot).
  by rewrite lookup_empty.
Qed.

(** ** Which promises a listener can settle *)

Lemma settle_other_promise p q s w :
  p ≠ q → promises (settle p s w) !! q = promises w !! q.
Proof.
  intros Hne. unfold settle. repeat case_match; try done.
  simpl. by apply list_lookup_insert_ne.
Qed.

Lemma run_closure_untouched cl t arg w p :
  closure_promise cl ≠ p →
  promises (run_closure cl t arg w).1 !! p = promises w !! p.
Proof.
  intros Hne.
  destruct cl as [q|q|q|q|q|q]; simpl in Hne;
    try (by apply settle_other_promise); [| done |].
  - by rewrite (promises_cleanup (connect_cleanup q) t arg w)
      by (exists q; by left).
  - by rewrite (promises_cleanup (disconnect_cleanup q) t arg w)
      by (exists q; by right).
Qed.

Lemma invoke_untouched f c arg w p :
  ¬ mentions p f → promises (invoke f c arg w).1 !! p = promises w !! p.
Proof.
  revert w. induction f as [cl|cl h|ev g IH|id a]; intros w Hm; simpl in *.
  - by apply run_closure_untouched.
  - by apply run_closure_untouched.
  - by rewrite IH.
  - done.
Qed.

Lemma invoke_all_untouched l c arg w p :
  (∀ f, f ∈ l → ¬ mentions p f) →
  promises (invoke_all l c arg w).1 !! p = promises w !! p.
Proof.
  revert w. induction l as [|f r IH]; intros w Hl; simpl; [done|].
  pose proof (invoke_untouched f c arg w p (Hl f ltac:(left))) as Hf.
  destruct (invoke f c arg w) as [w1 [e|]]; simpl in *; [done|].
  rewrite IH; [done|]. intros f' Hf'. apply Hl. by right.
Qed.

Lemma emit_untouched c ev arg w p :
  (∀ f, f ∈ listeners_of w c ev → ¬ mentions p f) →
  promises (emit c ev arg w).1 !! p = promises w !! p.
Proof.
  intros Hl. unfold emit. destruct (listeners_of w c ev) as [|f r] eqn:He.
  - by case_decide.
  - by apply invoke_all_untouched.
Qed.

(** ** An error listener that is already there *)

Lemma addConnectionListener_keeps w h c co ev cb :
  holds w h c co →
  ∃ w' co', addConnectionListener h ev cb w = ret w' ∧ holds w' h c co' ∧
            promises w' = promises w ∧
            (∀ ev', ev' ≠ ev →
                    EventEmitter.table co' !! ev' = EventEmitter.table co !! ev') ∧
            (may_attach ev co = false → co' = co).
Proof.
  intros Hho. rewrite (addConnectionListener_held _ _ _ _ _ _ Hho).
  destruct (may_attach ev co).
  - eexists _, _. split; [done|]. split; [by apply holds_update_conn|].
    split_and!; try done. intros ev' Hne. by apply table_attach_ne.
  - by exists w, co.
Qed.

Lemma may_attach_parameter ev co f :
  EventEmitter.table co !! ev = Some (SFun f) → fn_length f ≠ 0 →
  may_attach ev co = false.
Proof.
  intros Ht Hl. rewrite (may_attach_single _ _ _ Ht). by apply Nat.eqb_neq.
Qed.

Lemma obtain_default w h c0 co :
  h < length (handles w) →
  connections w = [c0] → heap w !! c0 = Some co → Conn.readyState co = 0%Z →
  holds (obtain_connection h w) h c0 (Conn.set_readyState 2 co) ∧
  promises (obtain_connection h w) = promises w.
Proof.
  intros Hh Hc Ho Hrs. destruct (lookup_lt_is_Some_2 _ _ Hh) as [hd Hhd].
  assert (default_slot_idle w = true) as Hd.
  { unfold default_slot_idle. rewrite Hc, Ho. by apply bool_decide_eq_true_2. }
  unfold obtain_connection. rewrite Hd. unfold mongoose_connect. rewrite Hc.
  split; [split|done].
  - rewrite handle_connection_assign, decide_True by done. simpl.
    by rewrite Hhd, Hc.
  - simpl. by rewrite list_lookup_alter_eq, Ho.
Qed.

(** X10: a new [connect] attempt on the default connection, after an earlier
    attempt failed and left its error listener there (or with any single
    error listener that declares a parameter), does not attach an error
    handler of its own: the listeners of error are unchanged and an error
    event leaves the promise of the new attempt pending. *)
Theorem connect_error_shadowed
    (w : world) (h : handle_ref) (c0 : conn_ref) (co : Conn.t) (f : fn) :
  h < length (handles w) →
  truthy (is_ w h "connected") = false →
  truthy (is_ w h "connecting") = false →
  connections w = [c0] → heap w !! c0 = Some co → Conn.readyState co = 0%Z →
  EventEmitter.table co !! "error" = Some (SFun f) →
  fn_length f ≠ 0 →
  ¬ mentions (length (promises w)) f →
  let w1 := (connect w h).1 in
  let p := (connect w h).2 in
  handle_connection w1 h = Some c0 ∧
  listeners_of w1 c0 "error" = [f] ∧
  promises w1 !! p = Some Pending ∧
  ∀ arg, promises (emit c0 "error" arg w1).1 !! p = Some Pending.
Proof.
  intros Hh H1 H2 Hc Ho Hrs Ht Hlen Hm. cbv zeta.
  unfold connect, run_executor. cbn [new_promise].
  rewrite connect_executor_initiates
    by (by rewrite (is_ext w (set_promises _ w))).
  unfold connect_initiate.
  destruct (obtain_default (set_promises (promises w ++ [Pending]) w) h c0 co
              Hh Hc Ho Hrs) as [Hho Hp0].
  destruct (addConnectionListener_keeps _ _ _ _ "error"
              (onConnectionError (length (promises w))) Hho)
    as (wa & coa & -> & Hha & Hpa & _ & Hsame).
  rewrite (Hsame (may_attach_parameter "error" (Conn.set_readyState 2 co) f
                    Ht Hlen)) in Hha.
  clear Hsame. cbn [ret and_then].
  destruct (addConnectionListener_keeps _ _ _ _ "open"
              (onConnectionOpened (length (promises w))) Hha)
    as (wb & cob & -> & Hhb & Hpb & Hnb & _).
  cbn [ret and_then].
  destruct (addConnectionListener_keeps _ _ _ _ "close"
              (connect_cleanup (length (promises w))) Hhb)
    as (wc & coc & -> & Hhc & Hpc & Hnc & _).
  cbn [ret fst snd].
  assert (listeners_of wc c0 "error" = [f]) as Hl.
  { rewrite (holds_listeners_of _ _ _ _ _ Hhc).
    apply (listeners_of_table _ _ (SFun f)).
    rewrite Hnc, Hnb by done. exact Ht. }
  assert (promises wc !! length (promises w) = Some Pending) as Hp.
  { rewrite Hpc, Hpb, Hpa, Hp0. simpl. apply lookup_snoc_length. }
  split_and!; try done; [apply Hhc|].
  intros arg. rewrite emit_untouched; [done|].
  intros f' Hf'. rewrite Hl in Hf'.
  apply elem_of_cons in Hf' as [-> | Hf']; [exact Hm|].
  by apply elem_of_nil in Hf'.
Qed.

Lemma connect_error_shadowed_witness :
  promises failed_world !! 0 = Some (Rejected (Some (Err 1))) ∧
  listeners_of (connect failed_world 0).1 0 "error"
  = [Bind (onConnectionError 0) 0] ∧
  promises (emit 0 "error" (Some (Err 2)) (connect failed_world 0).1).1 !! 1
  = Some Pending.
Proof.
  pose proof (λ co, connect_error_shadowed failed_world 0 0 co
                      (Bind (onConnectionError 0) 0)) as Hs.
  edestruct Hs as (_ & Hl & _ & He).
  - vm_compute. lia.
  - vm_compute. reflexivity.
  - vm_compute. reflexivity.
  - vm_compute. reflexivity.
  - vm_compute. reflexivity.
  - vm_compute. reflexivity.
  - vm_compute. reflexivity.
  - simpl. lia.
  - vm_compute. lia.
  - split_and!; [by vm_compute | exact Hl | exact (He (Some (Err 2)))].
Defined.

(** ** [connect] again after [connect] *)

(** X11: on a handle that has to obtain a connection (without earlier
    listeners for its events), [connect], the driver's open notification and
    a second [connect] give two distinct promises resolved with one and the
    same connection reference, the one the handle holds; the second call
    makes no request and attaches no listener. *)
Theorem connect_twice (w : world) (h : handle_ref) :
  h < length (handles w) →
  truthy (is_ w h "connected") = false →
  truthy (is_ w h "connecting") = false →
  quiet_default w →
  let r1 := connect w h in
  ∃ c, handle_connection r1.1 h = Some c ∧
       let w2 := (driver_opened c r1.1).1 in
       let r2 := connect w2 h in
       promises r2.1 !! r1.2 = Some (Resolved (VConnection (Some c))) ∧
       promises r2.1 !! r2.2 = Some (Resolved (VConnection (Some c))) ∧
       r1.2 ≠ r2.2 ∧
       handle_connection r2.1 h = Some c ∧
       heap r2.1 = heap w2 ∧ calls r2.1 = calls r1.1.
Proof.
  intros Hh H1 H2 Hq. cbv zeta.
  destruct (connect_then_opened w h Hh H1 H2 Hq) as (c & co & Hho & _ & Hp).
  exists c. split; [apply Hho|].
  destruct (driver_opened_state _ _ _ _ Hho) as [Hc _].
  pose proof (listener_frame_emit c "open" None
                (update_conn c (Conn.set_readyState 1) (connect w h).1)) as Hf.
  fold (driver_opened c (connect w h).1) in Hf.
  pose proof (listener_frame_handle_connection _ _ h Hf) as Hhc.
  change (handle_connection (update_conn ?a ?b ?x) h)
    with (handle_connection x h) in Hhc.
  rewrite (proj1 Hho) in Hhc.
  rewrite (connect_connected_path (driver_opened c (connect w h).1).1 h)
    by (by rewrite Hc).
  cbn [fst snd]. rewrite Hhc.
  assert ((connect w h).2 < length (promises (driver_opened c (connect w h).1).1))
    as Hlt by (by eapply lookup_lt_Some).
  unfold set_promises. cbn [promises handles heap calls].
  split_and!; try done.
  - by rewrite lookup_app_l.
  - apply lookup_snoc_length.
  - lia.
  - by destruct Hf as (_ & _ & ? & _).
Qed.

Lemma connect_twice_witness :
  ∃ c, handle_connection (connect one_handle 0).1 0 = Some c ∧
       promises (connect (driver_opened c (connect one_handle 0).1).1 0).1
       !! (connect one_handle 0).2
       = Some (Resolved (VConnection (Some c))) ∧
       promises (connect (driver_opened c (connect one_handle 0).1).1 0).1
       !! (connect (driver_opened c (connect one_handle 0).1).1 0).2
       = Some (Resolved (VConnection (Some c))).
Proof.
  destruct (connect_twice one_handle 0) as (c & Hc & Hp1 & Hp2 & _).
  - simpl. lia.
  - reflexivity.
  - reflexivity.
  - exact quiet_default_one_handle.
  - exists c. split; [exact Hc|]. split; [exact Hp1 | exact Hp2].
Defined.

(** ** Calls that find the operation already under way *)

Lemma connect_connecting_path w h :
  truthy (is_ w h "connected") = false →
  truthy (is_ w h "connecting") = true →
  connect w h = (set_promises (promises w ++ [Pending]) w, length (promises w)).
Proof.
  intros H1 H2. unfold connect, run_executor, connect_executor.
  cbn [new_promise]. by rewrite !(is_ext w (set_promises _ w)), H1, H2.
Qed.

Lemma disconnect_disconnecting_path w h :
  truthy (is_ w h "disconnected") || truthy (is_ w h "uninitialized") = false →
  truthy (is_ w h "disconnecting") = true →
  disconnect w h
  = (set_promises (promises w ++ [Pending]) w, length (promises w)).
Proof.
  intros H1 H2. unfold disconnect, run_executor, disconnect_executor.
  cbn [new_promise]. by rewrite !(is_ext w (set_promises _ w)), H1, H2.
Qed.

(** ** Requests to the driver *)

Lemma calls_run_executor ex w :
  calls (run_executor ex w).1
  = calls (ex (new_promise w).2 (new_promise w).1).1.
Proof.
  unfold run_executor. cbn [new_promise fst snd].
  destruct (ex _ _) as [w1 [e|]]; cbn [fst]; [|done].
  unfold reject, settle. by repeat case_match.
Qed.

Lemma calls_obtain_connection h w :
  calls (obtain_connection h w)
  = calls w ++ [if default_slot_idle w
                then CallConnect (handle_uri w h) (handle_options w h)
                else CallCreateConnection (handle_uri w h) (handle_options w h)].
Proof.
  unfold obtain_connection, mongoose_connect, createConnection.
  destruct (default_slot_idle w); [|done]. by destruct (connections w).
Qed.

Lemma calls_addConnectionListener h ev cb w :
  calls (addConnectionListener h ev cb w).1 = calls w.
Proof.
  by destruct (listener_frame_addConnectionListener h ev cb w)
    as (_ & _ & ? & _).
Qed.

Lemma calls_disconnect_initiate h p w :
  calls (disconnect_initiate h p w).1 = calls w ∨
  ∃ c, handle_connection w h = Some c ∧
       calls (disconnect_initiate h p w).1 = calls w ++ [CallClose c h p].
Proof.
  unfold disconnect_initiate.
  assert (listener_frame w
            (addConnectionListener h "error" (onDisconnectionError p) w
             >>> addConnectionListener h "disconnected" (onConnectionClosed p)
             >>> addConnectionListener h "close" (disconnect_cleanup p)).1)
    as Hf.
  { repeat (apply listener_frame_and_then;
            [|intros w1 Hw1; eapply listener_frame_trans; [exact Hw1|];
              apply listener_frame_addConnectionListener]).
    apply listener_frame_addConnectionListener. }
  destruct (_ >>> _ >>> _) as [w1 [e|]]; cbn [fst and_then] in *.
  - left. by destruct Hf as (_ & _ & ? & _).
  - pose proof (listener_frame_handle_connection _ _ h Hf) as Hc.
    destruct (handle_connection w1 h) as [c|]; cbn [fst ret throw].
    + right. exists c. split; [done|]. simpl.
      by destruct Hf as (_ & _ & -> & _).
    + left. by destruct Hf as (_ & _ & ? & _).
Qed.

Lemma disconnect_initiate_held h p w c co :
  holds w h c co →
  (disconnect_initiate h p w).2 = None ∧
  calls (disconnect_initiate h p w).1 = calls w ++ [CallClose c h p].
Proof.
  intros Hho. unfold disconnect_initiate.
  pose proof (calls_addConnectionListener h "error"
                (onDisconnectionError p) w) as C1.
  destruct (addConnectionListener_keeps _ _ _ _ "error"
              (onDisconnectionError p) Hho) as (wa & coa & Ea & Hha & _).
  rewrite Ea in C1 |- *. cbn [ret and_then fst] in *.
  pose proof (calls_addConnectionListener h "disconnected"
                (onConnectionClosed p) wa) as C2.
  destruct (addConnectionListener_keeps _ _ _ _ "disconnected"
              (onConnectionClosed p) Hha) as (wb & cob & Eb & Hhb & _).
  rewrite Eb in C2 |- *. cbn [ret and_then fst] in *.
  pose proof (calls_addConnectionListener h "close"
                (disconnect_cleanup p) wb) as C3.
  destruct (addConnectionListener_keeps _ _ _ _ "close"
              (disconnect_cleanup p) Hhb) as (wc & coc & Ec & Hhc & _).
  rewrite Ec in C3 |- *. cbn [ret and_then fst] in *.
  rewrite (proj1 Hhc). cbn [ret fst snd]. split; [done|]. simpl.
  by rewrite C3, C2, C1.
Qed.

(** X12: one call makes at most one request to the driver.  [connect] makes
    none when the handle is connected or connecting, and otherwise exactly
    one, a [connect] or a [createConnection] with the handle's [uri] and
    [options]; it never asks for a close.  [disconnect] makes none when the
    handle is disconnected, uninitialized or disconnecting, and otherwise
    exactly one close request, for the connection the handle holds and with
    the callback of its own promise; it never asks for a connection. *)
Theorem requests_per_call (w : world) (h : handle_ref) :
  let wc := (connect w h).1 in
  let wd := (disconnect w h).1 in
  let pd := (disconnect w h).2 in
  (truthy (is_ w h "connected") = true ∨ truthy (is_ w h "connecting") = true →
   calls wc = calls w) ∧
  (truthy (is_ w h "connected") = false →
   truthy (is_ w h "connecting") = false →
   calls wc
   = calls w ++ [if default_slot_idle w
                 then CallConnect (handle_uri w h) (handle_options w h)
                 else CallCreateConnection (handle_uri w h) (handle_options w h)]) ∧
  (truthy (is_ w h "disconnected") = true ∨
   truthy (is_ w h "uninitialized") = true ∨
   truthy (is_ w h "disconnecting") = true →
   calls wd = calls w) ∧
  (∀ c co, holds w h c co →
           truthy (is_ w h "disconnected") = false →
           truthy (is_ w h "uninitialized") = false →
           truthy (is_ w h "disconnecting") = false →
           calls wd = calls w ++ [CallClose c h pd]) ∧
  (calls wd = calls w ∨
   ∃ c, handle_connection w h = Some c ∧ calls wd = calls w ++ [CallClose c h pd]).
Proof.
  cbv zeta. split_and!.
  - intros Hst. destruct (truthy (is_ w h "connected")) eqn:H1.
    + by rewrite connect_connected_path.
    + destruct Hst as [|H2]; [done|]. by rewrite connect_connecting_path.
  - intros H1 H2. destruct (connect_frame w h H1 H2) as (_ & _ & -> & _).
    apply (calls_obtain_connection h (new_promise w).1).
  - intros Hst.
    destruct (truthy (is_ w h "disconnected") || truthy (is_ w h "uninitialized"))
      eqn:H1.
    + by rewrite disconnect_noop_path.
    + apply orb_false_iff in H1 as [Hd Hu].
      destruct Hst as [? | [? | H2]]; [congruence | congruence |].
      rewrite disconnect_disconnecting_path; [done | | done].
      by rewrite Hd, Hu.
  - intros c co Hho Hd Hu H2.
    unfold disconnect at 1. rewrite calls_run_executor.
    rewrite disconnect_executor_initiates
      by (rewrite !(is_ext w (new_promise w).1) by done; by rewrite ?Hd, ?Hu).
    unfold disconnect, run_executor. cbn [new_promise fst snd].
    destruct (disconnect_initiate_held h (length (promises w))
                (set_promises (promises w ++ [Pending]) w) c co
                (holds_new_promise _ _ _ _ Hho)) as [Hn Hcl].
    destruct (disconnect_executor _ _ _) as [w1 [e|]]; exact Hcl.
  - assert ((disconnect w h).2 = length (promises w)) as ->.
    { unfold disconnect, run_executor. cbn [new_promise].
      by destruct (disconnect_executor _ _ _) as [? [?|]]. }
    assert (calls (disconnect w h).1
            = calls (disconnect_executor h (length (promises w))
                       (new_promise w).1).1) as ->
      by apply calls_run_executor.
    unfold disconnect_executor.
    rewrite !(is_ext w (new_promise w).1) by done.
    destruct (_ || _).
    { left. cbn [ret fst]. unfold resolve, settle. by repeat case_match. }
    destruct (truthy _); [by left|].
    apply (calls_disconnect_initiate h _ (new_promise w).1).
Qed.

Lemma requests_per_call_witness :
  calls (connect connecting_world 0).1 = calls connecting_world ∧
  calls (connect one_handle 0).1
  = [CallConnect (Some "mongodb://localhost/db") None] ∧
  calls (disconnect one_handle 0).1 = [] ∧
  calls (disconnect wrapped_open 0).1 = [CallClose 0 0 0].
Proof.
  split_and!.
  - apply (proj1 (requests_per_call connecting_world 0)). right.
    vm_compute. reflexivity.
  - apply (proj1 (proj2 (requests_per_call one_handle 0))); reflexivity.
  - apply (proj1 (proj2 (proj2 (requests_per_call one_handle 0)))).
    left. reflexivity.
  - apply (proj1 (proj2 (proj2 (proj2 (requests_per_call wrapped_open 0))))
             0 (blank_connection 1)).
    + split; reflexivity.
    + reflexivity.
    + reflexivity.
    + reflexivity.
Defined.


(** ** Histories: what can appear in and disappear from listener tables *)

Section ListenerMembership.
Import EventEmitter.

Lemma remove_last_sub target l l' f :
  remove_last target l = Some l' → f ∈ l' → f ∈ l.
Proof.
  revert l'. induction l as [|x r IH]; intros l'; simpl; [done|].
  destruct (remove_last target r) as [r'|] eqn:Hr.
  - intros [= <-] Hf. apply elem_of_cons in Hf as [-> | Hf]; [by left|].
    right. by apply (IH r').
  - destruct (matches target x); [|done]. intros [= <-] Hf. by right.
Qed.

Lemma remove_last_keeps target l l' f :
  remove_last target l = Some l' → f ∈ l → matches target f = false → f ∈ l'.
Proof.
  revert l'. induction l as [|x r IH]; intros l'; simpl; [done|].
  destruct (remove_last target r) as [r'|] eqn:Hr.
  - intros [= <-] Hf Hm. apply elem_of_cons in Hf as [-> | Hf]; [by left|].
    right. by apply (IH r').
  - destruct (matches target x) eqn:Hx; [|done]. intros [= <-] Hf Hm.
    apply elem_of_cons in Hf as [-> | Hf]; [congruence | done].
Qed.

Lemma listeners_removeListener_sub ev ev' target co f :
  f ∈ listeners ev (removeListener ev' target co) → f ∈ listeners ev co.
Proof.
  destruct (decide (ev = ev')) as [<- | Hne].
  - rewrite listeners_removeListener.
    destruct (remove_last target (listeners ev co)) as [l'|] eqn:Hr; [|done].
    by apply (remove_last_sub target).
  - by rewrite listeners_removeListener_ne.
Qed.

Lemma listeners_removeListener_keeps ev ev' target co f :
  f ∈ listeners ev co → matches target f = false →
  f ∈ listeners ev (removeListener ev' target co).
Proof.
  intros Hf Hm. destruct (decide (ev = ev')) as [<- | Hne].
  - rewrite listeners_removeListener.
    destruct (remove_last target (listeners ev co)) as [l'|] eqn:Hr; [|done].
    by eapply remove_last_keeps.
  - by rewrite listeners_removeListener_ne.
Qed.

Lemma listeners_attach_sub ev ev' g co f :
  f ∈ listeners ev (attach ev' g co) →
  f ∈ listeners ev co ∨
  (ev = ev' ∧ f = if decide (ev' = "error") then g else OnceWrapper ev' g).
Proof.
  destruct (decide (ev = ev')) as [<- | Hne].
  - rewrite listeners_attach. intros Hf.
    apply elem_of_app in Hf as [Hf | Hf]; [by left|].
    apply elem_of_cons in Hf as [-> | Hf]; [by right|].
    by apply elem_of_nil in Hf.
  - rewrite listeners_attach_ne by done. by left.
Qed.

Lemma listeners_attach_keeps ev ev' g co f :
  f ∈ listeners ev co → f ∈ listeners ev (attach ev' g co).
Proof.
  intros Hf. destruct (decide (ev = ev')) as [<- | Hne].
  - rewrite listeners_attach. apply elem_of_app. by left.
  - by rewrite listeners_attach_ne.
Qed.

End ListenerMembership.

Lemma listeners_of_update_conn c f w c' ev :
  listeners_of (update_conn c f w) c' ev
  = if decide (c = c')
    then match heap w !! c with
         | Some co => EventEmitter.listeners ev (f co)
         | None => []
         end
    else listeners_of w c' ev.
Proof.
  unfold listeners_of. simpl. destruct (decide (c = c')) as [<- | Hne].
  - rewrite list_lookup_alter_eq. by destruct (heap w !! c).
  - by rewrite list_lookup_alter_ne.
Qed.

Lemma grows_refl P w : grows P w w.
Proof. split_and!; eauto. Qed.

Lemma grows_trans P w1 w2 w3 : grows P w1 w2 → grows P w2 w3 → grows P w1 w3.
Proof.
  intros (A1 & B1 & C1) (A2 & B2 & C2). split_and!.
  - intros c ev f Hf. destruct (A2 c ev f Hf) as [Hf2 | ?]; [|by right].
    by apply A1.
  - intros c ev cl h Hb. by apply B2, B1.
  - intros c h p Hc. destruct (C2 c h p Hc) as [Hc2 | ?]; [|by right].
    by apply C1.
Qed.

Lemma grows_mono (P Q : promise_ref → Prop) w w' :
  (∀ p, P p → Q p) → grows P w w' → grows Q w w'.
Proof.
  intros HPQ (A & B & C). split_and!; [|done|].
  - intros c ev f Hf. destruct (A c ev f Hf) as [? | (cl & h & HP & Hf')];
      [by left | right; eauto].
  - intros c h p Hc. destruct (C c h p Hc); eauto.
Qed.

Lemma grows_same P w w' : heap w' = heap w → calls w' = calls w → grows P w w'.
Proof.
  intros Hh Hc. unfold grows, listeners_of. rewrite Hh, Hc.
  split_and!; eauto.
Qed.

Lemma grows_settle P p s w : grows P w (settle p s w).
Proof. apply grows_same; unfold settle; by repeat case_match. Qed.

Lemma grows_update_conn P c f w :
  (∀ co ev g, g ∈ EventEmitter.listeners ev (f co) →
              g ∈ EventEmitter.listeners ev co ∨
              ∃ cl h, P (closure_promise cl) ∧
                      (g = Bind cl h ∨ g = OnceWrapper ev (Bind cl h))) →
  (∀ co ev cl h, Bind cl h ∈ EventEmitter.listeners ev co →
                 Bind cl h ∈ EventEmitter.listeners ev (f co)) →
  grows P w (update_conn c f w).
Proof.
  intros Hsub Hkeep. split_and!; [| |by left].
  - intros c' ev g. rewrite listeners_of_update_conn.
    destruct (decide (c = c')) as [<- | Hne]; [|by left].
    unfold listeners_of. destruct (heap w !! c) as [co|]; [|by left].
    apply Hsub.
  - intros c' ev cl h. rewrite listeners_of_update_conn.
    destruct (decide (c = c')) as [<- | Hne]; [|done].
    unfold listeners_of. destruct (heap w !! c) as [co|]; [|done].
    apply Hkeep.
Qed.

Lemma grows_and_then P w o k :
  grows P w o.1 → (∀ w1, grows P w1 (k w1).1) → grows P w (o >>> k).1.
Proof.
  destruct o as [w1 [e|]]; simpl; [done|].
  intros H1 Hk. eapply grows_trans; eauto.
Qed.

Lemma grows_set_readyState P c rs w :
  grows P w (update_conn c (Conn.set_readyState rs) w).
Proof. apply grows_update_conn; intros; [by left | done]. Qed.

Lemma grows_detach P c ev target w :
  (∀ cl h, target ≠ Bind cl h) →
  grows P w (update_conn c (EventEmitter.removeListener ev target) w).
Proof.
  intros Ht. apply grows_update_conn.
  - intros co ev' g Hg. left. by eapply listeners_removeListener_sub.
  - intros co ev' cl h Hb. apply listeners_removeListener_keeps; [done|].
    unfold EventEmitter.matches. rewrite orb_false_r.
    apply bool_decide_eq_false. intros Heq. by apply (Ht cl h).
Qed.

Lemma grows_attach (P : promise_ref → Prop) c ev cl h w :
  P (closure_promise cl) →
  grows P w (update_conn c (attach ev (Bind cl h)) w).
Proof.
  intros HP. apply grows_update_conn.
  - intros co ev' g Hg.
    apply listeners_attach_sub in Hg as [? | [-> ->]]; [by left|].
    right. exists cl, h. split; [done|]. case_decide; eauto.
  - intros co ev' cl' h' Hb. by apply listeners_attach_keeps.
Qed.

Lemma grows_addConnectionListener (P : promise_ref → Prop) h ev cb w :
  P (closure_promise cb) → grows P w (addConnectionListener h ev cb w).1.
Proof.
  intros HP. unfold addConnectionListener.
  destruct (handle_connection w h) as [c|]; [|apply grows_refl].
  destruct (heap w !! c) as [co|]; [|apply grows_refl].
  destruct (may_attach ev co); [|apply grows_refl].
  replace (if decide (ev = "error")
           then ret (update_conn c (EventEmitter.on ev (Bind cb h)) w)
           else ret (update_conn c (EventEmitter.once ev (Bind cb h)) w))
    with (ret (update_conn c (attach ev (Bind cb h)) w))
    by (unfold attach; by case_decide).
  by apply grows_attach.
Qed.

Lemma grows_removeListeners P h ev cb w :
  (∀ cl h', cb ≠ Bind cl h') → grows P w (removeListeners h ev cb w).1.
Proof.
  intros Hcb. unfold removeListeners, forEach_removeListener.
  repeat case_match; simpl; try apply grows_refl.
  by apply grows_detach.
Qed.

Lemma grows_this_removeListeners P t ev cl w :
  grows P w (this_removeListeners t ev (Src cl) w).1.
Proof.
  destruct t; simpl; [|apply grows_refl].
  by apply grows_removeListeners.
Qed.

Lemma grows_run_closure P cl t arg w : grows P w (run_closure cl t arg w).1.
Proof.
  destruct cl; simpl; try apply grows_settle; try apply grows_refl;
    repeat (apply grows_and_then;
            [|intros w1; apply grows_this_removeListeners]);
    apply grows_this_removeListeners.
Qed.

Lemma grows_invoke P f c arg w : grows P w (invoke f c arg w).1.
Proof.
  revert w. induction f as [cl|cl h|ev g IH|id a]; intros w; simpl;
    try apply grows_run_closure; try apply grows_refl.
  eapply grows_trans; [|apply IH]. by apply grows_detach.
Qed.

Lemma grows_invoke_all P l c arg w : grows P w (invoke_all l c arg w).1.
Proof.
  revert w. induction l as [|f r IH]; intros w; simpl; [apply grows_refl|].
  apply grows_and_then; [apply grows_invoke | intros w1; apply IH].
Qed.

Lemma grows_emit P c ev arg w : grows P w (emit c ev arg w).1.
Proof.
  unfold emit. destruct (listeners_of w c ev) as [|f r].
  - case_decide; apply grows_refl.
  - apply grows_invoke_all.
Qed.

Lemma grows_log P cl w :
  (∀ c h p, cl = CallClose c h p → P p) → grows P w (log cl w).
Proof.
  intros Hcl. split_and!; [by left | done |].
  intros c h p Hin. simpl in Hin.
  apply elem_of_app in Hin as [? | Hin]; [by left|].
  apply elem_of_cons in Hin as [Heq | Hin]; [|by apply elem_of_nil in Hin].
  right. by apply (Hcl c h p).
Qed.

Lemma grows_assign P h c w : grows P w (assign_connection h c w).
Proof. by apply grows_same. Qed.

Lemma listeners_of_createConnection u o w c ev :
  listeners_of (createConnection u o w).1 c ev = listeners_of w c ev.
Proof.
  unfold listeners_of, createConnection. cbn [fst heap].
  destruct (decide (c < length (heap w))) as [Hlt | Hge].
  - by rewrite lookup_app_l.
  - rewrite (lookup_ge_None_2 (heap w)) by lia.
    destruct (decide (c = length (heap w))) as [-> | Hne].
    + rewrite lookup_snoc_length. unfold EventEmitter.listeners.
      change (EventEmitter.table (new_connection o)) with (∅ : gmap string slot).
      by rewrite lookup_empty.
    + rewrite lookup_ge_None_2; [done|]. rewrite length_app. simpl. lia.
Qed.

Lemma grows_createConnection P u o w : grows P w (createConnection u o w).1.
Proof.
  split_and!.
  - intros c ev f. rewrite listeners_of_createConnection. by left.
  - intros c ev cl h. by rewrite listeners_of_createConnection.
  - intros c h p Hin. left. unfold createConnection in Hin. cbn [fst calls] in Hin.
    apply elem_of_app in Hin as [? | Hin]; [done|].
    apply elem_of_cons in Hin as [Heq | Hin]; [done|].
    by apply elem_of_nil in Hin.
Qed.

Lemma grows_mongoose_connect P u o w : grows P w (mongoose_connect u o w).
Proof.
  unfold mongoose_connect. destruct (connections w) as [|c0 cs].
  - by apply grows_log.
  - eapply grows_trans; [|apply grows_set_readyState]. by apply grows_log.
Qed.

Lemma grows_obtain_connection P h w : grows P w (obtain_connection h w).
Proof.
  unfold obtain_connection. case_match.
  - eapply grows_trans; [apply grows_mongoose_connect | apply grows_assign].
  - eapply grows_trans; [apply (grows_createConnection P) | apply grows_assign].
Qed.

Lemma grows_connect_initiate (P : promise_ref → Prop) h p w :
  P p → grows P w (connect_initiate h p w).1.
Proof.
  intros HP. unfold connect_initiate.
  repeat (apply grows_and_then;
          [|intros w1; by apply grows_addConnectionListener]).
  eapply grows_trans; [apply grows_obtain_connection|].
  by apply grows_addConnectionListener.
Qed.

Lemma grows_Connection_close (P : promise_ref → Prop) c h p w :
  P p → grows P w (Connection_close c h p w).
Proof.
  intros HP. unfold Connection_close.
  apply grows_trans with (log (CallClose c h p) w);
    [apply grows_log; intros ? ? ? Heq; by injection Heq as _ _ <-|].
  apply grows_update_conn.
  - intros co ev g Hg. left. by case_decide.
  - intros co ev cl h' Hb. by case_decide.
Qed.

Lemma grows_disconnect_initiate (P : promise_ref → Prop) h p w :
  P p → grows P w (disconnect_initiate h p w).1.
Proof.
  intros HP. unfold disconnect_initiate.
  apply grows_and_then.
  - repeat (apply grows_and_then;
            [|intros w1; by apply grows_addConnectionListener]).
    by apply grows_addConnectionListener.
  - intros w1. case_match; [by apply grows_Connection_close | apply grows_refl].
Qed.

Lemma grows_run_executor P ex w :
  (∀ w0, grows P w0 (ex (length (promises w)) w0).1) →
  grows P w (run_executor ex w).1.
Proof.
  intros Hex. unfold run_executor. cbn [new_promise].
  specialize (Hex (set_promises (promises w ++ [Pending]) w)).
  destruct (ex _ _) as [w1 [e|]]; cbn [fst] in *.
  - eapply grows_trans; [by apply grows_same|].
    eapply grows_trans; [exact Hex | apply grows_settle].
  - eapply grows_trans; [by apply grows_same | exact Hex].
Qed.

Lemma grows_connect w h : grows (eq (length (promises w))) w (connect w h).1.
Proof.
  apply grows_run_executor. intros w0. unfold connect_executor.
  repeat case_match; simpl; try apply grows_settle; try apply grows_refl.
  by apply grows_connect_initiate.
Qed.

Lemma grows_disconnect w h :
  grows (eq (length (promises w))) w (disconnect w h).1.
Proof.
  apply grows_run_executor. intros w0. unfold disconnect_executor.
  repeat case_match; simpl; try apply grows_refl.
  - eapply grows_trans; [apply grows_assign | apply grows_settle].
  - by apply grows_disconnect_initiate.
Qed.

Lemma grows_close_callback P h p w : grows P w (close_callback h p w).1.
Proof.
  unfold close_callback. apply grows_and_then; [apply grows_run_closure|].
  intros w1. simpl. eapply grows_trans; [apply grows_assign | apply grows_settle].
Qed.

Lemma grows_Mongootils `{UriCodec} P a0 a1 w : grows P w (Mongootils a0 a1 w).1.
Proof. destruct a0; by apply grows_same. Qed.

Lemma mentions_new q ev cl h f :
  f = Bind cl h ∨ f = OnceWrapper ev (Bind cl h) →
  mentions q f → closure_promise cl = q.
Proof. by intros [-> | ->]. Qed.

Lemma grows_mentioned P w w' q :
  grows P w w' → mentioned q w' → mentioned q w ∨ P q.
Proof.
  intros (A & _ & C) [(c & ev & f & Hf & Hm) | (c & h & Hc)].
  - destruct (A c ev f Hf) as [Hf' | (cl & h & HP & Hnew)].
    + left. left. eauto.
    + right. by rewrite <-(mentions_new q ev cl h f Hnew Hm).
  - destruct (C c h q Hc) as [? | ?]; [|by right].
    left. right. eauto.
Qed.

Lemma grows_tables_bound P w w' :
  grows P w w' → tables_bound w → tables_bound w'.
Proof.
  intros (A & _ & _) Hb c ev f Hf.
  destruct (A c ev f Hf) as [Hf' | (cl & h & _ & [-> | ->])]; [|done|done].
  by apply (Hb c ev).
Qed.

(** ** The promises a history can settle *)

Lemma plen_settle p s w : length (promises (settle p s w)) = length (promises w).
Proof.
  unfold settle. repeat case_match; try done. simpl. apply length_insert.
Qed.

Lemma plen_and_then o k n :
  length (promises o.1) = n →
  (∀ w, length (promises w) = n → length (promises (k w).1) = n) →
  length (promises (o >>> k).1) = n.
Proof. destruct o as [w [e|]]; simpl; eauto. Qed.

Lemma plen_run_closure cl t arg w :
  length (promises (run_closure cl t arg w).1) = length (promises w).
Proof.
  destruct cl as [q|q|q|q|q|q]; try apply plen_settle; try done.
  - by rewrite (promises_cleanup (connect_cleanup q) t arg w)
      by (exists q; by left).
  - by rewrite (promises_cleanup (disconnect_cleanup q) t arg w)
      by (exists q; by right).
Qed.

Lemma plen_invoke f c arg w :
  length (promises (invoke f c arg w).1) = length (promises w).
Proof.
  revert w. induction f as [cl|cl h|ev g IH|id a]; intros w; simpl;
    try apply plen_run_closure; [|done].
  by rewrite IH.
Qed.

Lemma plen_invoke_all l c arg w :
  length (promises (invoke_all l c arg w).1) = length (promises w).
Proof.
  revert w. induction l as [|f r IH]; intros w; simpl; [done|].
  apply plen_and_then; [apply plen_invoke|]. intros w1 <-. apply IH.
Qed.

Lemma plen_emit c ev arg w :
  length (promises (emit c ev arg w).1) = length (promises w).
Proof.
  unfold emit. destruct (listeners_of w c ev).
  - by case_decide.
  - apply plen_invoke_all.
Qed.

Lemma plen_close_callback h p w :
  length (promises (close_callback h p w).1) = length (promises w).
Proof.
  unfold close_callback. apply plen_and_then; [apply plen_run_closure|].
  intros w1 <-. simpl. unfold resolve. by rewrite plen_settle.
Qed.

Lemma plen_run_executor ex w :
  (∀ w0, length (promises (ex (length (promises w)) w0).1)
         = length (promises w0)) →
  length (promises (run_executor ex w).1) = S (length (promises w)).
Proof.
  intros Hex. unfold run_executor. cbn [new_promise].
  specialize (Hex (set_promises (promises w ++ [Pending]) w)).
  destruct (ex _ _) as [w1 [e|]]; cbn [fst] in *;
    [unfold reject; rewrite plen_settle|]; rewrite Hex; simpl;
    rewrite length_app; simpl; lia.
Qed.

Lemma plen_connect w h :
  length (promises (connect w h).1) = S (length (promises w)).
Proof.
  apply plen_run_executor. intros w0. unfold connect_executor.
  repeat case_match; simpl; unfold resolve; try apply plen_settle; try done.
  by rewrite promises_connect_initiate.
Qed.

Lemma plen_disconnect w h :
  length (promises (disconnect w h).1) = S (length (promises w)).
Proof.
  apply plen_run_executor. intros w0. unfold disconnect_executor.
  repeat case_match; simpl; unfold resolve; try done.
  - by rewrite plen_settle.
  - by rewrite promises_disconnect_initiate.
Qed.

Lemma plen_perform `{UriCodec} (a : action) (w : world) :
  (length (promises w) ≤ length (promises (perform a w)))%nat.
Proof.
  destruct a; simpl; try done.
  - rewrite plen_connect. lia.
  - rewrite plen_disconnect. lia.
  - by destruct (Mongootils_frame a0 a1 w) as (_ & _ & -> & _).
  - by rewrite plen_emit.
  - by rewrite plen_close_callback.
Qed.

Lemma grows_perform_fresh `{UriCodec} (a : action) (w : world) :
  grows (λ q, (length (promises w) ≤ q < length (promises (perform a w)))%nat)
        w (perform a w).
Proof.
  destruct a; simpl; try apply grows_refl.
  - eapply grows_mono; [|apply grows_connect].
    intros q <-. rewrite plen_connect. lia.
  - eapply grows_mono; [|apply grows_disconnect].
    intros q <-. rewrite plen_disconnect. lia.
  - apply grows_Mongootils.
  - apply grows_emit.
  - apply grows_set_readyState.
  - apply grows_close_callback.
Qed.

Lemma well_scoped_perform `{UriCodec} a w :
  well_scoped w → well_scoped (perform a w).
Proof.
  intros Hw q Hq.
  destruct (grows_mentioned _ _ _ _ (grows_perform_fresh a w) Hq) as [Hq' | ?];
    [|lia].
  specialize (Hw q Hq'). pose proof (plen_perform a w). lia.
Qed.

Lemma well_scoped_run `{UriCodec} acts w :
  well_scoped w → well_scoped (run acts w).
Proof.
  revert w. induction acts as [|a acts IH]; intros w Hw; simpl; [done|].
  by apply IH, well_scoped_perform.
Qed.

Lemma tables_bound_run `{UriCodec} acts w :
  tables_bound w → tables_bound (run acts w).
Proof.
  revert w. induction acts as [|a acts IH]; intros w Hw; simpl; [done|].
  apply IH. by eapply grows_tables_bound; [apply grows_perform_fresh|].
Qed.

Lemma run_executor_untouched ex w p :
  p < length (promises w) →
  (∀ w0, promises (ex (length (promises w)) w0).1 !! p = promises w0 !! p) →
  promises (run_executor ex w).1 !! p = promises w !! p.
Proof.
  intros Hp Hex. unfold run_executor. cbn [new_promise].
  specialize (Hex (set_promises (promises w ++ [Pending]) w)).
  destruct (ex _ _) as [w1 [e|]]; cbn [fst] in *;
    [unfold reject; rewrite settle_other_promise by lia|];
    rewrite Hex; simpl; by rewrite lookup_app_l.
Qed.

Lemma connect_untouched w h p :
  p < length (promises w) →
  promises (connect w h).1 !! p = promises w !! p.
Proof.
  intros Hp. apply run_executor_untouched; [done|]. intros w0.
  unfold connect_executor. repeat case_match; simpl; unfold resolve; try done.
  - apply settle_other_promise. lia.
  - by rewrite promises_connect_initiate.
Qed.

Lemma disconnect_untouched w h p :
  p < length (promises w) →
  promises (disconnect w h).1 !! p = promises w !! p.
Proof.
  intros Hp. apply run_executor_untouched; [done|]. intros w0.
  unfold disconnect_executor. repeat case_match; simpl; unfold resolve;
    try done.
  - rewrite settle_other_promise by lia. done.
  - by rewrite promises_disconnect_initiate.
Qed.

Lemma close_callback_untouched h q w p :
  q ≠ p → promises (close_callback h q w).1 !! p = promises w !! p.
Proof.
  intros Hne. unfold close_callback.
  pose proof (promises_cleanup (disconnect_cleanup q) (ThisHandle h) None w
                (ex_intro _ q (or_intror eq_refl))) as Hps.
  destruct (run_closure _ _ _ w) as [w1 [e|]]; simpl in *; [by rewrite Hps|].
  unfold resolve. rewrite settle_other_promise by done. simpl. by rewrite Hps.
Qed.

Lemma perform_untouched `{UriCodec} a w p :
  p < length (promises w) → ¬ mentioned p w → enabled a w →
  promises (perform a w) !! p = promises w !! p.
Proof.
  intros Hp Hm Hen. destruct a; simpl; try done.
  - by apply connect_untouched.
  - by apply disconnect_untouched.
  - by destruct (Mongootils_frame a0 a1 w) as (_ & _ & -> & _).
  - apply emit_untouched. intros f Hf Hmf. apply Hm. left. eauto.
  - apply close_callback_untouched. intros ->. apply Hm. right.
    destruct Hen as [c Hc]. eauto.
Qed.

Lemma run_untouched `{UriCodec} acts w p s :
  promises w !! p = Some s → ¬ mentioned p w → history_ok acts w →
  promises (run acts w) !! p = Some s.
Proof.
  revert w. induction acts as [|a acts IH]; intros w Hp Hm Hok; simpl; [done|].
  destruct Hok as [Hen Hok]. pose proof (lookup_lt_Some _ _ _ Hp) as Hlt.
  apply IH; [by rewrite perform_untouched | | done].
  intros Hm'.
  destruct (grows_mentioned _ _ _ _ (grows_perform_fresh a w) Hm') as [? | ?];
    [done | lia].
Qed.

Lemma is_connecting_only w h :
  truthy (is_ w h "connecting") = true → truthy (is_ w h "connected") = false.
Proof.
  unfold is_, reports. simpl. destruct (handle_connection w h) as [c|]; [|done].
  simpl. destruct (heap w !! c) as [co|]; [|done]. simpl.
  intros H1%bool_decide_eq_true. apply bool_decide_eq_false. lia.
Qed.

Lemma is_disconnecting_only w h :
  truthy (is_ w h "disconnecting") = true →
  truthy (is_ w h "disconnected") || truthy (is_ w h "uninitialized") = false.
Proof.
  unfold is_, reports. simpl. destruct (handle_connection w h) as [c|]; [|done].
  simpl. destruct (heap w !! c) as [co|]; [|done]. simpl.
  intros H1%bool_decide_eq_true. apply orb_false_iff.
  split; apply bool_decide_eq_false; lia.
Qed.

Lemma fresh_promise_unmentioned w :
  well_scoped w →
  ¬ mentioned (length (promises w)) (set_promises (promises w ++ [Pending]) w).
Proof.
  intros Hw Hm. assert (mentioned (length (promises w)) w) as Hm' by done.
  specialize (Hw _ Hm'). lia.
Qed.

Lemma blank_no_listeners w rs c ev :
  heap w = [blank_connection rs] → listeners_of w c ev = [].
Proof.
  intros Hh. unfold listeners_of. rewrite Hh.
  destruct c as [|c]; simpl; [|done].
  unfold EventEmitter.listeners.
  change (EventEmitter.table (blank_connection rs)) with (∅ : gmap string slot).
  by rewrite lookup_empty.
Qed.

Lemma blank_scoped w rs :
  heap w = [blank_connection rs] → calls w = [] → well_scoped w.
Proof.
  intros Hh Hc q [(c & ev & f & Hf & _) | (c & h & Hq)].
  - rewrite (blank_no_listeners w rs) in Hf by done.
    by apply elem_of_nil in Hf.
  - rewrite Hc in Hq. by apply elem_of_nil in Hq.
Qed.

Lemma blank_bound w rs : heap w = [blank_connection rs] → tables_bound w.
Proof.
  intros Hh c ev f Hf. rewrite (blank_no_listeners w rs) in Hf by done.
  by apply elem_of_nil in Hf.
Qed.

(** X13: [connect] called while the handle is connecting attaches nothing
    and captures its [resolve]/[reject] nowhere: it only allocates a pending
    promise, and that promise is still pending after every later history of
    calls of the module, events emitted by the driver, state changes and
    close callbacks the driver was given. *)
Theorem connect_while_connecting_stays_pending `{UriCodec}
    (w : world) (h : handle_ref) (acts : list action) :
  well_scoped w →
  truthy (is_ w h "connecting") = true →
  let r := connect w h in
  r.1 = set_promises (promises w ++ [Pending]) w ∧
  r.2 = length (promises w) ∧
  (history_ok acts r.1 → promises (run acts r.1) !! r.2 = Some Pending).
Proof.
  intros Hw Hc r. subst r.
  rewrite (connect_connecting_path w h (is_connecting_only w h Hc) Hc).
  cbn [fst snd]. split_and!; [done..|]. intros Hok.
  apply run_untouched; [apply lookup_snoc_length | | done].
  by apply fresh_promise_unmentioned.
Qed.

Lemma connect_while_connecting_stays_pending_witness :
  let acts := [DriverSets 0 1; DriverEmits 0 "open" None; DoDisconnect 0;
               DriverSets 0 0; DriverEmits 0 "disconnected" None;
               DriverEmits 0 "close" None; DriverCloseDone 0 2] in
  let r := connect connecting_world 0 in
  promises (run (H := sample_codec) acts r.1) !! r.2 = Some Pending.
Proof.
  intros acts r.
  apply (connect_while_connecting_stays_pending (H := sample_codec)
           connecting_world 0 acts).
  - exact (well_scoped_perform (H := sample_codec) (DoConnect 0) one_handle
             (blank_scoped one_handle 0 eq_refl eq_refl)).
  - vm_compute. reflexivity.
  - cbn [history_ok enabled acts]. split_and!; try exact I.
    exists 0. vm_compute. repeat constructor.
Defined.

(** X14: likewise [disconnect] called while the handle is disconnecting only
    allocates a pending promise, which no later history settles: the close
    callback in flight resolves the promise of the call that requested the
    close, not this one. *)
Theorem disconnect_while_disconnecting_stays_pending `{UriCodec}
    (w : world) (h : handle_ref) (acts : list action) :
  well_scoped w →
  truthy (is_ w h "disconnecting") = true →
  let r := disconnect w h in
  r.1 = set_promises (promises w ++ [Pending]) w ∧
  r.2 = length (promises w) ∧
  (history_ok acts r.1 → promises (run acts r.1) !! r.2 = Some Pending).
Proof.
  intros Hw Hc r. subst r.
  rewrite (disconnect_disconnecting_path w h (is_disconnecting_only w h Hc) Hc).
  cbn [fst snd]. split_and!; [done..|]. intros Hok.
  apply run_untouched; [apply lookup_snoc_length | | done].
  by apply fresh_promise_unmentioned.
Qed.

Lemma disconnect_while_disconnecting_stays_pending_witness :
  let acts := [DriverSets 0 0; DriverEmits 0 "disconnected" None;
               DriverEmits 0 "close" None; DriverCloseDone 0 0] in
  let r := disconnect closing_wrapped 0 in
  promises (run (H := sample_codec) acts r.1) !! r.2 = Some Pending ∧
  promises (run (H := sample_codec) acts r.1) !! 0
  = Some (Resolved (VUri (Some "mongodb://db"))).
Proof.
  intros acts r. split; [|vm_compute; reflexivity].
  apply (disconnect_while_disconnecting_stays_pending (H := sample_codec)
           closing_wrapped 0 acts).
  - exact (well_scoped_perform (H := sample_codec) (DoDisconnect 0) wrapped_open
             (blank_scoped wrapped_open 1 eq_refl eq_refl)).
  - vm_compute. reflexivity.
  - cbn [history_ok enabled acts]. split_and!; try exact I.
    exists 0. vm_compute. repeat constructor.
Defined.

Lemma bound_kept_run `{UriCodec} acts w c ev cl h :
  Bind cl h ∈ listeners_of w c ev → Bind cl h ∈ listeners_of (run acts w) c ev.
Proof.
  revert w. induction acts as [|a acts IH]; intros w Hin; simpl; [done|].
  apply IH. by apply (grows_perform_fresh a w).
Qed.

(** X15: a handler attached with [on], which is how [addConnectionListener]
    attaches the error handlers, is never detached again: it is still
    registered after every history of calls of the module, events emitted by
    the driver, state changes and close callbacks, cleanups included, and in
    particular once the promise it settles is long settled. *)
Theorem error_handler_never_detached `{UriCodec}
    (w : world) (h : handle_ref) (c : conn_ref) (co : Conn.t)
    (cb : closure) (acts : list action) :
  holds w h c co →
  EventEmitter.table co !! "error" = None →
  let w1 := (addConnectionListener h "error" cb w).1 in
  Bind cb h ∈ listeners_of w1 c "error" ∧
  Bind cb h ∈ listeners_of (run acts w1) c "error".
Proof.
  intros Hho Ht w1.
  assert (Bind cb h ∈ listeners_of w1 c "error") as Hin.
  { subst w1. rewrite (addConnectionListener_held w h c co "error" cb Hho).
    rewrite (proj2 (may_attach_iff "error" co) (or_introl Ht)). cbn [ret fst].
    rewrite listeners_of_update_conn, decide_True by done.
    rewrite (proj2 Hho), listeners_attach, decide_True by done.
    set_solver. }
  split; [done | by apply bound_kept_run].
Qed.

Lemma error_handler_never_detached_witness :
  let acts := [DoDisconnect 0; DriverSets 0 0;
               DriverEmits 0 "disconnected" None; DriverEmits 0 "close" None;
               DriverCloseDone 0 0; DoConnect 0] in
  let w1 := (addConnectionListener 0 "error" (onDisconnectionError 0)
               wrapped_open).1 in
  Bind (onDisconnectionError 0) 0 ∈ listeners_of w1 0 "error" ∧
  Bind (onDisconnectionError 0) 0
  ∈ listeners_of (run (H := sample_codec) acts w1) 0 "error".
Proof.
  intros acts w1.
  apply (error_handler_never_detached (H := sample_codec) wrapped_open 0 0
           (blank_connection 1) (onDisconnectionError 0) acts).
  - split; reflexivity.
  - change (EventEmitter.table (blank_connection 1)) with (∅ : gmap string slot).
    by rewrite lookup_empty.
Defined.

(** ** Cleanup in a process where only this module subscribes *)

Lemma bound_only_no_match cl g :
  bound_only g → EventEmitter.matches (Src cl) g = false.
Proof. destruct g as [?|? ?|? [?|? ?|? ?|? ?]|? ?]; done. Qed.

Lemma removeListeners_bound w h ev cl :
  tables_bound w → (removeListeners h ev (Src cl) w).1 = w.
Proof.
  intros Hb. unfold removeListeners.
  destruct (handle_connection w h) as [c|]; [|done].
  destruct (heap w !! c) as [co|] eqn:Ho; [|done].
  destruct (Conn._events co) as [evs|] eqn:He; [|done].
  destruct (evs !! ev) as [[g|l]|] eqn:Hev; [| by destruct l | done].
  assert (EventEmitter.table co !! ev = Some (SFun g)) as Ht
    by (unfold EventEmitter.table; by rewrite He).
  simpl. eapply update_conn_id; [done|].
  eapply removeListener_no_match; [done|].
  apply bound_only_no_match, (Hb c ev).
  unfold listeners_of. rewrite Ho. unfold EventEmitter.listeners. rewrite Ht.
  set_solver.
Qed.

Lemma this_removeListeners_bound w t ev cl :
  tables_bound w → (this_removeListeners t ev (Src cl) w).1 = w.
Proof. intros Hb. destruct t; [by apply removeListeners_bound | done]. Qed.

Lemma and_then_unchanged (o : outcome) k w :
  o.1 = w → (k w).1 = w → (o >>> k).1 = w.
Proof. destruct o as [w1 [e|]]; simpl; by intros ->. Qed.

Lemma cleanup_bound w cl t arg :
  tables_bound w →
  (∃ p, cl = connect_cleanup p ∨ cl = disconnect_cleanup p) →
  (run_closure cl t arg w).1 = w.
Proof.
  intros Hb [p [-> | ->]]; simpl;
    repeat (apply and_then_unchanged;
            [|by apply this_removeListeners_bound]);
    by apply this_removeListeners_bound.
Qed.

(** X16: start from a process in which no listener is an unbound closure of
    this module (none is, as [addConnectionListener] registers bound copies
    only).  Then after every history the cleanup of [connect] and the
    cleanup of [disconnect] change nothing at all, whether they return or
    throw, and the close callback leaves every connection object, so every
    listener, as it was. *)
Theorem cleanup_never_detaches `{UriCodec}
    (w : world) (acts : list action) (p : promise_ref) (t : this_val)
    (arg : option error) (h : handle_ref) :
  tables_bound w →
  let w' := run acts w in
  (run_closure (connect_cleanup p) t arg w').1 = w' ∧
  (run_closure (disconnect_cleanup p) t arg w').1 = w' ∧
  heap (close_callback h p w').1 = heap w'.
Proof.
  intros Hb w'. assert (tables_bound w') as Hb' by by apply tables_bound_run.
  split_and!.
  - apply cleanup_bound; [done|]. exists p. by left.
  - apply cleanup_bound; [done|]. exists p. by right.
  - unfold close_callback.
    pose proof (cleanup_bound w' (disconnect_cleanup p) (ThisHandle h) None Hb'
                  (ex_intro _ p (or_intror eq_refl))) as Hcl.
    destruct (run_closure _ _ _ w') as [w1 [e|]]; simpl in *; subst w1;
      [done|]. unfold resolve. by rewrite heap_settle.
Qed.

Lemma cleanup_never_detaches_witness :
  let w' := run (H := sample_codec)
              [DoConnect 0; DriverSets 0 1; DriverEmits 0 "open" None;
               DoDisconnect 0; DriverSets 0 0;
               DriverEmits 0 "disconnected" None] one_handle in
  (run_closure (connect_cleanup 1) (ThisHandle 0) None w').1 = w' ∧
  (run_closure (disconnect_cleanup 1) (ThisHandle 0) None w').1 = w' ∧
  heap (close_callback 0 1 w').1 = heap w'.
Proof.
  intros w'.
  exact (cleanup_never_detaches (H := sample_codec) one_handle _ 1
           (ThisHandle 0) None 0 (blank_bound one_handle 0 eq_refl)).
Defined.


(** ** Every resolution, and the state the handle is in *)

Lemma by_listener_handles w w' s :
  handles w' = handles w → by_listener w s → by_listener w' s.
Proof.
  intros Hh. destruct s as [|[[c|]|u]|e]; simpl; try done.
  intros [h Hc]. exists h. unfold handle_connection in *. by rewrite Hh.
Qed.

Lemma listeners_settle_refl w : listeners_settle w w.
Proof. split; [done | by left]. Qed.

Lemma listeners_settle_trans w1 w2 w3 :
  listeners_settle w1 w2 → listeners_settle w2 w3 → listeners_settle w1 w3.
Proof.
  intros [H12 P12] [H23 P23]. split; [by rewrite H23|]. intros p.
  destruct (P23 p) as [E23 | (Hp2 & s & Hs & Hby)].
  - rewrite E23. apply P12.
  - destruct (P12 p) as [E12 | (_ & s' & Hs' & Hby')].
    + right. rewrite <-E12. split; [done|]. exists s. split; [done|].
      by apply (by_listener_handles w2 w1).
    + rewrite Hp2 in Hs'. by injection Hs' as <-.
Qed.

Lemma listeners_settle_same w w' :
  handles w' = handles w → promises w' = promises w → listeners_settle w w'.
Proof. intros Hh Hp. split; [done|]. intros p. left. by rewrite Hp. Qed.

Lemma listeners_settle_settle p s w :
  by_listener w s → listeners_settle w (settle p s w).
Proof.
  intros Hby. unfold settle.
  destruct (promises w !! p) as [[| |]|] eqn:Hp;
    try apply listeners_settle_refl.
  split; [done|]. intros q. simpl. destruct (decide (p = q)) as [<- | Hne].
  - right. split; [done|]. exists s. split; [|done].
    apply list_lookup_insert_eq. by eapply lookup_lt_Some.
  - left. by apply list_lookup_insert_ne.
Qed.

Lemma listeners_settle_and_then w (o : outcome) k :
  listeners_settle w o.1 → (∀ w1, listeners_settle w1 (k w1).1) →
  listeners_settle w (o >>> k).1.
Proof.
  destruct o as [w1 [e|]]; simpl; [done|]. intros H1 Hk.
  by eapply listeners_settle_trans.
Qed.

Lemma listeners_settle_run_closure cl t arg w :
  listeners_settle w (run_closure cl t arg w).1.
Proof.
  destruct cl as [q|q|q|q|q|q].
  - by apply listeners_settle_settle.
  - apply listeners_settle_settle. simpl.
    destruct t as [h|c]; simpl; [|done].
    destruct (handle_connection w h) eqn:Hc; [eauto | done].
  - apply listeners_settle_same.
    + apply (listener_frame_run_closure (connect_cleanup q)).
    + apply promises_cleanup. exists q. by left.
  - by apply listeners_settle_settle.
  - apply listeners_settle_refl.
  - apply listeners_settle_same.
    + apply (listener_frame_run_closure (disconnect_cleanup q)).
    + apply promises_cleanup. exists q. by right.
Qed.

Lemma listeners_settle_invoke f c arg w :
  listeners_settle w (invoke f c arg w).1.
Proof.
  revert w. induction f as [cl|cl h|ev g IH|id a]; intros w; simpl;
    try apply listeners_settle_run_closure; [|apply listeners_settle_refl].
  eapply listeners_settle_trans; [|apply IH]. by apply listeners_settle_same.
Qed.

Lemma listeners_settle_invoke_all l c arg w :
  listeners_settle w (invoke_all l c arg w).1.
Proof.
  revert w. induction l as [|f r IH]; intros w; simpl;
    [apply listeners_settle_refl|].
  apply listeners_settle_and_then; [apply listeners_settle_invoke | apply IH].
Qed.

Lemma listeners_settle_emit c ev arg w :
  listeners_settle w (emit c ev arg w).1.
Proof.
  unfold emit. destruct (listeners_of w c ev).
  - case_decide; apply listeners_settle_refl.
  - apply listeners_settle_invoke_all.
Qed.

(** What [is] answers on a handle that holds a connection. *)
Lemma is_of_held w h c state :
  handle_connection w h = Some c → is_ w h state = JSBool (reports w c state).
Proof. intros Hc. unfold is_. rewrite Hc. by case_decide. Qed.

(** The close callback settles its own promise only, and only if it was
    pending and cleanup did not throw. *)
Lemma close_callback_changes h p w q :
  promises (close_callback h p w).1 !! q ≠ promises w !! q →
  q = p ∧ promises w !! p = Some Pending ∧ (close_callback h p w).2 = None.
Proof.
  unfold close_callback.
  pose proof (promises_cleanup (disconnect_cleanup p) (ThisHandle h) None w
                (ex_intro _ p (or_intror eq_refl))) as Hps.
  destruct (run_closure _ _ _ w) as [w1 [e|]]; simpl in *;
    [by rewrite Hps|].
  unfold resolve, settle. simpl. rewrite Hps.
  destruct (promises w !! p) as [[| |]|] eqn:Hp; simpl; rewrite ?Hps; try done.
  destruct (decide (p = q)) as [<- | Hne]; [done|].
  by rewrite list_lookup_insert_ne.
Qed.

Lemma close_callback_settles h p w :
  promises w !! p = Some Pending →
  let o := close_callback h p w in
  (o.2 = None →
   promises o.1 !! p = Some (Resolved (VUri (handle_uri w h))) ∧
   handle_connection o.1 h = None) ∧
  (o.2 ≠ None →
   promises o.1 = promises w ∧
   handle_connection o.1 h = handle_connection w h).
Proof.
  intros Hp. cbv zeta. unfold close_callback.
  pose proof (promises_cleanup (disconnect_cleanup p) (ThisHandle h) None w
                (ex_intro _ p (or_intror eq_refl))) as Hps.
  pose proof (listener_frame_run_closure (disconnect_cleanup p)
                (ThisHandle h) None w) as Hf.
  destruct (run_closure _ _ _ w) as [w1 [e|]]; simpl in *.
  - split; [done|]. intros _. split; [done|].
    by apply listener_frame_handle_connection.
  - split; [|done]. intros _. unfold resolve.
    rewrite handle_connection_settle, handle_connection_assign_None.
    split; [|done]. rewrite handle_uri_assign.
    rewrite settle_pending by (simpl; by rewrite Hps).
    do 3 f_equal. unfold handle_uri. by destruct Hf as (-> & _).
Qed.

(** The close callback does not throw when the handle holds no connection,
    or when none of its three events has an array of listeners. *)
Lemma close_callback_returns h p w :
  (handle_connection w h = None ∨
   ∃ c co, holds w h c co ∧
           ∀ ev, ev ∈ disconnect_events → ¬ array_entry ev co) →
  (close_callback h p w).2 = None.
Proof.
  unfold close_callback. intros [Hn | (c & co & Hho & Hna)].
  - cbn [run_closure this_removeListeners].
    repeat (rewrite (removeListeners_no_connection w h) by done;
            cbn [ret and_then this_removeListeners]).
    done.
  - pose proof (three_removals w h c co "error" "disconnected" "close"
                  (Src (onDisconnectionError p)) (Src (onConnectionClosed p))
                  (Src (disconnect_cleanup p)) Hho
                  ltac:(done) ltac:(done) ltac:(done)) as Hd3.
    cbv zeta in Hd3.
    change (run_closure (disconnect_cleanup p) (ThisHandle h) None w)
      with (removeListeners h "error" (Src (onDisconnectionError p)) w
            >>> removeListeners h "disconnected" (Src (onConnectionClosed p))
            >>> removeListeners h "close" (Src (disconnect_cleanup p))).
    destruct (removeListeners h "error" (Src (onDisconnectionError p)) w
              >>> removeListeners h "disconnected" _
              >>> removeListeners h "close" _) as [wd ed].
    cbn [fst snd] in *.
    destruct Hd3 as [[_ Ha] | [-> _]]; [|done]. exfalso.
    destruct Ha as [Ha | [Ha | Ha]]; revert Ha; apply Hna;
      unfold disconnect_events; set_solver.
Qed.

Lemma run_executor_snd ex w : (run_executor ex w).2 = length (promises w).
Proof.
  unfold run_executor. cbn [new_promise]. by destruct (ex _ _) as [? [?|]].
Qed.

Section Steps.
Context `{UriCodec}.

(** A step of a history that resolves a promise with a URI is [disconnect]
    on its immediate path or the close callback of that promise, and leaves
    the handle without connection. *)
Lemma step_resolves_uri a w p u :
  promises (perform a w) !! p = Some (Resolved (VUri u)) →
  promises w !! p ≠ Some (Resolved (VUri u)) →
  ∃ h, (a = DoDisconnect h ∨ a = DriverCloseDone h p) ∧
       u = handle_uri w h ∧
       handle_connection (perform a w) h = None ∧
       is_ (perform a w) h "disconnected" = JSBool true.
Proof.
  intros Hr Hn.
  assert (promises (perform a w) !! p ≠ promises w !! p) as Hch
    by (rewrite Hr; congruence).
  destruct a as [h|h|h st|h|h|a0 a1|c ev arg|c rs|h q]; simpl in *;
    try done.
  - exfalso. destruct (decide (p < length (promises w))) as [Hlt | Hge].
    { by rewrite connect_untouched in Hch. }
    destruct (decide (p = length (promises w))) as [-> | Hne].
    + rewrite <-(run_executor_snd (connect_executor h) w : (connect w h).2 = _)
        in Hr.
      pose proof (connect_resolved_inv _ _ _ Hr) as Hc.
      rewrite (connect_connected_path _ _ Hc) in Hr.
      cbn [fst snd promises set_promises] in Hr.
      by rewrite lookup_snoc_length in Hr.
    + apply lookup_lt_Some in Hr. rewrite plen_connect in Hr. lia.
  - destruct (decide (p < length (promises w))) as [Hlt | Hge].
    { by rewrite disconnect_untouched in Hch. }
    destruct (decide (p = length (promises w))) as [-> | Hne].
    + rewrite <-(run_executor_snd (disconnect_executor h) w
                 : (disconnect w h).2 = _) in Hr.
      pose proof (disconnect_resolved_inv _ _ _ Hr) as Hc.
      exists h. split; [by left|].
      rewrite (disconnect_noop_path _ _ Hc) in Hr |- *.
      cbn [fst snd promises set_promises] in Hr. cbn [fst snd].
      rewrite lookup_snoc_length in Hr. injection Hr as ->.
      assert (handle_connection
                (set_promises (promises w ++ [Resolved (VUri (handle_uri w h))])
                   (assign_connection h None w)) h = None) as Hnone
        by apply (handle_connection_assign_None h w).
      split_and!; [done | done | by apply is_disconnected_no_connection].
    + apply lookup_lt_Some in Hr. rewrite plen_disconnect in Hr. lia.
  - by destruct (Mongootils_frame a0 a1 w) as (_ & _ & E & _); rewrite E in Hch.
  - exfalso. destruct (listeners_settle_emit c ev arg w) as [_ Hp].
    destruct (Hp p) as [E | (_ & s & Hs & Hby)]; [done|].
    rewrite Hr in Hs. by injection Hs as <-.
  - destruct (close_callback_changes _ _ _ _ Hch) as (-> & Hp & Hno).
    destruct (close_callback_settles h q w Hp) as [Hs _].
    destruct (Hs Hno) as [Hv Hc]. exists h. split; [by right|].
    rewrite Hv in Hr. injection Hr as ->.
    split_and!; [done | done | by apply is_disconnected_no_connection].
Qed.

(** A step that resolves a promise with a connection object is [connect]
    on its immediate path or an emitted event; afterwards a handle holds
    that object, so [is] on it answers what the object reports. *)
Lemma step_resolves_connection a w p c :
  promises (perform a w) !! p = Some (Resolved (VConnection (Some c))) →
  promises w !! p ≠ Some (Resolved (VConnection (Some c))) →
  ∃ h, handle_connection (perform a w) h = Some c ∧
       (∀ state, is_ (perform a w) h state
                 = JSBool (reports (perform a w) c state)) ∧
       ((∃ h', a = DoConnect h') →
        reports (perform a w) c "connected" = true).
Proof.
  intros Hr Hn.
  assert (promises (perform a w) !! p ≠ promises w !! p) as Hch
    by (rewrite Hr; congruence).
  destruct a as [h|h|h st|h|h|a0 a1|c0 ev arg|c0 rs|h q]; simpl in *;
    try done.
  - destruct (decide (p < length (promises w))) as [Hlt | Hge].
    { by rewrite connect_untouched in Hch. }
    destruct (decide (p = length (promises w))) as [-> | Hne].
    + rewrite <-(run_executor_snd (connect_executor h) w : (connect w h).2 = _)
        in Hr.
      pose proof (connect_resolved_inv _ _ _ Hr) as Hc.
      rewrite (connect_connected_path _ _ Hc) in Hr |- *.
      cbn [fst snd promises set_promises] in Hr. cbn [fst snd].
      rewrite lookup_snoc_length in Hr. injection Hr as Hr.
      destruct (is_connected_inv _ _ Hc) as (c' & Hc' & Hrep).
      rewrite Hc' in Hr. injection Hr as ->.
      exists h. split_and!; [done | | done].
      intros state. by apply is_of_held.
    + apply lookup_lt_Some in Hr. rewrite plen_connect in Hr. lia.
  - exfalso. destruct (decide (p < length (promises w))) as [Hlt | Hge].
    { by rewrite disconnect_untouched in Hch. }
    destruct (decide (p = length (promises w))) as [-> | Hne].
    + rewrite <-(run_executor_snd (disconnect_executor h) w
                 : (disconnect w h).2 = _) in Hr.
      pose proof (disconnect_resolved_inv _ _ _ Hr) as Hc.
      rewrite (disconnect_noop_path _ _ Hc) in Hr.
      cbn [fst snd promises set_promises] in Hr.
      by rewrite lookup_snoc_length in Hr.
    + apply lookup_lt_Some in Hr. rewrite plen_disconnect in Hr. lia.
  - by destruct (Mongootils_frame a0 a1 w) as (_ & _ & E & _); rewrite E in Hch.
  - destruct (listeners_settle_emit c0 ev arg w) as [Hh Hp].
    destruct (Hp p) as [E | (_ & s & Hs & Hby)]; [done|].
    rewrite Hr in Hs. injection Hs as <-. destruct Hby as [h Hc].
    assert (handle_connection (emit c0 ev arg w).1 h = Some c) as Hc'
      by (unfold handle_connection in *; by rewrite Hh).
    exists h. split_and!; [done | | by intros [h' [=]]].
    intros state. by apply is_of_held.
  - exfalso. destruct (close_callback_changes _ _ _ _ Hch) as (-> & Hp & Hno).
    destruct (close_callback_settles h q w Hp) as [Hs _].
    destruct (Hs Hno) as [Hv _]. by rewrite Hv in Hr.
Qed.

End Steps.

Lemma disconnect_requests_close w h c co :
  holds w h c co →
  truthy (is_ w h "disconnected") || truthy (is_ w h "uninitialized") = false →
  truthy (is_ w h "disconnecting") = false →
  calls (disconnect w h).1 = calls w ++ [CallClose c h (disconnect w h).2].
Proof.
  intros Hho H1 H2.
  rewrite (run_executor_snd (disconnect_executor h) w : (disconnect w h).2 = _).
  unfold disconnect, run_executor. cbn [new_promise].
  rewrite disconnect_executor_initiates
    by (by rewrite !(is_ext w (set_promises _ w))).
  apply holds_new_promise in Hho. cbn [new_promise fst] in Hho.
  destruct (disconnect_initiate_held h (length (promises w)) _ c co Hho)
    as [Hn Hc].
  destruct (disconnect_initiate h (length (promises w)) _) as [w1 [e|]];
    simpl in *; done.
Qed.

(** The open listener resolves with [this.connection] as it is when the
    event fires, and changes nothing that [is] reads. *)
Lemma opened_reads_reference w h p arg :
  promises w !! p = Some Pending →
  let o := run_closure (onConnectionOpened p) (ThisHandle h) arg w in
  o.2 = None ∧
  promises o.1 !! p = Some (Resolved (VConnection (handle_connection w h))) ∧
  ∀ state, is_ o.1 h state = is_ w h state.
Proof.
  intros Hp. simpl. unfold resolve. split_and!; [done | by apply settle_pending|].
  intros state. apply is_ext; [apply handles_settle | apply heap_settle].
Qed.




(** ** [disconnect] and the moment the driver calls back *)

Lemma disconnect_with_later w h : disconnect_with close_later w h = disconnect w h.
Proof. reflexivity. Qed.

(** With a driver that closes inside [close()], [disconnect] returns what
    the driver's steps make of the world in which it received the request;
    an exception on the way rejects the promise. *)
Lemma disconnect_with_now w h c co :
  holds w h c co →
  truthy (is_ w h "disconnected") || truthy (is_ w h "uninitialized") = false →
  truthy (is_ w h "disconnecting") = false →
  let p := length (promises w) in
  let o := driver_closed c h p (disconnect w h).1 in
  disconnect_with close_now w h
  = (match o.2 with
     | Some e => reject p (Some e) o.1
     | None => o.1
     end, p).
Proof.
  intros Hho H1 H2. cbv zeta.
  unfold disconnect_with, disconnect, run_executor,
    disconnect_executor_with, disconnect_executor. cbn [new_promise].
  rewrite !(is_ext w (set_promises _ w)), H1, H2 by done.
  unfold disconnect_initiate_with, disconnect_initiate.
  apply holds_new_promise in Hho. cbn [new_promise fst] in Hho.
  destruct (addConnectionListener_keeps _ _ _ _ "error"
              (onDisconnectionError (length (promises w))) Hho)
    as (wa & coa & -> & Hha & _).
  cbn [ret and_then].
  destruct (addConnectionListener_keeps _ _ _ _ "disconnected"
              (onConnectionClosed (length (promises w))) Hha)
    as (wb & cob & -> & Hhb & _).
  cbn [ret and_then].
  destruct (addConnectionListener_keeps _ _ _ _ "close"
              (disconnect_cleanup (length (promises w))) Hhb)
    as (wc & coc & -> & Hhc & _).
  cbn [ret and_then]. rewrite (proj1 Hhc). cbn [ret fst snd].
  unfold close_now.
  by destruct (driver_closed c h (length (promises w)) _) as [w2 [e|]].
Qed.

(** X7: [disconnect] on a handle whose connection is neither disconnected,
    uninitialized nor disconnecting, and has no entry yet for error,
    disconnected and close.  The driver receives exactly one close request,
    for the held connection, with one listener registered for each of the
    three events and the promise pending.  When the driver has closed the
    connection (state disconnected, ['disconnected'] and ['close'] emitted,
    callback called), nothing has thrown, the promise is resolved with the
    stored URI, the handle holds no connection, the two one-shot listeners
    are gone, and the error listener of this call is still registered.
    With a driver that does this after [close()] has returned, [disconnect]
    returns with the promise pending; with a driver that closes an open
    connection inside [close()], [disconnect] returns with the promise
    already resolved and the reference cleared. *)
Theorem disconnect_then_closed
    (w : world) (h : handle_ref) (c : conn_ref) (co : Conn.t) :
  holds w h c co →
  truthy (is_ w h "disconnected") || truthy (is_ w h "uninitialized") = false →
  truthy (is_ w h "disconnecting") = false →
  silent disconnect_events co →
  let p := length (promises w) in
  let later := disconnect_with close_later w h in
  let now := disconnect_with close_now w h in
  let w1 := later.1 in
  let o := driver_closed c h p w1 in
  later.2 = p ∧
  promises w1 !! p = Some Pending ∧
  calls w1 = calls w ++ [CallClose c h p] ∧
  handle_connection w1 h = Some c ∧
  listeners_of w1 c "error" = [Bind (onDisconnectionError p) h] ∧
  listeners_of w1 c "disconnected"
  = [OnceWrapper "disconnected" (Bind (onConnectionClosed p) h)] ∧
  listeners_of w1 c "close"
  = [OnceWrapper "close" (Bind (disconnect_cleanup p) h)] ∧
  o.2 = None ∧
  promises o.1 !! p = Some (Resolved (VUri (handle_uri w h))) ∧
  handle_connection o.1 h = None ∧
  is_ o.1 h "disconnected" = JSBool true ∧
  calls o.1 = calls w1 ∧
  listeners_of o.1 c "disconnected" = [] ∧
  listeners_of o.1 c "close" = [] ∧
  listeners_of o.1 c "error" = [Bind (onDisconnectionError p) h] ∧
  reports o.1 c "disconnected" = true ∧
  (Conn.readyState co = 1%Z → now = (o.1, p)).
Proof.
  intros Hho H1 H2 Hs.
  pose proof (disconnect_with_now w h c co Hho H1 H2) as Hnow.
  rewrite disconnect_with_later. cbv zeta in Hnow |- *.
  destruct (disconnect_attaches w h c co Hho H1 H2 Hs)
    as (w1 & co1 & E & Hho1 & Hps & Hcl & Hhs & _ & Te & Td & Tc & _ & _).
  rewrite E in Hnow |- *. cbn [fst snd] in Hnow |- *.
  assert (promises w1 !! length (promises w) = Some Pending) as Hp
    by (rewrite Hps; apply lookup_snoc_length).
  destruct (closed_after_attach w1 h c co1 _ Hho1 Te Td Tc Hp)
    as (w2 & co2 & E2 & Hr & Hn & Ho2 & Hcl2 & Te2 & Td2 & Tc2 & Hrs).
  rewrite E2 in Hnow |- *. cbn [fst snd] in Hnow |- *.
  rewrite !(holds_listeners_of _ _ _ _ _ Hho1).
  rewrite (listeners_of_table _ _ _ Te), (listeners_of_table _ _ _ Td),
    (listeners_of_table _ _ _ Tc).
  unfold listeners_of, reports. rewrite Ho2.
  rewrite (listeners_of_table _ _ _ Te2), (listeners_of_table_None _ _ Td2),
    (listeners_of_table_None _ _ Tc2), Hrs.
  assert (handle_uri w1 h = handle_uri w h) as Hu
    by (unfold handle_uri; by rewrite Hhs).
  rewrite Hu in Hr.
  split_and!; try done.
  - apply Hho1.
  - by apply is_disconnected_no_connection.
Qed.

Lemma disconnect_then_closed_witness :
  let now := disconnect_with close_now wrapped_open 0 in
  let later := disconnect_with close_later wrapped_open 0 in
  promises later.1 !! 0 = Some Pending ∧
  calls later.1 = [CallClose 0 0 0] ∧
  now = ((driver_closed 0 0 0 later.1).1, 0) ∧
  promises (driver_closed 0 0 0 later.1).1 !! 0
  = Some (Resolved (VUri (Some "mongodb://db"))) ∧
  handle_connection (driver_closed 0 0 0 later.1).1 0 = None ∧
  listeners_of (driver_closed 0 0 0 later.1).1 0 "error"
  = [Bind (onDisconnectionError 0) 0].
Proof.
  destruct (disconnect_then_closed wrapped_open 0 0 (blank_connection 1))
    as (_ & Hp & Hc & _ & _ & _ & _ & _ & Hr & Hn & _ & _ & _ & _ & He & _ & Hnow).
  - split; reflexivity.
  - reflexivity.
  - reflexivity.
  - apply silent_blank.
  - split_and!; [exact Hp | exact Hc | exact (Hnow eq_refl) | exact Hr
                 | exact Hn | exact He].
Defined.

(** X8: under the same conditions, an error event that the driver emits
    while it has the close request and has not called back rejects the
    promise with the very value emitted; nothing throws, the handle keeps
    its connection, no listener is detached and no request is made.  That
    is the case after [disconnect] has returned with a driver that calls
    back later.  With a driver that closes an open connection inside
    [close()] the promise is resolved when [disconnect] returns, and an
    error event after that finds the error listener still registered and
    changes nothing. *)
Theorem disconnect_error_rejects
    (w : world) (h : handle_ref) (c : conn_ref) (co : Conn.t)
    (e : option error) :
  holds w h c co →
  truthy (is_ w h "disconnected") || truthy (is_ w h "uninitialized") = false →
  truthy (is_ w h "disconnecting") = false →
  silent disconnect_events co →
  let p := length (promises w) in
  let w1 := (disconnect_with close_later w h).1 in
  let o := emit c "error" e w1 in
  let w2 := (disconnect_with close_now w h).1 in
  o.2 = None ∧
  promises o.1 !! p = Some (Rejected e) ∧
  handle_connection o.1 h = Some c ∧
  heap o.1 = heap w1 ∧ calls o.1 = calls w1 ∧
  (Conn.readyState co = 1%Z →
   promises w2 !! p = Some (Resolved (VUri (handle_uri w h))) ∧
   emit c "error" e w2 = ret w2).
Proof.
  intros Hho H1 H2 Hs.
  pose proof (disconnect_with_now w h c co Hho H1 H2) as Hnow.
  rewrite disconnect_with_later. cbv zeta in Hnow |- *.
  destruct (disconnect_attaches w h c co Hho H1 H2 Hs)
    as (w1 & co1 & E & Hho1 & Hps & _ & Hhs & _ & Te & Td & Tc & _).
  rewrite E in Hnow |- *. cbn [fst snd] in Hnow |- *.
  rewrite (error_fires _ _ _ _ onDisconnectionError _ _ (or_intror eq_refl)
             Hho1 (listeners_of_table _ _ _ Te)).
  cbn [ret fst snd]. unfold reject.
  rewrite handle_connection_settle, heap_settle.
  assert (promises w1 !! length (promises w) = Some Pending) as Hp
    by (rewrite Hps; apply lookup_snoc_length).
  split_and!; try done.
  - by apply settle_pending.
  - apply Hho1.
  - unfold settle. by repeat case_match.
  - intros _.
    destruct (closed_after_attach w1 h c co1 _ Hho1 Te Td Tc Hp)
      as (w2 & co2 & E2 & Hr & _ & Ho2 & _ & Te2 & _).
    rewrite E2 in Hnow. cbn [fst snd] in Hnow. rewrite Hnow. cbn [fst].
    assert (handle_uri w1 h = handle_uri w h) as Hu
      by (unfold handle_uri; by rewrite Hhs).
    rewrite Hu in Hr. split; [done|].
    rewrite (emit_single _ _ _ _
               (Bind (onDisconnectionError (length (promises w))) h)).
    + simpl. unfold reject, settle. by rewrite Hr.
    + unfold listeners_of. rewrite Ho2. by rewrite (listeners_of_table _ _ _ Te2).
Qed.

Lemma disconnect_error_rejects_witness :
  let w1 := (disconnect_with close_later wrapped_open 0).1 in
  let w2 := (disconnect_with close_now wrapped_open 0).1 in
  promises (emit 0 "error" (Some (Err 3)) w1).1 !! 0
  = Some (Rejected (Some (Err 3))) ∧
  promises w2 !! 0 = Some (Resolved (VUri (Some "mongodb://db"))) ∧
  emit 0 "error" (Some (Err 3)) w2 = ret w2.
Proof.
  destruct (disconnect_error_rejects wrapped_open 0 0 (blank_connection 1)
              (Some (Err 3))) as (_ & Hr & _ & _ & _ & Hn).
  - split; reflexivity.
  - reflexivity.
  - reflexivity.
  - apply silent_blank.
  - split; [exact Hr | exact (Hn eq_refl)].
Defined.

Lemma grows_driver_closed P c h p w : grows P w (driver_closed c h p w).1.
Proof.
  unfold driver_closed.
  apply grows_and_then; [|intros w1; apply grows_close_callback].
  apply grows_and_then; [|intros w1; apply grows_emit].
  eapply grows_trans; [apply grows_set_readyState | apply grows_emit].
Qed.

(** X9: if the connection's only error listener is a function that declares
    a parameter (such as the error listener an earlier [connect] left
    there), [disconnect] does not attach its own error handler.  When the
    driver has received the close request the listeners of error are
    unchanged and the promise is pending, and an error event, whatever it
    carries, leaves it pending: so it is after [disconnect] has returned
    with a driver that calls back later.  With a driver that closes an open
    connection inside [close()], [disconnect] returns with no other error
    listener either, and an error event leaves the promise as it is. *)
Theorem disconnect_error_shadowed
    (w : world) (h : handle_ref) (c : conn_ref) (co : Conn.t) (f : fn) :
  holds w h c co →
  truthy (is_ w h "disconnected") || truthy (is_ w h "uninitialized") = false →
  truthy (is_ w h "disconnecting") = false →
  EventEmitter.table co !! "error" = Some (SFun f) →
  fn_length f ≠ 0 →
  ¬ mentions (length (promises w)) f →
  let p := length (promises w) in
  let w1 := (disconnect_with close_later w h).1 in
  let w2 := (disconnect_with close_now w h).1 in
  listeners_of w1 c "error" = [f] ∧
  promises w1 !! p = Some Pending ∧
  (∀ arg, promises (emit c "error" arg w1).1 !! p = Some Pending) ∧
  (Conn.readyState co = 1%Z →
   (∀ g, g ∈ listeners_of w2 c "error" → g = f) ∧
   (∀ arg, promises (emit c "error" arg w2).1 !! p = promises w2 !! p)).
Proof.
  intros Hho H1 H2 Ht Hlen Hm.
  pose proof (disconnect_with_now w h c co Hho H1 H2) as Hnow.
  rewrite disconnect_with_later. cbv zeta in Hnow |- *.
  assert (listeners_of (disconnect w h).1 c "error" = [f] ∧
          promises (disconnect w h).1 !! length (promises w) = Some Pending)
    as [Hl Hp].
  { unfold disconnect, run_executor. cbn [new_promise].
    rewrite disconnect_executor_initiates
      by (by rewrite !(is_ext w (set_promises _ w))).
    unfold disconnect_initiate.
    apply holds_new_promise in Hho. cbn [new_promise fst] in Hho.
    destruct (addConnectionListener_keeps _ _ _ _ "error"
                (onDisconnectionError (length (promises w))) Hho)
      as (wa & coa & -> & Hha & Hpa & _ & Hsame).
    rewrite (Hsame (may_attach_parameter _ _ _ Ht Hlen)) in Hha. clear Hsame.
    cbn [ret and_then].
    destruct (addConnectionListener_keeps _ _ _ _ "disconnected"
                (onConnectionClosed (length (promises w))) Hha)
      as (wb & cob & -> & Hhb & Hpb & Hnb & _).
    cbn [ret and_then].
    destruct (addConnectionListener_keeps _ _ _ _ "close"
                (disconnect_cleanup (length (promises w))) Hhb)
      as (wc & coc & -> & Hhc & Hpc & Hnc & _).
    cbn [ret and_then]. rewrite (proj1 Hhc). cbn [ret fst snd].
    eapply (holds_log _ _ _ _ (CallClose c h (length (promises w)))) in Hhc.
    eapply (holds_update_conn _ _ _ _
              (λ co, if decide (Conn.readyState co = 1%Z)
                     then Conn.set_readyState 3 co else co)) in Hhc.
    split.
    - rewrite (holds_listeners_of _ _ _ _ _ Hhc).
      apply (listeners_of_table _ _ (SFun f)).
      rewrite table_close_state, Hnc, Hnb by done. exact Ht.
    - change (promises (Connection_close c h (length (promises w)) wc))
        with (promises wc).
      rewrite Hpc, Hpb, Hpa. simpl. apply lookup_snoc_length. }
  assert (∀ w', (∀ g, g ∈ listeners_of w' c "error" → g = f) →
                ∀ arg, promises (emit c "error" arg w').1
                         !! length (promises w)
                       = promises w' !! length (promises w)) as Hquiet.
  { intros w' Hw' arg. apply emit_untouched. intros g Hg.
    by rewrite (Hw' g Hg). }
  assert (∀ g, g ∈ listeners_of (disconnect w h).1 c "error" → g = f) as Hl1.
  { intros g Hg. rewrite Hl in Hg.
    apply elem_of_cons in Hg as [-> | Hg]; [done|].
    by apply elem_of_nil in Hg. }
  split_and!; try done.
  - intros arg. by rewrite Hquiet.
  - intros _.
    assert (∀ g, g ∈ listeners_of (disconnect_with close_now w h).1 c "error"
                 → g = f) as Hl2.
    { intros g Hg. apply Hl1. rewrite Hnow in Hg. cbn [fst] in Hg.
      pose proof (grows_driver_closed (λ _, False) c h (length (promises w))
                    (disconnect w h).1) as Hgr.
      destruct (driver_closed c h (length (promises w)) (disconnect w h).1)
        as [w2 [e|]]; cbn [fst snd] in Hg, Hgr.
      - pose proof (grows_trans _ _ _ _ Hgr
                      (grows_settle _ (length (promises w))
                         (Rejected (Some e)) w2)) as (A & _).
        by destruct (A _ _ _ Hg) as [? | (? & ? & [] & _)].
      - destruct Hgr as (A & _).
        by destruct (A _ _ _ Hg) as [? | (? & ? & [] & _)]. }
    split; [done | by apply Hquiet].
Qed.

Lemma disconnect_error_shadowed_witness :
  let w1 := (disconnect_with close_later connected_world 0).1 in
  let w2 := (disconnect_with close_now connected_world 0).1 in
  listeners_of w1 0 "error" = [Bind (onConnectionError 0) 0] ∧
  promises (emit 0 "error" (Some (Err 3)) w1).1 !! 1 = Some Pending ∧
  promises (emit 0 "error" (Some (Err 3)) w2).1 !! 1 = promises w2 !! 1.
Proof.
  pose proof (λ co, disconnect_error_shadowed connected_world 0 0 co
                      (Bind (onConnectionError 0) 0)) as Hs.
  edestruct Hs as (Hl & _ & He & Hn).
  - split; vm_compute; reflexivity.
  - vm_compute. reflexivity.
  - vm_compute. reflexivity.
  - vm_compute. reflexivity.
  - simpl. lia.
  - vm_compute. lia.
  - split_and!; [exact Hl | exact (He (Some (Err 3)))|].
    apply Hn. vm_compute. reflexivity.
Defined.
